(** * NSIGII sparse framework: the tomographic engines, embedded and verified

    A shallow embedding of the two engine files of the repository,

    - [NSIGII_EZE_Lite/nsigii_minimal.c]      (modules [Minimal],
      [MinimalMain]),
    - [NSIGII_EZE_Lite/nsigii_dimensional.c]  (modules [Dimensional],
      [DimensionalMain]),

    and of the core of the framework, [nsigii_core] (module [Core]), with
    the properties of them that the specification states and further
    properties that the code shows.

    Conventions of the embedding.
    - A C [int] is a [Z] kept in 32-bit two's complement: arithmetic that
      can leave the range is wrapped with [CInt.wrap], [%] is the
      truncating remainder [Z.rem], [/] on integers is [Z.quot].
    - [float] and [double] are the IEEE-754 binary32 and binary64 formats,
      computed with the executable specification of the Standard Library
      ([SpecFloat], round to nearest even).  It has one NaN: the sign and
      the payload of a NaN are not part of the embedding.
    - A fixed-size C array is a list; the array bound is the list's length.
      A read or write outside the bound has no defined behaviour in C and
      is a [None] result where an index is computed from data.
    - [rand], [RAND_MAX] and [sin] come from the C library; they are the
      fields of the class [LibC], [rand] as a step function on an explicit
      generator state.  [grid] arguments that the C code receives
      uninitialised are the memory the grid occupies at the call.
    - [printf] output is not part of the state and is left out, and so are
      the demonstration parts of the two [main] functions that no property
      below concerns (the quadratic formula, the complex exponential, the
      loops that print the wave). *)

From Stdlib Require Import ZArith QArith Qabs Lia SpecFloat.
From Stdlib Require String Ascii.
From stdpp Require Import base list.

Local Open Scope Z_scope.

(** * Part I: the embedding *)

(** ** C integers *)

Module CInt.

Definition INT_MIN : Z := - 2 ^ 31.
Definition INT_MAX : Z := 2 ^ 31 - 1.

(** Reduction of a mathematical integer into the range of [int]. *)
Definition wrap (z : Z) : Z := (z + 2 ^ 31) mod 2 ^ 32 - 2 ^ 31.

(** Conversion to [uint8_t] and to [int8_t]. *)
Definition u8 (z : Z) : Z := z mod 256.
Definition i8 (z : Z) : Z := (z + 128) mod 256 - 128.

Definition in_int (z : Z) : Prop := INT_MIN <= z <= INT_MAX.

End CInt.

(** ** IEEE-754 formats *)

Module IEEE.

Section Format.
(** [prec] bits of mantissa, infinities at exponent [emax]. *)
Variables prec emax : Z.

Definition of_Z (z : Z) : spec_float := binary_normalize prec emax z 0 false.
Definition add : spec_float -> spec_float -> spec_float := SFadd prec emax.
Definition sub : spec_float -> spec_float -> spec_float := SFsub prec emax.
Definition mul : spec_float -> spec_float -> spec_float := SFmul prec emax.
Definition div : spec_float -> spec_float -> spec_float := SFdiv prec emax.

(** The decimal constant [m / 10^e], correctly rounded: [m] and [10^e] are
    exact in the format for every constant of the source, so one rounded
    division gives the value of the literal. *)
Definition dec (m : Z) (e : Z) : spec_float := div (of_Z m) (of_Z (10 ^ e)).

End Format.

Definition zero : spec_float := S754_zero false.
Definition fabs : spec_float -> spec_float := SFabs.
Definition ltb : spec_float -> spec_float -> bool := SFltb.

(** The rational a finite value stands for, in lowest terms. *)
Definition to_Q (x : spec_float) : option Q :=
  match x with
  | S754_zero _ => Some 0%Q
  | S754_finite s m e =>
      let v := (inject_Z (Z.pos m) * (2 ^ e))%Q in
      Some (Qred (if s then (- v)%Q else v))
  | _ => None
  end.

End IEEE.

(** [float]: binary32. *)
Module F32.
Definition float : Type := spec_float.
Definition of_Z : Z -> float := IEEE.of_Z 24 128.
Definition add : float -> float -> float := IEEE.add 24 128.
Definition sub : float -> float -> float := IEEE.sub 24 128.
Definition mul : float -> float -> float := IEEE.mul 24 128.
Definition div : float -> float -> float := IEEE.div 24 128.
Definition dec : Z -> Z -> float := IEEE.dec 24 128.
Definition zero : float := IEEE.zero.
Definition fabs : float -> float := IEEE.fabs.
Definition ltb : float -> float -> bool := IEEE.ltb.
Definition to_Q : float -> option Q := IEEE.to_Q.
End F32.

(** [double]: binary64. *)
Module F64.
Definition float : Type := spec_float.
Definition of_Z : Z -> float := IEEE.of_Z 53 1024.
Definition add : float -> float -> float := IEEE.add 53 1024.
Definition sub : float -> float -> float := IEEE.sub 53 1024.
Definition mul : float -> float -> float := IEEE.mul 53 1024.
Definition div : float -> float -> float := IEEE.div 53 1024.
Definition dec : Z -> Z -> float := IEEE.dec 53 1024.
Definition zero : float := IEEE.zero.
Definition fabs : float -> float := IEEE.fabs.
Definition ltb : float -> float -> bool := IEEE.ltb.
Definition to_Q : float -> option Q := IEEE.to_Q.
End F64.

(** ** The C library *)

(** What the engines take from [stdlib.h] and [math.h]: the generator
    behind [rand()] as a step function on its hidden state, [RAND_MAX],
    and the sine on doubles. *)
Class LibC := {
  rng : Type;
  rand : rng -> Z * rng;
  RAND_MAX : Z;
  sin : F64.float -> F64.float
}.

(** [M_PI], the double nearest to pi. *)
Definition M_PI : F64.float := S754_finite false 7074237752028440 (-51).

(** ** nsigii_dimensional.c *)

Module Dimensional.

Import F64.

Definition GRID_SIZE : Z := 10.
Definition SPARSE_FACTOR : Z := 4.
Definition ACTIVE_SIZE : Z := (GRID_SIZE * GRID_SIZE * GRID_SIZE) `quot` SPARSE_FACTOR.
Definition HARMONICS : Z := 9.
Definition MAX_DERIVATIVES : Z := 5.

Inductive ColorChannel := RED | GREEN | BLUE | CYAN.

Record TomographicIndex := {
  i : Z; j : Z; k : Z;
  permutations : list (Z * Z * Z)
}.

(** [dvalue] is the field [value] of the C struct (the name [value] is
    taken by [SparseNode]). *)
Record DerivativeNode := {
  dvalue : float;
  order : Z;
  trace : list float;
  terminated : bool
}.

Record SparseNode := {
  value : float;
  channel : ColorChannel;
  active : bool;
  idx : TomographicIndex;
  deriv : DerivativeNode;
  entropy : float;
  polarity : float
}.

(** One row [grid[n]] of [SparseNode grid[ACTIVE_SIZE][4]]: a cell per
    channel. *)
Definition Row : Type := ColorChannel -> SparseNode.

(** The grid [SparseNode grid[ACTIVE_SIZE][4]]. *)
Abbreviation Grid := (list Row).

Definition set_cell (row : Row) (ch : ColorChannel) (n : SparseNode) : Row :=
  fun c =>
    match ch, c with
    | RED, RED | GREEN, GREEN | BLUE, BLUE | CYAN, CYAN => n
    | _, _ => row c
    end.

Definition channels : list ColorChannel := [RED; GREEN; BLUE; CYAN].

Section WithLibC.
Context {libc : LibC}.

(** The loop [for (n = 1; n <= harmonics; n += 2) result += sin(n*x)/n]. *)
Fixpoint fourier_loop (fuel : nat) (n harmonics : Z) (x result : float) : float :=
  match fuel with
  | O => result
  | S fuel' =>
      if n <=? harmonics
      then fourier_loop fuel' (n + 2) harmonics x
             (add result (div (sin (mul (of_Z n) x)) (of_Z n)))
      else result
  end.

Definition fourier_square (x : float) (harmonics : Z) : float :=
  mul (div (of_Z 4) M_PI) (fourier_loop (Z.to_nat harmonics) 1 harmonics x zero).

Definition init_tomographic_index (i j k : Z) : TomographicIndex :=
  {| i := i; j := j; k := k;
     permutations :=
       [ (i, j, k); (j, i, k); (i, k, j); (j, k, i); (k, i, j); (k, j, i) ] |}.

(** [trace_derivative(node, initial, time)].  Every field of [*node] is
    assigned, so the node is returned whole.  The first two stores,
    [node->value = initial] and [node->trace[0] = initial], are overwritten
    before they are read. *)
Definition trace_derivative (initial time : float) : DerivativeNode :=
  let coeffs0 := of_Z 4 in
  let coeffs1 := of_Z 3 in
  let coeffs2 := of_Z 2 in
  let coeffs3 := of_Z 1 in
  let t_powers0 := of_Z 1 in
  let t_powers1 := time in
  let t_powers2 := mul time time in
  let t_powers3 := mul (mul time time) time in
  let v := zero in
  let v := add v (mul coeffs0 t_powers0) in
  let v := add v (mul coeffs1 t_powers1) in
  let v := add v (mul coeffs2 t_powers2) in
  let v := add v (mul coeffs3 t_powers3) in
  let t0 := v in
  let t1 := add (add coeffs1 (mul (mul (of_Z 2) coeffs2) time))
                (mul (mul (mul (of_Z 3) coeffs3) time) time) in
  let t2 := add (mul (of_Z 2) coeffs2) (mul (mul (of_Z 6) coeffs3) time) in
  let t3 := mul (of_Z 6) coeffs3 in
  let t4 := zero in
  {| dvalue := v;
     order := 4;
     trace := [t0; t1; t2; t3; t4];
     terminated := ltb (fabs t4) (dec 1 10) |}.

Definition set_deriv (n : SparseNode) (d : DerivativeNode) : SparseNode :=
  {| value := value n; channel := channel n; active := active n;
     idx := idx n; deriv := d; entropy := entropy n; polarity := polarity n |}.

(** [0.5 + (double)rand() / RAND_MAX * 0.5], on the value [x] that [rand()]
    returned. *)
Definition init_entropy (x : Z) : float :=
  add (dec 5 1) (mul (div (of_Z x) (of_Z RAND_MAX)) (dec 5 1)).

(** The body of the innermost loop of [init_sparse_grid] on the row
    [grid[linear_idx]]; [x_red], [x_green], [x_blue] are the three values
    [rand()] returned, in this order.  Fields the body does not assign
    ([idx] outside RED) keep what the row held. *)
Definition init_row (i j k x_red x_green x_blue : Z) (old : Row) : Row :=
  let s := of_Z (i + j + k) in
  let red :=
    {| value := fourier_square s HARMONICS;
       active := true; channel := RED;
       entropy := init_entropy x_red;
       polarity := of_Z 1;
       idx := init_tomographic_index i j k;
       deriv := deriv (old RED) |} in
  let green :=
    {| value := fourier_square (add s (dec 5 1)) HARMONICS;
       active := true; channel := GREEN;
       entropy := init_entropy x_green;
       polarity := of_Z (-1);
       idx := idx (old GREEN);
       deriv := deriv (old GREEN) |} in
  let blue :=
    {| value := fourier_square (add s (of_Z 1)) HARMONICS;
       active := true; channel := BLUE;
       entropy := init_entropy x_blue;
       polarity := zero;
       idx := idx (old BLUE);
       deriv := deriv (old BLUE) |} in
  let cyan :=
    {| value := div (add (value red) (value green)) (of_Z 2);
       active := true; channel := CYAN;
       entropy := div (add (entropy red) (entropy green)) (of_Z 2);
       polarity := zero;
       idx := idx (old CYAN);
       deriv := deriv (old CYAN) |} in
  let time_base := mul (of_Z (i + j + k)) (dec 1 1) in
  fun ch =>
    match ch with
    | RED => set_deriv red (trace_derivative (value red) time_base)
    | GREEN => set_deriv green (trace_derivative (value green) time_base)
    | BLUE => set_deriv blue (trace_derivative (value blue) time_base)
    | CYAN => set_deriv cyan (trace_derivative (value cyan) time_base)
    end.

(** State of the loops of [init_sparse_grid]: the grid, [linear_idx] and
    the generator. *)
Definition InitState : Type := Grid * Z * rng.

Definition init_body (i j k : Z) (st : InitState) : InitState :=
  let '(grid, linear_idx, gen) := st in
  if (Z.rem (i + j + k) SPARSE_FACTOR =? 0) && (linear_idx <? ACTIVE_SIZE)
  then
    let '(x_red, gen) := rand gen in
    let '(x_green, gen) := rand gen in
    let '(x_blue, gen) := rand gen in
    (alter (init_row i j k x_red x_green x_blue) (Z.to_nat linear_idx) grid,
     linear_idx + 1, gen)
  else st.

(** [init_sparse_grid(grid)], on the memory [grid] occupies when it is
    called. *)
Definition init_loops (st : InitState) : InitState :=
  fold_left (fun st i =>
    fold_left (fun st j =>
      fold_left (fun st k => init_body i j k st) (seqZ 0 GRID_SIZE) st)
      (seqZ 0 GRID_SIZE) st)
    (seqZ 0 GRID_SIZE) st.

Definition init_sparse_grid (grid : Grid) (gen : rng) : Grid * rng :=
  let '(grid, _, gen) := init_loops (grid, 0, gen) in (grid, gen).

(** The locals of [nsigii_verification_cycle], with the generator. *)
Record CycleStats := {
  active_count : ColorChannel -> Z;
  total_entropy : float;
  gen_of : rng
}.

Definition bump (cnt : ColorChannel -> Z) (ch : ColorChannel) : ColorChannel -> Z :=
  fun c =>
    match ch, c with
    | RED, RED | GREEN, GREEN | BLUE, BLUE | CYAN, CYAN => cnt c + 1
    | _, _ => cnt c
    end.

(** The body of the inner loop, on the cell [grid[n][ch]]. *)
Definition cycle_cell (cycle : Z) (n : nat) (st : Row * CycleStats) (ch : ColorChannel)
  : Row * CycleStats :=
  let '(row, stats) := st in
  if active (row ch) then
    let phase := add (mul (of_Z cycle) (dec 1 1)) (mul (of_Z (Z.of_nat n)) (dec 1 2)) in
    let v := fourier_square phase (HARMONICS + Z.rem cycle 5) in
    let d := trace_derivative v phase in
    let '(x, gen) := rand (gen_of stats) in
    let noise := sub (mul (div (of_Z x) (of_Z RAND_MAX)) (dec 1 1)) (dec 5 2) in
    let e := add (add (dec 5 1) (mul (fabs v) (dec 3 1))) noise in
    let cell :=
      {| value := v; channel := channel (row ch); active := active (row ch);
         idx := idx (row ch); deriv := d; entropy := e;
         polarity := polarity (row ch) |} in
    (set_cell row ch cell,
     {| active_count := bump (active_count stats) ch;
        total_entropy := add (total_entropy stats) e;
        gen_of := gen |})
  else st.

Definition cycle_row (cycle : Z) (st : Grid * CycleStats) (n : nat) : Grid * CycleStats :=
  let '(grid, stats) := st in
  match grid !! n with
  | Some row =>
      let '(row', stats') := fold_left (cycle_cell cycle n) channels (row, stats) in
      (<[n := row']> grid, stats')
  | None => st
  end.

(** [nsigii_verification_cycle(grid, cycle)]: the grid after the cycle and
    the counters it prints. *)
Definition nsigii_verification_cycle (grid : Grid) (cycle : Z) (gen : rng)
  : Grid * CycleStats :=
  fold_left (cycle_row cycle) (seq 0 (Z.to_nat ACTIVE_SIZE))
    (grid, {| active_count := fun _ => 0; total_entropy := zero; gen_of := gen |}).

(** The grid part of [main]: initialisation, then the cycles 0, 1, 2.  The
    result lists the grid after initialisation and after each cycle, with
    the counters of that cycle. *)
Definition run_cycles (grid : Grid) (gen : rng) : Grid * list (Grid * CycleStats) :=
  let '(g0, gen) := init_sparse_grid grid gen in
  let r0 := nsigii_verification_cycle g0 0 gen in
  let r1 := nsigii_verification_cycle (fst r0) 1 (gen_of (snd r0)) in
  let r2 := nsigii_verification_cycle (fst r1) 2 (gen_of (snd r1)) in
  (g0, [r0; r1; r2]).

(** Number of active cells of a channel in a grid. *)
Definition count_active (ch : ColorChannel) (grid : Grid) : nat :=
  length (filter (fun row : Row => active (row ch) = true) grid).

End WithLibC.

End Dimensional.

(** ** nsigii_minimal.c *)

Module Minimal.

Import F32.

Record GovernanceVector := {
  attack_risk : float;
  rollback_cost : float;
  stability_impact : float
}.

Inductive DataChannel := RED_CHANNEL | GREEN_CHANNEL | BLUE_CHANNEL | CYAN_CHANNEL.

Definition DATA_SIZE : Z := 1024.
Definition SPARSE_FACTOR : Z := 4.
Definition ACTIVE_SIZE : Z := DATA_SIZE `quot` SPARSE_FACTOR.

(** [value] is a [uint8_t], [polarity] an [int8_t]: integers kept in
    0..255 and in -128..127. *)
Record SparseNode := {
  value : Z;
  active : bool;
  vector : GovernanceVector;
  channel : DataChannel;
  polarity : Z
}.

Record TomographicGrid := {
  red : list SparseNode;
  green : list SparseNode;
  blue : list SparseNode;
  cyan : list SparseNode;
  active_count : Z
}.

Record TomographicIndex := {
  i : Z; j : Z; k : Z;
  permutations : list (Z * Z * Z)
}.

Definition init_tomographic_index (i j k : Z) : TomographicIndex :=
  {| i := i; j := j; k := k;
     permutations :=
       [ (i, j, k); (j, i, k); (i, k, j); (j, k, i); (k, i, j); (k, j, i) ] |}.

(** [data] holds the bytes written so far ([data[0 .. length-1]]; the rest
    of the 256 is never read), [plength] is the field [length] and
    [pentropy] the field [entropy].  The cycle assigns neither [index] nor
    [risk]. *)
Record NsigiiPacket := {
  data : list Z;
  plength : Z;
  pentropy : float
}.

Definition PACKET_CAPACITY : Z := 256.

(** What [combine_channels] stores in [cyan[n]] when both cells are
    active: all five fields. *)
Definition combined (r g : SparseNode) : SparseNode :=
  {| value := CInt.u8 ((value r + value g) `quot` 2);
     active := true;
     channel := CYAN_CHANNEL;
     polarity := CInt.i8 ((polarity r + polarity g) `quot` 2);
     vector :=
       {| attack_risk :=
            div (add (attack_risk (vector r)) (attack_risk (vector g))) (of_Z 2);
          rollback_cost :=
            div (add (rollback_cost (vector r)) (rollback_cost (vector g))) (of_Z 2);
          stability_impact :=
            div (add (stability_impact (vector r)) (stability_impact (vector g)))
                (of_Z 2) |} |}.

(** One iteration of the loop of [combine_channels]: there is no [else]. *)
Definition combine_step (red green : list SparseNode) (cyan : list SparseNode) (n : nat)
  : list SparseNode :=
  match red !! n, green !! n with
  | Some r, Some g =>
      if active r && active g then <[n := combined r g]> cyan else cyan
  | _, _ => cyan
  end.

Definition combine_channels (cyan red green : list SparseNode) (n : nat)
  : list SparseNode :=
  fold_left (combine_step red green) (seq 0 n) cyan.

Inductive TridentEvent :=
  | EVENT_UP | EVENT_DOWN | EVENT_LEFT | EVENT_RIGHT
  | EVENT_BACK | EVENT_START | EVENT_ENTER | EVENT_STOP.

Definition set_i (idx : TomographicIndex) (v : Z) : TomographicIndex :=
  {| i := v; j := j idx; k := k idx; permutations := permutations idx |}.
Definition set_j (idx : TomographicIndex) (v : Z) : TomographicIndex :=
  {| i := i idx; j := v; k := k idx; permutations := permutations idx |}.
Definition set_k (idx : TomographicIndex) (v : Z) : TomographicIndex :=
  {| i := i idx; j := j idx; k := v; permutations := permutations idx |}.

(** [handle_trident_event(event, grid, idx)]: the grid is not touched, the
    index is updated in place. *)
Definition handle_trident_event (event : TridentEvent) (grid : TomographicGrid)
    (idx : TomographicIndex) : TomographicIndex :=
  match event with
  | EVENT_UP => set_i idx (Z.rem (CInt.wrap (i idx + 1)) 10)
  | EVENT_DOWN => set_i idx (Z.rem (CInt.wrap (CInt.wrap (i idx - 1) + 10)) 10)
  | EVENT_LEFT => set_j idx (Z.rem (CInt.wrap (CInt.wrap (j idx - 1) + 10)) 10)
  | EVENT_RIGHT => set_j idx (Z.rem (CInt.wrap (j idx + 1)) 10)
  | EVENT_BACK => set_k idx (Z.rem (CInt.wrap (CInt.wrap (k idx - 1) + 10)) 10)
  | EVENT_START => set_i (set_j (set_k idx 0) 0) 0
  | EVENT_ENTER => idx
  | EVENT_STOP => idx
  end.

(** A sequence of events, handled in order. *)
Definition handle_events (events : list TridentEvent) (grid : TomographicGrid)
    (idx : TomographicIndex) : TomographicIndex :=
  fold_left (fun idx ev => handle_trident_event ev grid idx) events idx.

(** [(i * 100 + j * 10 + k) % ACTIVE_SIZE] on [int]. *)
Definition linear_index (i j k : Z) : Z :=
  Z.rem (CInt.wrap (CInt.wrap (CInt.wrap (i * 100) + CInt.wrap (j * 10)) + k))
        ACTIVE_SIZE.

(** [a[z]] for a computed [int] index: defined inside the array only. *)
Definition read {A} (a : list A) (z : Z) : option A :=
  if z <? 0 then None else a !! Z.to_nat z.

(** [packet.data[packet.length++] = v] on the 256-byte buffer. *)
Definition push (pkt : list Z * Z) (v : Z) : option (list Z * Z) :=
  let '(bytes, len) := pkt in
  if (0 <=? len) && (len <? PACKET_CAPACITY)
  then Some (bytes ++ [v], len + 1)
  else None.

(** Body of the loop over the six stored permutations. *)
Definition encode_step (grid : TomographicGrid) (idx : TomographicIndex)
    (acc : option (list Z * Z)) (p : nat) : option (list Z * Z) :=
  match acc, permutations idx !! p with
  | Some pkt, Some (pi, pj, pk) =>
      let linear_idx := linear_index pi pj pk in
      match read (red grid) linear_idx with
      | Some r =>
          match (if active r then push pkt (value r) else Some pkt) with
          | Some pkt =>
              match read (green grid) linear_idx with
              | Some g => if active g then push pkt (value g) else Some pkt
              | None => None
              end
          | None => None
          end
      | None => None
      end
  | _, _ => None
  end.

Definition encode (grid : TomographicGrid) (idx : TomographicIndex)
  : option (list Z * Z) :=
  fold_left (encode_step grid idx) (seq 0 6) (Some ([], 0)).

(** [sum / packet.length], or 0 for the empty packet. *)
Definition packet_entropy (bytes : list Z) (len : Z) : float :=
  let sum := fold_left (fun sum b => add sum (of_Z b)) bytes zero in
  if 0 <? len then div sum (of_Z len) else zero.

Definition gv_zero : GovernanceVector :=
  {| attack_risk := zero; rollback_cost := zero; stability_impact := zero |}.

(** Body of the loop over [grid->red[0 .. ACTIVE_SIZE-1]]. *)
Definition risk_step (red : list SparseNode) (acc : GovernanceVector * Z) (n : nat)
  : GovernanceVector * Z :=
  let '(avg, count) := acc in
  match red !! n with
  | Some r =>
      if active r then
        ({| attack_risk := add (attack_risk avg) (attack_risk (vector r));
            rollback_cost := add (rollback_cost avg) (rollback_cost (vector r));
            stability_impact :=
              add (stability_impact avg) (stability_impact (vector r)) |},
         count + 1)
      else acc
  | None => acc
  end.

Definition aggregate_risk (grid : TomographicGrid) : GovernanceVector :=
  let '(avg, count) :=
    fold_left (risk_step (red grid)) (seq 0 (Z.to_nat ACTIVE_SIZE)) (gv_zero, 0) in
  if 0 <? count then
    {| attack_risk := div (attack_risk avg) (of_Z count);
       rollback_cost := div (rollback_cost avg) (of_Z count);
       stability_impact := div (stability_impact avg) (of_Z count) |}
  else avg.

(** The game is reported balanced when [avg_vector.attack_risk < 0.1f]. *)
Definition balanced (avg : GovernanceVector) : bool :=
  ltb (attack_risk avg) (dec 1 1).

(** [nsigii_protocol_cycle(grid, idx)]: the packet, the risk vector and the
    verdict it prints; [None] when an access leaves its array. *)
Definition nsigii_protocol_cycle (grid : TomographicGrid) (idx : TomographicIndex)
  : option (NsigiiPacket * GovernanceVector * bool) :=
  match encode grid idx with
  | Some (bytes, len) =>
      let packet :=
        {| data := bytes; plength := len; pentropy := packet_entropy bytes len |} in
      let avg_vector := aggregate_risk grid in
      Some (packet, avg_vector, balanced avg_vector)
  | None => None
  end.

Section WithLibC.
Context {libc : LibC}.

(** [(float)rand() / RAND_MAX * scale], on the value [x] of [rand()]. *)
Definition rand_scaled (x : Z) (scale : float) : float :=
  mul (div (of_Z x) (of_Z RAND_MAX)) scale.

(** State of the loop of [init_sparse_grid]. *)
Definition init_body (st : TomographicGrid * rng) (n : nat) : TomographicGrid * rng :=
  let '(grid, gen) := st in
  let is_active := Z.of_nat n mod SPARSE_FACTOR =? 0 in
  let '(x_red, gen) := rand gen in
  let '(x_green, gen) := rand gen in
  let '(x_blue, gen) := rand gen in
  let '(x_attack, gen) := rand gen in
  let '(x_rollback, gen) := rand gen in
  let '(x_stability, gen) := rand gen in
  let v :=
    {| attack_risk := rand_scaled x_attack (dec 1 1);
       rollback_cost := rand_scaled x_rollback (dec 5 2);
       stability_impact := rand_scaled x_stability (dec 2 1) |} in
  let r :=
    {| value := CInt.u8 (Z.rem x_red 256); active := is_active;
       channel := RED_CHANNEL; polarity := 1; vector := v |} in
  let g :=
    {| value := CInt.u8 (Z.rem x_green 256); active := is_active;
       channel := GREEN_CHANNEL; polarity := -1; vector := v |} in
  let b :=
    {| value := CInt.u8 (Z.rem x_blue 256); active := is_active;
       channel := BLUE_CHANNEL; polarity := 0; vector := v |} in
  ({| red := <[n := r]> (red grid);
      green := <[n := g]> (green grid);
      blue := <[n := b]> (blue grid);
      cyan := cyan grid;
      active_count := if active r then active_count grid + 1 else active_count grid |},
   gen).

(** [init_sparse_grid(grid)], on the memory [grid] occupies when it is
    called. *)
Definition init_sparse_grid (grid : TomographicGrid) (gen : rng)
  : TomographicGrid * rng :=
  let grid0 :=
    {| red := red grid; green := green grid; blue := blue grid; cyan := cyan grid;
       active_count := 0 |} in
  let '(grid1, gen) :=
    fold_left init_body (seq 0 (Z.to_nat ACTIVE_SIZE)) (grid0, gen) in
  ({| red := red grid1; green := green grid1; blue := blue grid1;
      cyan := combine_channels (cyan grid1) (red grid1) (green grid1)
                (Z.to_nat ACTIVE_SIZE);
      active_count := active_count grid1 |},
   gen).

End WithLibC.

(** The type invariant of [TomographicGrid]: four arrays of [ACTIVE_SIZE]
    cells. *)
Definition wf_grid (grid : TomographicGrid) : Prop :=
  length (red grid) = Z.to_nat ACTIVE_SIZE
  /\ length (green grid) = Z.to_nat ACTIVE_SIZE
  /\ length (blue grid) = Z.to_nat ACTIVE_SIZE
  /\ length (cyan grid) = Z.to_nat ACTIVE_SIZE.

End Minimal.

(** ** Concrete inputs *)

(** A C library to run the engines on: [rand()] returns 1, 2, 3, ... and
    [RAND_MAX] is 2^31 - 1.  The sine is a stand-in (the identity); no
    statement below that is evaluated on this instance depends on it. *)
Definition counting_libc : LibC :=
  {| rng := nat;
     rand := fun n => (Z.of_nat (S n), S n);
     RAND_MAX := 2147483647;
     sin := fun x => x |}.

(** ** Vocabulary of the statements, dimensional engine

    Nothing here is part of the program: these are the predicates and
    projections the theorems of Part II are stated with, the loop
    invariants of their proofs, and the inputs they are evaluated on. *)

Module DimensionalDefs.

Import F64 Dimensional.

(** What a refresh is to leave alone in a cell: the active flag, the
    channel tag, the stored index and the polarity. *)
Definition node_frame (n : SparseNode) : bool * ColorChannel * TomographicIndex * float :=
  (active n, channel n, idx n, polarity n).

(** The cell [grid[n][ch]], if [n] is inside the grid. *)
Definition cell (grid : Grid) (n : nat) (ch : ColorChannel) : option SparseNode :=
  (fun row : Row => row ch) <$> grid !! n.

(** A row as [init_sparse_grid] writes it: the four cells active and the
    CYAN value the halved sum of the RED and GREEN values. *)
Definition written_row (row : Row) : Prop :=
  active (row RED) = true /\ active (row GREEN) = true
  /\ active (row BLUE) = true /\ active (row CYAN) = true
  /\ value (row CYAN) = div (add (value (row RED)) (value (row GREEN))) (of_Z 2).

(** How [linear_idx] moves in one iteration of the innermost loop of
    [init_sparse_grid], and through the three loops. *)
Definition next_idx (i j k linear_idx : Z) : Z :=
  if (Z.rem (i + j + k) SPARSE_FACTOR =? 0) && (linear_idx <? ACTIVE_SIZE)
  then linear_idx + 1 else linear_idx.

Definition idx_loops (linear_idx : Z) : Z :=
  fold_left (fun n i =>
    fold_left (fun n j =>
      fold_left (fun n k => next_idx i j k n) (seqZ 0 GRID_SIZE) n)
      (seqZ 0 GRID_SIZE) n)
    (seqZ 0 GRID_SIZE) linear_idx.

(** As the specification words the sparsity rule: the coordinate triples
    of the grid, and the test [(i+j+k) mod 4 == 0] that keeps one. *)
Definition triples : list (Z * Z * Z) :=
  i ← seqZ 0 GRID_SIZE; j ← seqZ 0 GRID_SIZE; k ← seqZ 0 GRID_SIZE; [(i, j, k)].

Definition kept (t : Z * Z * Z) : bool :=
  let '(i, j, k) := t in (i + j + k) mod SPARSE_FACTOR =? 0.

(** A zeroed cell. *)
Definition blank_cell : SparseNode :=
  {| value := zero; channel := RED; active := false;
     idx := {| i := 0; j := 0; k := 0; permutations := replicate 6 (0, 0, 0) |};
     deriv := {| dvalue := zero; order := 0; trace := replicate 5 zero;
                 terminated := false |};
     entropy := zero; polarity := zero |}.

(** Zeroed memory for the whole grid. *)
Definition blank_rows : Grid := replicate (Z.to_nat ACTIVE_SIZE) (fun _ => blank_cell).

(** The counter of a channel moves by one on an active cell of that
    channel and by nothing otherwise. *)
Definition hit (row : Row) (ch c : ColorChannel) : Z :=
  match ch, c with
  | RED, RED | GREEN, GREEN | BLUE, BLUE | CYAN, CYAN =>
      if active (row c) then 1 else 0
  | _, _ => 0
  end.

(** What a row adds to the counter of a channel. *)
Definition row_hit (grid : Grid) (ch : ColorChannel) (n : nat) : Z :=
  match active <$> cell grid n ch with Some true => 1 | _ => 0 end.

Section WithLibC.
Context {libc : LibC}.

(** Invariant of the loops over the memory [mem] the grid started from:
    the rows below [linear_idx] are written, the others are untouched. *)
Definition init_inv (mem : Grid) (st : InitState) : Prop :=
  let '(grid, linear_idx, _) := st in
  length grid = length mem
  /\ 0 <= linear_idx <= ACTIVE_SIZE
  /\ (forall p, (p < Z.to_nat linear_idx)%nat ->
        exists row, grid !! p = Some row /\ written_row row)
  /\ (forall p, (Z.to_nat linear_idx <= p)%nat -> grid !! p = mem !! p).

End WithLibC.

End DimensionalDefs.

(** ** Vocabulary of the statements, minimal engine *)

Module MinimalDefs.

Import Minimal.

(** The six orderings ijk, jik, ikj, jki, kij, kji of the current triple
    of an index. *)
Definition canonical_orderings (idx : TomographicIndex) : list (Z * Z * Z) :=
  permutations (init_tomographic_index (i idx) (j idx) (k idx)).

(** Coordinates inside the range [0, 10) the handler reduces into. *)
Definition in_range (idx : TomographicIndex) : Prop :=
  0 <= i idx < 10 /\ 0 <= j idx < 10 /\ 0 <= k idx < 10.

(** Cells to run the combiner on. *)
Definition sample_vector : GovernanceVector :=
  {| attack_risk := F32.zero; rollback_cost := F32.zero; stability_impact := F32.zero |}.

(** An inactive primary cell, an active verification cell, and what the
    derived slot may hold before the call. *)
Definition primary_off : SparseNode :=
  {| value := 9; active := false; vector := sample_vector;
     channel := RED_CHANNEL; polarity := 1 |}.

Definition verification_on : SparseNode :=
  {| value := 5; active := true; vector := sample_vector;
     channel := GREEN_CHANNEL; polarity := -1 |}.

Definition derived_before : SparseNode :=
  {| value := 7; active := true; vector := sample_vector;
     channel := CYAN_CHANNEL; polarity := 0 |}.

Definition derived_before' : SparseNode :=
  {| value := 0; active := false; vector := sample_vector;
     channel := CYAN_CHANNEL; polarity := 0 |}.

(** A zeroed cell. *)
Definition blank_node : SparseNode :=
  {| value := 0; active := false; vector := gv_zero;
     channel := RED_CHANNEL; polarity := 0 |}.

(** Zeroed memory for a grid. *)
Definition blank_grid : TomographicGrid :=
  let cells := replicate (Z.to_nat ACTIVE_SIZE) blank_node in
  {| red := cells; green := cells; blue := cells; cyan := cells; active_count := 0 |}.

(** The grid [init_sparse_grid] builds in zeroed memory when [rand()]
    returns 1, 2, 3, ... *)
Definition sample_grid : TomographicGrid :=
  fst (@init_sparse_grid counting_libc blank_grid 0%nat).

(** A stored permutation whose linear index is computed without leaving
    [int]: non-negative entries with [i*100 + j*10 + k <= INT_MAX]. *)
Definition fits_int (p : Z * Z * Z) : Prop :=
  let '(a, b, c) := p in
  0 <= a /\ 0 <= b /\ 0 <= c /\ a * 100 + b * 10 + c <= CInt.INT_MAX.

(** A stored permutation of non-negative [int] entries. *)
Definition non_negative (p : Z * Z * Z) : Prop :=
  let '(a, b, c) := p in
  0 <= a <= CInt.INT_MAX /\ 0 <= b <= CInt.INT_MAX /\ 0 <= c <= CInt.INT_MAX.

(** As the specification words the aggregate: the component-wise mean of
    a list of governance vectors, here in [float] arithmetic, the sum
    taken from 0 in list order and divided by the number of vectors. *)
Definition gv_add (a b : GovernanceVector) : GovernanceVector :=
  {| attack_risk := F32.add (attack_risk a) (attack_risk b);
     rollback_cost := F32.add (rollback_cost a) (rollback_cost b);
     stability_impact := F32.add (stability_impact a) (stability_impact b) |}.

Definition gv_sum (vs : list GovernanceVector) : GovernanceVector :=
  fold_left gv_add vs gv_zero.

Definition gv_mean (vs : list GovernanceVector) : GovernanceVector :=
  let s := gv_sum vs in
  let n := F32.of_Z (Z.of_nat (length vs)) in
  {| attack_risk := F32.div (attack_risk s) n;
     rollback_cost := F32.div (rollback_cost s) n;
     stability_impact := F32.div (stability_impact s) n |}.

(** The risk vectors of the active cells of a channel, in slot order. *)
Definition active_vectors (cells : list SparseNode) : list GovernanceVector :=
  vector <$> filter (fun c => active c = true) cells.

(** What one cell adds to the running sum and count of the aggregate. *)
Definition risk_add (acc : GovernanceVector * Z) (r : SparseNode) : GovernanceVector * Z :=
  if active r then (gv_add (fst acc) (vector r), snd acc + 1) else acc.

(** Within 1e-9 of the mean, for a derived value [d] and the two values
    [p] and [v] it comes from. *)
Definition within_epsilon (d p v : Z) : Prop :=
  (Qabs (inject_Z d - (inject_Z p + inject_Z v) / 2) <= 1 / 1000000000)%Q.

(** The first [m] cells of an array hold values of [uint8_t]. *)
Definition byte_valued (cells : list SparseNode) (m : nat) : Prop :=
  forall p r, (p < m)%nat -> cells !! p = Some r -> 0 <= value r < 256.

End MinimalDefs.

(** ** Vocabulary of the further properties *)

Module MoreDefs.

(** The three entries of a stored permutation, as a list. *)
Definition entries (t : Z * Z * Z) : list Z :=
  let '(a, b, c) := t in [a; b; c].

(** An event handled [n] times in a row. *)
Definition repeat_event (n : nat) (event : Minimal.TridentEvent)
    (grid : Minimal.TomographicGrid) (idx : Minimal.TomographicIndex)
  : Minimal.TomographicIndex :=
  Nat.iter n (Minimal.handle_trident_event event grid) idx.

(** The coordinate triples with all three coordinates in 0..9. *)
Definition digit_triples : list (Z * Z * Z) :=
  a ← seqZ 0 10; b ← seqZ 0 10; c ← seqZ 0 10; [(a, b, c)].

End MoreDefs.

(** ** Vocabulary of the further properties, minimal engine *)

Module MinimalMoreDefs.

Import Minimal.

(** The slots [init_sparse_grid] marks active: the multiples of
    [SPARSE_FACTOR]. *)
Definition marked (p : nat) : bool := Z.of_nat p mod SPARSE_FACTOR =? 0.

(** A cell of channel [tag] as the loop of [init_sparse_grid] leaves it at
    slot [p]: active on the marked slots, tagged, with the polarity of its
    channel, a byte as value and the risk vector [v] of the slot. *)
Definition initialised_cell (tag : DataChannel) (pol : Z) (p : nat)
    (v : GovernanceVector) (c : SparseNode) : Prop :=
  active c = marked p /\ channel c = tag /\ polarity c = pol
  /\ 0 <= value c < 256 /\ vector c = v.

(** The generator after [n] calls of [rand()]. *)
Definition draws {libc : LibC} (n : nat) (gen : rng) : rng :=
  Nat.iter n (fun g => snd (rand g)) gen.

(** The bytes one stored permutation adds to the packet: the red byte if
    the red cell of its slot is active, then the green byte if the green
    cell is. *)
Definition slot_bytes (grid : TomographicGrid) (t : Z * Z * Z) : list Z :=
  let '(a, b, c) := t in
  match read (red grid) (linear_index a b c), read (green grid) (linear_index a b c) with
  | Some r, Some g =>
      (if active r then [value r] else []) ++ (if active g then [value g] else [])
  | _, _ => []
  end.

End MinimalMoreDefs.

(** ** nsigii_minimal.c: the wave, the observer and the event loop of main *)

(** Conversions between the two floating-point formats and to integers. *)
Module Convert.

(** [float] to [double]: the same number, exactly. *)
Definition float_to_double (x : F32.float) : F64.float :=
  match x with
  | S754_finite s m e =>
      binary_normalize 53 1024 (if s then Z.neg m else Z.pos m) e s
  | _ => x
  end.

(** [double] to [float]: rounded to nearest even. *)
Definition double_to_float (x : F64.float) : F32.float :=
  match x with
  | S754_finite s m e =>
      binary_normalize 24 128 (if s then Z.neg m else Z.pos m) e s
  | _ => x
  end.

(** The integer part of a finite value, towards zero. *)
Definition truncate (x : spec_float) : option Z :=
  match x with
  | S754_zero _ => Some 0
  | S754_finite s m e =>
      let v := if 0 <=? e then Z.pos m * 2 ^ e else Z.pos m / 2 ^ (- e) in
      Some (if s then - v else v)
  | _ => None
  end.

(** The cast [(uint8_t)x] of a floating-point value: its integer part when
    that is a [uint8_t]; C leaves the other cases undefined. *)
Definition to_uint8 (x : spec_float) : option Z :=
  match truncate x with
  | Some z => if (0 <=? z) && (z <=? 255) then Some z else None
  | None => None
  end.

End Convert.

(** [sinf] of [math.h]. *)
Class LibM32 := { sinf : F32.float -> F32.float }.

Module MinimalMain.

Import F32 Minimal Convert.

Section WithSinf.
Context {libm : LibM32}.

(** The loop [for (n = 1; n <= harmonics; n += 2) result += sinf(n*x)/n]. *)
Fixpoint fourier_wave_loop (fuel : nat) (n harmonics : Z) (x result : float) : float :=
  match fuel with
  | O => result
  | S fuel' =>
      if n <=? harmonics
      then fourier_wave_loop fuel' (n + 2) harmonics x
             (add result (div (sinf (mul (of_Z n) x)) (of_Z n)))
      else result
  end.

(** [fourier_square_wave(x, harmonics)]: the sum is a [float]; the factor
    [4.0f / M_PI] and the product are computed in [double] and the result
    is rounded back to [float]. *)
Definition fourier_square_wave (x : float) (harmonics : Z) : float :=
  double_to_float
    (F64.mul (F64.div (float_to_double (of_Z 4)) M_PI)
             (float_to_double
                (fourier_wave_loop (Z.to_nat harmonics) 1 harmonics x zero))).

(** The array of a channel, and the grid with that array replaced. *)
Definition channel_cells (grid : TomographicGrid) (channel : DataChannel)
  : list SparseNode :=
  match channel with
  | RED_CHANNEL => red grid
  | GREEN_CHANNEL => green grid
  | BLUE_CHANNEL => blue grid
  | CYAN_CHANNEL => cyan grid
  end.

Definition set_channel_cells (grid : TomographicGrid) (channel : DataChannel)
    (cells : list SparseNode) : TomographicGrid :=
  match channel with
  | RED_CHANNEL =>
      {| red := cells; green := green grid; blue := blue grid; cyan := cyan grid;
         active_count := active_count grid |}
  | GREEN_CHANNEL =>
      {| red := red grid; green := cells; blue := blue grid; cyan := cyan grid;
         active_count := active_count grid |}
  | BLUE_CHANNEL =>
      {| red := red grid; green := green grid; blue := cells; cyan := cyan grid;
         active_count := active_count grid |}
  | CYAN_CHANNEL =>
      {| red := red grid; green := green grid; blue := blue grid; cyan := cells;
         active_count := active_count grid |}
  end.

Definition set_value (node : SparseNode) (v : Z) : SparseNode :=
  {| value := v; active := active node; vector := vector node;
     channel := channel node; polarity := polarity node |}.

(** [observer_consume(obs, channel)] on the grid and the index the
    observer points to and on its [observation_time]; [position] is never
    used.  [None] when the slot is outside the array or the cast to
    [uint8_t] is undefined. *)
Definition observer_consume (grid : TomographicGrid) (idx : TomographicIndex)
    (observation_time : float) (channel : DataChannel)
  : option (TomographicGrid * float) :=
  let linear_idx := linear_index (i idx) (j idx) (k idx) in
  match read (channel_cells grid channel) linear_idx with
  | None => None
  | Some node =>
      if active node then
        let wave := fourier_square_wave observation_time 5 in
        match to_uint8 (F64.fabs (float_to_double (mul wave (of_Z 127)))) with
        | Some byte =>
            Some (set_channel_cells grid channel
                    (<[Z.to_nat linear_idx := set_value node (CInt.u8 (Z.rem byte 256))]>
                       (channel_cells grid channel)),
                  add observation_time (dec 1 1))
        | None => None
        end
      else Some (grid, observation_time)
  end.

(** What the loop of [main] carries: the grid, the index, the observer's
    time, and the packets of the protocol cycles run so far. *)
Record MainState := {
  m_grid : TomographicGrid;
  m_idx : TomographicIndex;
  m_time : float;
  m_packets : list NsigiiPacket
}.

(** The four [observer_consume] calls after a protocol cycle. *)
Definition consume_all (grid : TomographicGrid) (idx : TomographicIndex)
    (observation_time : float) : option (TomographicGrid * float) :=
  match observer_consume grid idx observation_time RED_CHANNEL with
  | Some (grid, t) =>
      match observer_consume grid idx t GREEN_CHANNEL with
      | Some (grid, t) =>
          match observer_consume grid idx t BLUE_CHANNEL with
          | Some (grid, t) => observer_consume grid idx t CYAN_CHANNEL
          | None => None
          end
      | None => None
      end
  | None => None
  end.

(** The body of the event loop of [main]. *)
Definition main_step (st : option MainState) (event : TridentEvent)
  : option MainState :=
  match st with
  | None => None
  | Some st =>
      let idx := handle_trident_event event (m_grid st) (m_idx st) in
      match event with
      | EVENT_ENTER =>
          match nsigii_protocol_cycle (m_grid st) idx with
          | Some (packet, _, _) =>
              match consume_all (m_grid st) idx (m_time st) with
              | Some (grid, t) =>
                  Some {| m_grid := grid; m_idx := idx; m_time := t;
                          m_packets := m_packets st ++ [packet] |}
              | None => None
              end
          | None => None
          end
      | _ =>
          Some {| m_grid := m_grid st; m_idx := idx; m_time := m_time st;
                  m_packets := m_packets st |}
      end
  end.

(** The event loop of [main] on a list of events, from the grid that
    [init_sparse_grid] built, the index of the origin and the time 0. *)
Definition main_loop {libc : LibC} (events : list TridentEvent)
    (mem : TomographicGrid) (gen : rng) : option MainState :=
  fold_left main_step events
    (Some {| m_grid := fst (init_sparse_grid mem gen);
             m_idx := init_tomographic_index 0 0 0;
             m_time := zero;
             m_packets := [] |}).

(** The events of [main]. *)
Definition main_events : list TridentEvent :=
  [EVENT_START; EVENT_RIGHT; EVENT_UP; EVENT_ENTER;
   EVENT_LEFT; EVENT_DOWN; EVENT_BACK; EVENT_STOP].

End WithSinf.

(** A stand-in for [sinf] to run the observer on: the identity. *)
Definition identity_libm : LibM32 := {| sinf := fun x => x |}.

(** Two grids have the same cells active. *)
Definition same_active (g g' : TomographicGrid) : Prop :=
  active <$> red g' = active <$> red g
  /\ active <$> green g' = active <$> green g
  /\ active <$> blue g' = active <$> blue g
  /\ active <$> cyan g' = active <$> cyan g.

End MinimalMain.

(** Equality of channels and of events is decidable. *)
Module MinimalDecide.

Import Minimal.

#[global] Instance DataChannel_eq_dec : EqDecision DataChannel.
Proof. solve_decision. Defined.

#[global] Instance TridentEvent_eq_dec : EqDecision TridentEvent.
Proof. solve_decision. Defined.

End MinimalDecide.

(** ** Vocabulary of the properties of the event loop *)

Module MainDefs.

Import Minimal MinimalDefs MinimalMain MinimalDecide.

(** The packet of a cycle that sampled slot 0 of [grid] six times: twelve
    bytes, the byte of the red cell and the byte of the green cell of slot
    0 of that grid alternating, the length 12, and the entropy the cycle
    computes from those bytes. *)
Definition origin_packet (grid : TomographicGrid) (packet : NsigiiPacket) : Prop :=
  exists r g,
    red grid !! 0%nat = Some r /\ green grid !! 0%nat = Some g
    /\ data packet
       = [value r; value g; value r; value g; value r; value g;
          value r; value g; value r; value g; value r; value g]
    /\ plength packet = 12
    /\ pentropy packet = packet_entropy (data packet) 12.

(** The red and the green cell of slot 0 are active. *)
Definition origin_active (grid : TomographicGrid) : Prop :=
  active <$> red grid !! 0%nat = Some true
  /\ active <$> green grid !! 0%nat = Some true.

(** The number of Enter events in a list. *)
Definition enters (events : list TridentEvent) : nat :=
  length (filter (fun ev => ev = EVENT_ENTER) events).

(** What the loop of [main] keeps, relative to the grid [g0] it started
    from: the grid well formed with the cells of [g0] active and its
    counter, slot 0 active in red and green, the coordinates in 0..9 and
    the stored permutations those of (0,0,0). *)
Definition loop_invariant (g0 : TomographicGrid) (st : MainState) : Prop :=
  wf_grid (m_grid st) /\ in_range (m_idx st)
  /\ permutations (m_idx st) = replicate 6 (0, 0, 0)
  /\ same_active g0 (m_grid st) /\ origin_active g0
  /\ active_count (m_grid st) = active_count g0.

End MainDefs.

(** ** nsigii_dimensional.c: the matrices and the permutation check *)

Module DimensionalMain.

Import F64 Dimensional.

(** [Matrix2x2]: the field [dRC] is [data[R][C]]. *)
Record Matrix2x2 := {
  d00 : float; d01 : float;
  d10 : float; d11 : float
}.

Definition matrix_multiply (a b : Matrix2x2) : Matrix2x2 :=
  {| d00 := add (mul (d00 a) (d00 b)) (mul (d01 a) (d10 b));
     d01 := add (mul (d00 a) (d01 b)) (mul (d01 a) (d11 b));
     d10 := add (mul (d10 a) (d00 b)) (mul (d11 a) (d10 b));
     d11 := add (mul (d10 a) (d01 b)) (mul (d11 a) (d11 b)) |}.

Definition matrix_transpose (m : Matrix2x2) : Matrix2x2 :=
  {| d00 := d00 m; d01 := d10 m;
     d10 := d01 m; d11 := d11 m |}.

Definition matrix_determinant (m : Matrix2x2) : float :=
  sub (mul (d00 m) (d11 m)) (mul (d01 m) (d10 m)).

(** [(a * 100 + b * 10 + c) % ACTIVE_SIZE] on [int]. *)
Definition linear_row (a b c : Z) : Z :=
  Z.rem (CInt.wrap (CInt.wrap (CInt.wrap (a * 100) + CInt.wrap (b * 10)) + c))
        ACTIVE_SIZE.

(** One iteration of the loop of [tomographic_verification], for the
    permutation number [p]: the stored permutation it prints, the row
    number [linear] it computes from it and the RED value it reads in that
    row; [None] when a row number is outside the grid. *)
Definition tomographic_sample (grid : Grid) (p : nat)
  : option ((Z * Z * Z) * Z * float) :=
  let sample_idx := ACTIVE_SIZE `quot` 2 in
  match Minimal.read grid sample_idx with
  | Some sample =>
      match permutations (idx (sample RED)) !! p with
      | Some (a, b, c) =>
          let linear := linear_row a b c in
          match Minimal.read grid linear with
          | Some row => Some ((a, b, c), linear, value (row RED))
          | None => None
          end
      | None => None
      end
  | None => None
  end.

(** [tomographic_verification(grid)]: what its six iterations print. *)
Definition tomographic_verification (grid : Grid)
  : list (option ((Z * Z * Z) * Z * float)) :=
  tomographic_sample grid <$> seq 0 6.

Section WithLibC.
Context {libc : LibC}.

(** Verification cycles run one after the other, for the given cycle
    numbers ([main] runs the cycles 0, 1, 2). *)
Definition cycle_step (st : Grid * rng) (cycle : Z) : Grid * rng :=
  let r := nsigii_verification_cycle (fst st) cycle (snd st) in
  (fst r, gen_of (snd r)).

Definition run_cycle_list (cycles : list Z) (grid : Grid) (gen : rng) : Grid * rng :=
  fold_left cycle_step cycles (grid, gen).

End WithLibC.

End DimensionalMain.

(** ** Vocabulary of the further properties, dimensional engine *)

Module DimensionalMoreDefs.

Import F64 Dimensional DimensionalDefs.

(** The sparsity test as the code writes it, with the truncating
    remainder. *)
Definition selected (t : Z * Z * Z) : bool :=
  let '(i, j, k) := t in Z.rem (i + j + k) SPARSE_FACTOR =? 0.

(** The triples the sparsity test keeps, in the order the three loops
    visit them. *)
Definition kept_triples : list (Z * Z * Z) :=
  filter (fun t => kept t = true) triples.

#[global] Instance ColorChannel_eq_dec : EqDecision ColorChannel.
Proof. solve_decision. Defined.

(** The phase [cycle * 0.1 + n * 0.01] of row [n] in a cycle. *)
Definition phase (cycle : Z) (n : nat) : float :=
  add (mul (of_Z cycle) (dec 1 1)) (mul (of_Z (Z.of_nat n)) (dec 1 2)).

(** The number of active cells of a grid, all channels together. *)
Definition count_all_active (grid : Grid) : nat :=
  (count_active RED grid + count_active GREEN grid
   + count_active BLUE grid + count_active CYAN grid)%nat.

(** The number of active cells of [row] in the channels of [chs] that come
    before [ch]. *)
Fixpoint lit_before (row : Row) (chs : list ColorChannel) (ch : ColorChannel) : nat :=
  match chs with
  | [] => 0
  | c :: chs' =>
      if decide (c = ch) then 0%nat
      else ((if active (row c) then 1 else 0) + lit_before row chs' ch)%nat
  end.

(** The number of active cells the two loops of a cycle visit before the
    cell [grid[n][ch]]: those of the rows below [n], and those of row [n]
    in the channels before [ch]. *)
Definition active_before (grid : Grid) (n : nat) (ch : ColorChannel) : nat :=
  (count_all_active (take n grid)
   + match grid !! n with
     | Some row => lit_before row channels ch
     | None => 0
     end)%nat.

(** A zeroed cell with the active flag set, and a grid of such cells. *)
Definition lit_cell : SparseNode :=
  {| value := zero; channel := RED; active := true;
     idx := {| i := 0; j := 0; k := 0; permutations := replicate 6 (0, 0, 0) |};
     deriv := {| dvalue := zero; order := 0; trace := replicate 5 zero;
                 terminated := false |};
     entropy := zero; polarity := zero |}.

Definition lit_rows : Grid := replicate (Z.to_nat ACTIVE_SIZE) (fun _ => lit_cell).

Section WithLibC.
Context {libc : LibC}.

(** The value the call number [n] of [rand()] returns, counting from 0. *)
Definition nth_rand (n : nat) (gen : rng) : Z :=
  fst (rand (MinimalMoreDefs.draws n gen)).

(** The body of the loops of [init_sparse_grid] at a triple. *)
Definition visit (st : InitState) (t : Z * Z * Z) : InitState :=
  let '(i, j, k) := t in init_body i j k st.

(** The entropy a cycle stores for the wave value [v] when [rand()]
    returned [x]: [0.5 + fabs(v) * 0.3 + ((double)x / RAND_MAX * 0.1 - 0.05)]. *)
Definition cycle_entropy (v : float) (x : Z) : float :=
  add (add (dec 5 1) (mul (fabs v) (dec 3 1)))
      (sub (mul (div (of_Z x) (of_Z RAND_MAX)) (dec 1 1)) (dec 5 2)).

(** The wave value a cycle stores in the active cells of row [n]. *)
Definition wave (cycle : Z) (n : nat) : float :=
  fourier_square (phase cycle n) (HARMONICS + Z.rem cycle 5).

(** How a cycle changes the cell [c] of row [n] into [c'] when the
    generator is [g] as the loops reach the cell: an idle cell is left as
    it was; an active cell receives the wave value of its row, the
    derivative trace of that value at the phase, and the entropy computed
    from the wave value and the value [rand()] returns on [g]; flag, tag,
    index and polarity stay. *)
Definition cycled (cycle : Z) (n : nat) (g : rng) (c c' : SparseNode) : Prop :=
  node_frame c' = node_frame c
  /\ if active c
     then value c' = wave cycle n
          /\ deriv c' = trace_derivative (wave cycle n) (phase cycle n)
          /\ entropy c' = cycle_entropy (wave cycle n) (fst (rand g))
     else c' = c.

(** The sum of the four counters of a cycle. *)
Definition counted (stats : CycleStats) : Z :=
  active_count stats RED + active_count stats GREEN
  + active_count stats BLUE + active_count stats CYAN.

End WithLibC.

(** What one iteration of [tomographic_verification] yields for the
    stored permutation [t]: the permutation, its row number and the RED
    value of that row. *)
Definition read_at (grid : Grid) (t : Z * Z * Z) (linear : Z)
  : option ((Z * Z * Z) * Z * float) :=
  (fun row : Row => (t, linear, value (row RED))) <$> grid !! Z.to_nat linear.

Definition sampled (grid : Grid) (t : Z * Z * Z)
  : option ((Z * Z * Z) * Z * float) :=
  let '(a, b, c) := t in read_at grid t (DimensionalMain.linear_row a b c).

#[global] Instance spec_float_eq_dec : EqDecision spec_float.
Proof. solve_decision. Defined.

(** Two doubles are the same value: the same number, signed zero or
    infinity, bit for bit, or both a NaN.  The embedding has one NaN;
    which sign and payload a NaN result carries is not part of it, so
    nothing is said about them. *)
Definition same_value (x y : float) : Prop :=
  match x, y with
  | S754_nan, S754_nan => True
  | S754_nan, _ | _, S754_nan => False
  | _, _ => x = y
  end.

(** Two matrices hold the same values, entry by entry. *)
Definition same_matrix (a b : DimensionalMain.Matrix2x2) : Prop :=
  same_value (DimensionalMain.d00 a) (DimensionalMain.d00 b)
  /\ same_value (DimensionalMain.d01 a) (DimensionalMain.d01 b)
  /\ same_value (DimensionalMain.d10 a) (DimensionalMain.d10 b)
  /\ same_value (DimensionalMain.d11 a) (DimensionalMain.d11 b).

(** The reference polynomial and its derivatives, on integers. *)
Definition poly (t : Z) : Z := t ^ 3 + 2 * t ^ 2 + 3 * t + 4.
Definition poly' (t : Z) : Z := 3 * t ^ 2 + 4 * t + 3.
Definition poly'' (t : Z) : Z := 6 * t + 4.

(** The trace [trace_derivative] is to store at the integer time [t]:
    the polynomial and its four derivatives at [t]. *)
Definition exact_trace (t : Z) : list float :=
  [of_Z (poly t); of_Z (poly' t); of_Z (poly'' t); of_Z 6; zero].

Definition exact_at (t : Z) : bool :=
  bool_decide (trace (trace_derivative zero (of_Z t)) = exact_trace t).

End DimensionalMoreDefs.
(** ** nsigii_core: the service context, the schema and the trident *)

(** The core of the framework ([nsigii_core.h] and its implementation).
    A C string is the list of its characters before the terminating NUL;
    a pointer that may be [NULL] is an [option]; [calloc] either fails or
    returns zeroed memory, and whether it succeeds is an argument of the
    functions that call it.  [strncpy] and [snprintf] are those of
    [string.h] and [stdio.h]. *)
Module Core.

Import Ascii.
Import (notations) String.

Inductive ColorChannel :=
  | COLOR_RED | COLOR_GREEN | COLOR_BLUE | COLOR_CYAN
  | COLOR_YELLOW | COLOR_MAGENTA | COLOR_BLACK | COLOR_CONTRAST.

Inductive Polarity := POLARITY_POS | POLARITY_NEG | POLARITY_NEUTRAL.

Inductive AuxInstruction := AUX_NOSIGNAL | AUX_SIGNAL | AUX_START | AUX_STOP.

Inductive NoiseLevel := NOISE_HIGH | NOISE_LOW.

#[global] Instance CoreColor_eq_dec : EqDecision ColorChannel.
Proof. solve_decision. Defined.

Definition NSIGII_SUCCESS : Z := 0.
Definition NSIGII_ERROR_NULL_CTX : Z := -1.
Definition NSIGII_ERROR_NULL_INPUT : Z := -2.
Definition NSIGII_ERROR_INVALID : Z := -4.

(** [Trident]: the three versions it points to, each as the
    [sizeof(SemVerX)] bytes of its object, and the number of agreements. *)
Record Trident := {
  local : list Z;
  remote : list Z;
  archive : list Z;
  consensus : Z
}.

(** [CiscoTree] with its [root] NULL: the empty tree. *)
Record CiscoTree := {
  node_count : Z;
  balanced : bool
}.

(** [NSigiiContext], without the identity fields [phantom_id] and
    [verify_key] that no function of the file reads or writes. *)
Record NSigiiContext := {
  operation : list ascii;
  service : list ascii;
  stage : Z;
  aux : AuxInstruction;
  noise : NoiseLevel;
  active_colors : list ColorChannel;
  color_polarity : list Polarity;
  trident : option Trident;
  cisco : option CiscoTree
}.

(** [strncpy(dest, src, sizeof(dest) - 1)] into a zeroed array of 64
    characters: the string [dest] then holds. *)
Definition strncpy_63 (src : list ascii) : list ascii := take 63 src.

Definition nsigii_cisco_create (calloc_ok : bool) : option CiscoTree :=
  if calloc_ok then Some {| node_count := 0; balanced := true |} else None.

(** [nsigii_create_context(operation, service)]; [calloc_ctx] and
    [calloc_tree] tell whether the two allocations succeed.  The zeroed
    memory gives [COLOR_RED] and [POLARITY_NEUTRAL] (both 0) where nothing
    is assigned, and a NULL [trident]. *)
Definition nsigii_create_context (calloc_ctx calloc_tree : bool)
    (operation service : list ascii) : option NSigiiContext :=
  if calloc_ctx then
    Some {| operation := strncpy_63 operation;
            service := strncpy_63 service;
            stage := 0;
            aux := AUX_NOSIGNAL;
            noise := NOISE_LOW;
            active_colors := [COLOR_RED; COLOR_GREEN; COLOR_BLUE];
            color_polarity :=
              [POLARITY_POS; POLARITY_NEG; POLARITY_NEUTRAL; POLARITY_NEUTRAL;
               POLARITY_NEUTRAL; POLARITY_NEUTRAL; POLARITY_NEUTRAL; POLARITY_NEUTRAL];
            trident := None;
            cisco := nsigii_cisco_create calloc_tree |}
  else None.

(** The text [snprintf] formats for ["obinexus.%s.%s"]. *)
Definition schema_text (ctx : NSigiiContext) : list ascii :=
  String.list_ascii_of_string "obinexus." ++ operation ctx
  ++ String.list_ascii_of_string "." ++ service ctx.

(** [nsigii_generate_schema(ctx, schema_out, len)]: the code it returns
    and the string in [schema_out] afterwards ([schema_out] is the string
    the buffer held before, [None] for a NULL pointer).  [snprintf]
    returns the length of the whole text and stores its first [len - 1]
    characters when [len] is not 0. *)
Definition nsigii_generate_schema (ctx : option NSigiiContext)
    (schema_out : option (list ascii)) (len : Z) : Z * option (list ascii) :=
  match ctx, schema_out with
  | Some ctx, Some _ =>
      let written := Z.of_nat (length (schema_text ctx)) in
      let stored :=
        if 0 <? len then Some (take (Z.to_nat (len - 1)) (schema_text ctx))
        else schema_out in
      (if (0 <? written) && (written <? len) then NSIGII_SUCCESS
       else NSIGII_ERROR_INVALID,
       stored)
  | _, _ => (NSIGII_ERROR_NULL_INPUT, schema_out)
  end.

Definition set_aux (ctx : NSigiiContext) (a : AuxInstruction) (n : NoiseLevel)
  : NSigiiContext :=
  {| operation := operation ctx; service := service ctx; stage := stage ctx;
     aux := a; noise := n;
     active_colors := active_colors ctx; color_polarity := color_polarity ctx;
     trident := trident ctx; cisco := cisco ctx |}.

Definition nsigii_aux_start (ctx : option NSigiiContext) (noise : NoiseLevel)
  : Z * option NSigiiContext :=
  match ctx with
  | None => (NSIGII_ERROR_NULL_CTX, None)
  | Some ctx => (NSIGII_SUCCESS, Some (set_aux ctx AUX_START noise))
  end.

Definition nsigii_aux_stop (ctx : option NSigiiContext) : Z * option NSigiiContext :=
  match ctx with
  | None => (NSIGII_ERROR_NULL_CTX, None)
  | Some ctx => (NSIGII_SUCCESS, Some (set_aux ctx AUX_STOP (Core.noise ctx)))
  end.

Definition nsigii_verify_rgb_consensus (ctx : option NSigiiContext) : bool :=
  match ctx with
  | None => false
  | Some ctx =>
      let red_active := bool_decide (active_colors ctx !! 0%nat = Some COLOR_RED) in
      let green_active := bool_decide (active_colors ctx !! 1%nat = Some COLOR_GREEN) in
      if red_active && green_active then true else false
  end.

(** [memcmp(a, b, sizeof(SemVerX)) == 0] on the bytes of two objects. *)
Definition same_bytes (a b : list Z) : bool := bool_decide (a = b).

(** [nsigii_trident_init(local, remote, archive)]. *)
Definition nsigii_trident_init (calloc_ok : bool) (local remote archive : list Z)
  : option Trident :=
  if calloc_ok then
    let c := 0 in
    let c := if same_bytes local remote then c + 1 else c in
    let c := if same_bytes local archive then c + 1 else c in
    let c := if same_bytes remote archive then c + 1 else c in
    Some {| local := local; remote := remote; archive := archive; consensus := c |}
  else None.

Definition nsigii_trident_consensus (trident : option Trident) : bool :=
  match trident with
  | Some t => 2 <=? consensus t
  | None => false
  end.

(** A call of the AUX interface, and a sequence of calls on a context. *)
Inductive AuxCall := CallStart (noise : NoiseLevel) | CallStop.

Definition aux_call (ctx : option NSigiiContext) (call : AuxCall)
  : Z * option NSigiiContext :=
  match call with
  | CallStart noise => nsigii_aux_start ctx noise
  | CallStop => nsigii_aux_stop ctx
  end.

Definition aux_calls (calls : list AuxCall) (ctx : option NSigiiContext)
  : option NSigiiContext :=
  fold_left (fun ctx call => snd (aux_call ctx call)) calls ctx.

End Core.

(** ** nsigii_core: the index initialiser *)

Module CoreIndex.

(** [TomographicIndex] of the core: [permutations] is the 6 x 3 array, a
    list of rows. *)
Record TomographicIndex := {
  i : Z; j : Z; k : Z;
  permutations : list (list Z)
}.

(** [idx->permutations[p][d] = perms[p][d]]. *)
Definition copy_entry (perms dest : list (list Z)) (p d : nat) : list (list Z) :=
  match perms !! p with
  | Some row =>
      match row !! d with
      | Some v => alter (fun r => <[d := v]> r) p dest
      | None => dest
      end
  | None => dest
  end.

(** [nsigii_init_tomographic_index(idx, i, j, k)], on the index [*idx] as
    the memory holds it at the call: the local array [perms] is filled and
    then copied entry by entry by the two loops. *)
Definition nsigii_init_tomographic_index (idx : TomographicIndex) (i j k : Z)
  : TomographicIndex :=
  let perms :=
    [ [i; j; k]; [j; i; k]; [i; k; j]; [j; k; i]; [k; i; j]; [k; j; i] ] in
  {| i := i; j := j; k := k;
     permutations :=
       fold_left
         (fun dest p => fold_left (fun dest d => copy_entry perms dest p d) (seq 0 3) dest)
         (seq 0 6) (permutations idx) |}.

(** The type invariant of the array: 6 rows of 3 entries. *)
Definition six_by_three (a : list (list Z)) : Prop :=
  length a = 6%nat /\ Forall (fun row => length row = 3%nat) a.

End CoreIndex.

(** ** Vocabulary of the derived-channel invariant *)

Module DerivedDefs.

(** As the specification words the invariant on the flags: at a slot, the
    derived (cyan) cell is active exactly when the primary (red) and the
    verification (green) cell both are.  For the minimal engine, on the
    three arrays of a grid; for the dimensional engine, on a row. *)
Definition derived_flags (grid : Minimal.TomographicGrid) : Prop :=
  forall p r g c,
    Minimal.red grid !! p = Some r -> Minimal.green grid !! p = Some g ->
    Minimal.cyan grid !! p = Some c ->
    Minimal.active c = Minimal.active r && Minimal.active g.

Definition row_flags (row : Dimensional.Row) : Prop :=
  Dimensional.active (row Dimensional.CYAN)
  = Dimensional.active (row Dimensional.RED)
    && Dimensional.active (row Dimensional.GREEN).

(** The cyan cells that [init_sparse_grid] of the minimal engine never
    writes, those of the slots that are not multiples of 4, are inactive
    in the memory the grid occupies. *)
Definition idle_cyan (mem : Minimal.TomographicGrid) : Prop :=
  forall p c,
    Minimal.cyan mem !! p = Some c -> MinimalMoreDefs.marked p = false ->
    Minimal.active c = false.

End DerivedDefs.

(** * Part II: the properties *)

(** Names the results of the calls of [rand()] that the goal makes, in
    the order of the calls. *)
Ltac draw_rand :=
  repeat match goal with
         | |- context [rand ?gen] =>
             let x := fresh "x" in
             let gen' := fresh "gen" in
             destruct (rand gen) as [x gen']
         end.

(** ** C integers *)

Module CIntFacts.

Import CInt.

Lemma wrap_id z : in_int z -> wrap z = z.
Proof.
  unfold in_int, INT_MIN, INT_MAX, wrap. intros H.
  rewrite Z.mod_small; lia.
Qed.

Lemma u8_range z : 0 <= u8 z < 256.
Proof. unfold u8. apply Z.mod_pos_bound. lia. Qed.

Lemma u8_id z : 0 <= z < 256 -> u8 z = z.
Proof. unfold u8. intros. apply Z.mod_small. lia. Qed.

End CIntFacts.

(** ** The derivative tracer *)

Module TracerSpec.

Import F64 Dimensional.

(** C2, as the code computes it.  With the coefficients (4,3,2,1), that is
    f(t) = t^3 + 2t^2 + 3t + 4, the call [trace_derivative(&n, 1.0, 2.0)]
    fills the trace with f(2) = 26, f'(2) = 3*4 + 4*2 + 3 = 23,
    f''(2) = 6*2 + 4 = 16, f'''(2) = 6 and f''''(2) = 0, and sets
    [terminated]. *)
Theorem trace_derivative_reference :
  let n := trace_derivative (of_Z 1) (of_Z 2) in
  trace n = [of_Z 26; of_Z 23; of_Z 16; of_Z 6; zero]
  /\ to_Q <$> trace n = [Some 26%Q; Some 23%Q; Some 16%Q; Some 6%Q; Some 0%Q]
  /\ terminated n = true.
Proof. vm_compute. auto. Qed.

(** C2, as the specification words it, fails: the trace of
    [trace_derivative(&n, 1.0, 2.0)] is not 26, 17, 10, 6, 0; its second
    and third entries are 23 and 16. *)
Lemma trace_derivative_reference_not_17_10 :
  let n := trace_derivative (of_Z 1) (of_Z 2) in
  to_Q <$> trace n <> [Some 26%Q; Some 17%Q; Some 10%Q; Some 6%Q; Some 0%Q]
  /\ to_Q <$> trace n !! 1%nat = Some (Some 23%Q)
  /\ to_Q <$> trace n !! 2%nat = Some (Some 16%Q).
Proof. vm_compute. repeat split. discriminate. Qed.

(** C10.  Whatever the initial value and the time (finite or not), the
    tracer stores 0 in [trace[4]] of a five-entry trace, sets [order] to 4
    and [terminated] to true, and no entry of the trace depends on the
    initial value. *)
Theorem trace_derivative_constant_flags (initial initial' time : float) :
  trace (trace_derivative initial time) !! 4%nat = Some zero
  /\ length (trace (trace_derivative initial time)) = 5%nat
  /\ order (trace_derivative initial time) = 4
  /\ terminated (trace_derivative initial time) = true
  /\ trace (trace_derivative initial time) = trace (trace_derivative initial' time).
Proof. repeat split. Qed.

End TracerSpec.

(** ** Navigation *)

Module NavigationSpec.

Import Minimal MinimalDefs.

(** No event writes [idx->permutations]. *)
Lemma handle_trident_event_permutations ev grid idx :
  permutations (handle_trident_event ev grid idx) = permutations idx.
Proof. by destruct ev. Qed.

Lemma handle_events_permutations evs grid idx :
  permutations (handle_events evs grid idx) = permutations idx.
Proof.
  revert idx. induction evs as [|ev evs IH]; intros idx; [done|].
  cbn. unfold handle_events in IH. rewrite IH.
  apply handle_trident_event_permutations.
Qed.

(** The cycle reads the stored permutations of the index, never its
    triple. *)
Lemma protocol_cycle_reads_permutations grid idx idx' :
  permutations idx = permutations idx' ->
  nsigii_protocol_cycle grid idx = nsigii_protocol_cycle grid idx'.
Proof.
  intros Hperm. unfold nsigii_protocol_cycle, encode.
  assert (Hstep : forall acc p, encode_step grid idx acc p = encode_step grid idx' acc p)
    by (intros acc p; unfold encode_step; by rewrite Hperm).
  assert (Hfold : forall ps acc,
            fold_left (encode_step grid idx) ps acc
            = fold_left (encode_step grid idx') ps acc).
  { induction ps as [|p ps IH]; intros acc; [reflexivity|].
    cbn [fold_left]. by rewrite Hstep, IH. }
  by rewrite Hfold.
Qed.

(** C1, on the code.  After [init_tomographic_index(&idx, 0, 0, 0)] and
    one [EVENT_RIGHT], the triple is (0,1,0) but the six stored
    permutations are still those of (0,0,0): the event handler moves the
    triple and leaves [permutations] as it was, so they are not the
    orderings of the current triple.  It is so in [main]: after Start,
    Right, Up, Enter the triple is (1,1,0), the permutations are those of
    (0,0,0), and the protocol cycle that follows is the cycle of the
    origin. *)
Theorem navigation_leaves_permutations_stale (grid : TomographicGrid) :
  let origin := init_tomographic_index 0 0 0 in
  let idx := handle_trident_event EVENT_RIGHT grid origin in
  let idx_main :=
    handle_events [EVENT_START; EVENT_RIGHT; EVENT_UP; EVENT_ENTER] grid origin in
  (i idx, j idx, k idx) = (0, 1, 0)
  /\ permutations idx = replicate 6 (0, 0, 0)
  /\ canonical_orderings idx
     = [(0, 1, 0); (1, 0, 0); (0, 0, 1); (1, 0, 0); (0, 0, 1); (0, 1, 0)]
  /\ permutations idx <> canonical_orderings idx
  /\ (i idx_main, j idx_main, k idx_main) = (1, 1, 0)
  /\ permutations idx_main = replicate 6 (0, 0, 0)
  /\ permutations idx_main <> canonical_orderings idx_main
  /\ nsigii_protocol_cycle grid idx_main = nsigii_protocol_cycle grid origin.
Proof.
  intros origin idx idx_main.
  split; [by vm_compute|]. split; [by vm_compute|]. split; [by vm_compute|].
  split; [by vm_compute|]. split; [by vm_compute|]. split; [by vm_compute|].
  split; [by vm_compute|].
  apply protocol_cycle_reads_permutations.
  apply handle_events_permutations.
Qed.

Lemma handle_trident_event_in_range ev grid idx :
  in_range idx -> in_range (handle_trident_event ev grid idx).
Proof.
  unfold in_range. intros (Hi & Hj & Hk).
  destruct ev; cbn; repeat split; try lia;
    rewrite ?CIntFacts.wrap_id;
    rewrite ?CIntFacts.wrap_id;
    try (unfold CInt.in_int, CInt.INT_MIN, CInt.INT_MAX; lia);
    try (apply Z.rem_nonneg; lia);
    try (apply Z.rem_bound_pos_pos; lia).
Qed.

(** C8.  Every event is handled (the handler is a total function); from
    (0,0,0) the events Right, Right, Left leave j = 1; Down at i = 0 leaves
    i = 9; and in general an index with coordinates in 0..9 moves to the
    coordinate one up or one down modulo 10, so no coordinate becomes
    negative or leaves 0..9. *)
Theorem navigation_wraps (grid : TomographicGrid) :
  j (handle_events [EVENT_RIGHT; EVENT_RIGHT; EVENT_LEFT] grid
       (init_tomographic_index 0 0 0)) = 1
  /\ (forall idx, i idx = 0 -> i (handle_trident_event EVENT_DOWN grid idx) = 9)
  /\ (forall ev idx, in_range idx ->
        in_range (handle_trident_event ev grid idx)
        /\ i (handle_trident_event EVENT_UP grid idx) = (i idx + 1) mod 10
        /\ i (handle_trident_event EVENT_DOWN grid idx) = (i idx - 1) mod 10
        /\ j (handle_trident_event EVENT_LEFT grid idx) = (j idx - 1) mod 10
        /\ j (handle_trident_event EVENT_RIGHT grid idx) = (j idx + 1) mod 10
        /\ k (handle_trident_event EVENT_BACK grid idx) = (k idx - 1) mod 10).
Proof.
  split; [by vm_compute|]. split.
  - intros idx H. cbn. rewrite H. by vm_compute.
  - intros ev idx Hr. split; [by apply handle_trident_event_in_range|].
    destruct Hr as (Hi & Hj & Hk). cbn.
    rewrite !CIntFacts.wrap_id
      by (unfold CInt.in_int, CInt.INT_MIN, CInt.INT_MAX;
          rewrite ?CIntFacts.wrap_id;
          unfold CInt.in_int, CInt.INT_MIN, CInt.INT_MAX; lia).
    rewrite !Z.rem_mod_nonneg by lia.
    repeat split; try reflexivity.
    + replace (i idx - 1 + 10) with (i idx - 1 + 1 * 10) by lia.
      apply Z.mod_add; lia.
    + replace (j idx - 1 + 10) with (j idx - 1 + 1 * 10) by lia.
      apply Z.mod_add; lia.
    + replace (k idx - 1 + 10) with (k idx - 1 + 1 * 10) by lia.
      apply Z.mod_add; lia.
Qed.

(** The origin is in range, and Down from it wraps to 9. *)
Lemma navigation_wraps_witness :
  in_range (init_tomographic_index 0 0 0)
  /\ i (handle_trident_event EVENT_DOWN blank_grid (init_tomographic_index 0 0 0)) = 9
  /\ in_range (handle_trident_event EVENT_BACK blank_grid (init_tomographic_index 0 0 0)).
Proof.
  assert (Hr : in_range (init_tomographic_index 0 0 0))
    by (unfold in_range; cbn; lia).
  split; [exact Hr|]. split.
  - exact (proj1 (proj2 (navigation_wraps blank_grid))
             (init_tomographic_index 0 0 0) eq_refl).
  - exact (proj1 (proj2 (proj2 (navigation_wraps blank_grid))
                    EVENT_BACK (init_tomographic_index 0 0 0) Hr)).
Defined.

End NavigationSpec.

(** ** The channel combiner *)

Module CombinerSpec.

Import Minimal MinimalDefs.

Lemma combine_step_length red green cyan n :
  length (combine_step red green cyan n) = length cyan.
Proof.
  unfold combine_step.
  destruct (red !! n) as [r|]; [|done].
  destruct (green !! n) as [g|]; [|done].
  destruct (active r && active g); [|done].
  by rewrite length_insert.
Qed.

Lemma combine_channels_length cyan red green n :
  length (combine_channels cyan red green n) = length cyan.
Proof.
  unfold combine_channels. induction n as [|n IH]; [done|].
  by rewrite seq_S, fold_left_app; cbn; rewrite combine_step_length.
Qed.

(** The loop touches [cyan[p]] in iteration [p] only. *)
Lemma combine_channels_lookup cyan red green n p :
  combine_channels cyan red green n !! p
  = if decide (p < n)%nat then combine_step red green cyan p !! p else cyan !! p.
Proof.
  induction n as [|n IH].
  - by destruct (decide (p < 0)%nat); [lia|].
  - unfold combine_channels in *. rewrite seq_S, fold_left_app. cbn.
    set (prev := fold_left (combine_step red green) (seq 0 n) cyan) in *.
    assert (Hlen : length prev = length cyan)
      by apply (combine_channels_length cyan red green n).
    destruct (decide (p = n)) as [->|Hne].
    + destruct (decide (n < n)%nat) as [|_]; [lia|].
      destruct (decide (n < S n)%nat) as [_|]; [|lia].
      unfold combine_step.
      destruct (red !! n) as [r|]; [|done].
      destruct (green !! n) as [g|]; [|done].
      destruct (active r && active g); [|done].
      destruct (decide (n < length cyan)%nat).
      * by rewrite !list_lookup_insert_eq by lia.
      * by rewrite !list_insert_ge by lia.
    + assert (Hstep : combine_step red green prev n !! p = prev !! p).
      { unfold combine_step.
        destruct (red !! n) as [r|]; [|done].
        destruct (green !! n) as [g|]; [|done].
        destruct (active r && active g); [|done].
        by rewrite list_lookup_insert_ne. }
      rewrite Hstep, IH.
      destruct (decide (p < n)%nat), (decide (p < S n)%nat); try done; lia.
Qed.

(** Where both inputs are active the combiner writes the combined cell. *)
Lemma combine_channels_consensus cyan red green n p r g :
  (p < n)%nat -> (p < length cyan)%nat ->
  red !! p = Some r -> green !! p = Some g ->
  active r = true -> active g = true ->
  combine_channels cyan red green n !! p = Some (combined r g).
Proof.
  intros Hn Hlen Hr Hg Har Hag. rewrite combine_channels_lookup.
  destruct (decide (p < n)%nat); [|lia].
  unfold combine_step. rewrite Hr, Hg, Har, Hag. cbn.
  by apply list_lookup_insert_eq.
Qed.

(** Where an input is inactive the combiner writes nothing. *)
Lemma combine_channels_no_consensus cyan red green n p r g :
  red !! p = Some r -> green !! p = Some g ->
  active r && active g = false ->
  combine_channels cyan red green n !! p = cyan !! p.
Proof.
  intros Hr Hg Hoff. rewrite combine_channels_lookup.
  destruct (decide (p < n)%nat); [|done].
  unfold combine_step. by rewrite Hr, Hg, Hoff.
Qed.

(** C5, on the code.  With an inactive primary cell, [combine_channels]
    leaves the derived cell as it found it: a derived cell that held an
    active 7 is still an active 7, not an inactive zero, and two calls on
    the same two input cells end in different derived cells, so the result
    is not a function of the two inputs alone. *)
Theorem combine_channels_keeps_stale_cell :
  combine_channels [derived_before] [primary_off] [verification_on] 1
    = [derived_before]
  /\ active derived_before = true
  /\ value derived_before = 7
  /\ combine_channels [derived_before'] [primary_off] [verification_on] 1
     <> combine_channels [derived_before] [primary_off] [verification_on] 1.
Proof. vm_compute. repeat split. discriminate. Qed.

End CombinerSpec.

(** ** The protocol cycle *)

Module ProtocolSpec.

Import Minimal MinimalDefs.

Lemma linear_index_in_bounds a b c :
  fits_int (a, b, c) -> 0 <= linear_index a b c < ACTIVE_SIZE.
Proof.
  unfold fits_int, linear_index, CInt.INT_MAX. intros (Ha & Hb & Hc & Hsum).
  assert (Hin : forall z, 0 <= z <= 2 ^ 31 - 1 -> CInt.in_int z)
    by (unfold CInt.in_int, CInt.INT_MIN, CInt.INT_MAX; lia).
  rewrite (CIntFacts.wrap_id (a * 100)) by (apply Hin; lia).
  rewrite (CIntFacts.wrap_id (b * 10)) by (apply Hin; lia).
  rewrite (CIntFacts.wrap_id (a * 100 + b * 10)) by (apply Hin; lia).
  rewrite (CIntFacts.wrap_id (a * 100 + b * 10 + c)) by (apply Hin; lia).
  change ACTIVE_SIZE with 256.
  split; [apply Z.rem_nonneg; lia | apply Z.rem_bound_pos_pos; lia].
Qed.

Lemma read_in_bounds {A} (a : list A) z :
  0 <= z < Z.of_nat (length a) -> is_Some (read a z).
Proof.
  intros Hz. unfold read.
  destruct (Z.ltb_spec z 0); [lia|].
  apply lookup_lt_is_Some_2. lia.
Qed.

Lemma push_ok bytes v :
  Z.of_nat (length bytes) < PACKET_CAPACITY ->
  push (bytes, Z.of_nat (length bytes)) v
  = Some (bytes ++ [v], Z.of_nat (length (bytes ++ [v]))).
Proof.
  intros Hlen. unfold push.
  destruct (Z.leb_spec 0 (Z.of_nat (length bytes))); [|lia].
  destruct (Z.ltb_spec (Z.of_nat (length bytes)) PACKET_CAPACITY); [|lia].
  rewrite length_app, Nat2Z.inj_add. reflexivity.
Qed.

(** The body of the encoding loop, spelled out. *)
Lemma encode_step_eq grid idx pkt p a b c r g :
  permutations idx !! p = Some (a, b, c) ->
  read (red grid) (linear_index a b c) = Some r ->
  read (green grid) (linear_index a b c) = Some g ->
  encode_step grid idx (Some pkt) p
  = match (if active r then push pkt (value r) else Some pkt) with
    | Some pkt' => if active g then push pkt' (value g) else Some pkt'
    | None => None
    end.
Proof.
  intros Hperm Hr Hg. unfold encode_step. rewrite Hperm, Hr.
  destruct (if active r then push pkt (value r) else Some pkt) as [pkt'|];
    [|reflexivity].
  by rewrite Hg.
Qed.

(** One permutation adds at most two bytes. *)
Lemma encode_step_ok grid idx bytes p :
  wf_grid grid ->
  Forall fits_int (permutations idx) ->
  (p < length (permutations idx))%nat ->
  Z.of_nat (length bytes) + 2 <= PACKET_CAPACITY ->
  exists bytes',
    encode_step grid idx (Some (bytes, Z.of_nat (length bytes))) p
    = Some (bytes', Z.of_nat (length bytes'))
    /\ Z.of_nat (length bytes') <= Z.of_nat (length bytes) + 2.
Proof.
  intros (Hred & Hgreen & _) Hfit Hp Hroom.
  destruct (lookup_lt_is_Some_2 _ _ Hp) as [[[a b] c] Hperm].
  pose proof (linear_index_in_bounds a b c) as Hlin.
  rewrite Forall_lookup in Hfit. specialize (Hlin (Hfit _ _ Hperm)).
  destruct (read_in_bounds (red grid) (linear_index a b c)) as [r Hr];
    [rewrite Hred, Z2Nat.id by done; exact Hlin|].
  destruct (read_in_bounds (green grid) (linear_index a b c)) as [g Hg];
    [rewrite Hgreen, Z2Nat.id by done; exact Hlin|].
  rewrite (encode_step_eq _ _ _ _ _ _ _ _ _ Hperm Hr Hg).
  destruct (active r), (active g).
  - rewrite push_ok by lia. rewrite push_ok by (rewrite length_app, Nat2Z.inj_add; cbn [length]; lia).
    eexists; split; [reflexivity|]. rewrite !length_app. cbn [length]. lia.
  - rewrite push_ok by lia.
    eexists; split; [reflexivity|]. rewrite !length_app. cbn [length]. lia.
  - rewrite push_ok by lia.
    eexists; split; [reflexivity|]. rewrite !length_app. cbn [length]. lia.
  - eexists; split; [reflexivity|]. lia.
Qed.

Lemma encode_fold_ok grid idx ps : forall bytes,
  wf_grid grid ->
  Forall fits_int (permutations idx) ->
  Forall (fun p => p < length (permutations idx))%nat ps ->
  Z.of_nat (length bytes) + 2 * Z.of_nat (length ps) <= PACKET_CAPACITY ->
  exists bytes',
    fold_left (encode_step grid idx) ps (Some (bytes, Z.of_nat (length bytes)))
    = Some (bytes', Z.of_nat (length bytes'))
    /\ Z.of_nat (length bytes') <= Z.of_nat (length bytes) + 2 * Z.of_nat (length ps).
Proof.
  induction ps as [|p ps IH]; intros bytes Hwf Hfit Hps Hroom.
  - exists bytes. split; [reflexivity|lia].
  - apply Forall_cons in Hps as [Hp Hps]. cbn [length] in Hroom.
    destruct (encode_step_ok grid idx bytes p Hwf Hfit Hp) as (b1 & Hstep & Hlen1);
      [lia|].
    cbn [fold_left]. rewrite Hstep.
    destruct (IH b1 Hwf Hfit Hps) as (b2 & Hfold & Hlen2); [lia|].
    exists b2. split; [exact Hfold|]. cbn [length]. lia.
Qed.

(** C9, within the range of [int].  For a well-formed grid and an index
    whose six stored permutations have non-negative entries with
    [i*100 + j*10 + k] not above [INT_MAX], every linear index lies in
    [0, ACTIVE_SIZE), the cycle completes, and its packet holds at most 12
    bytes, so every write to the 256-byte buffer and every grid access is
    in bounds. *)
Theorem protocol_cycle_in_bounds (grid : TomographicGrid) (idx : TomographicIndex) :
  wf_grid grid ->
  length (permutations idx) = 6%nat ->
  Forall fits_int (permutations idx) ->
  Forall (fun '(a, b, c) => 0 <= linear_index a b c < ACTIVE_SIZE) (permutations idx)
  /\ exists packet avg verdict,
       nsigii_protocol_cycle grid idx = Some (packet, avg, verdict)
       /\ plength packet = Z.of_nat (length (data packet))
       /\ 0 <= plength packet <= 12
       /\ plength packet <= PACKET_CAPACITY.
Proof.
  intros Hwf Hsix Hfit. split.
  - eapply Forall_impl; [exact Hfit|]. intros [[a b] c]. apply linear_index_in_bounds.
  - destruct (encode_fold_ok grid idx (seq 0 6) [] Hwf Hfit) as (bytes & Henc & Hlen).
    + rewrite Hsix. apply Forall_forall. intros p Hp%elem_of_seq. lia.
    + rewrite length_seq. cbn [length]. unfold PACKET_CAPACITY. lia.
    + rewrite length_seq in Hlen. cbn [length] in Henc, Hlen.
      unfold nsigii_protocol_cycle, encode.
      change (Z.of_nat 0) with 0 in Henc. rewrite Henc.
      do 3 eexists. split; [reflexivity|]. cbn [plength data].
      unfold PACKET_CAPACITY. lia.
Qed.

(** The sample grid at the origin meets the hypotheses. *)
Lemma protocol_cycle_in_bounds_witness :
  wf_grid sample_grid
  /\ exists packet avg verdict,
       nsigii_protocol_cycle sample_grid (init_tomographic_index 0 0 0)
       = Some (packet, avg, verdict)
       /\ 0 <= plength packet <= 12.
Proof.
  assert (Hwf : wf_grid sample_grid) by (by vm_compute).
  assert (Hfit : Forall fits_int (permutations (init_tomographic_index 0 0 0))).
  { unfold init_tomographic_index, fits_int, CInt.INT_MAX. cbn.
    repeat (apply Forall_cons; split; [lia|]). apply Forall_nil_2. }
  split; [exact Hwf|].
  destruct (proj2 (protocol_cycle_in_bounds sample_grid (init_tomographic_index 0 0 0)
                     Hwf eq_refl Hfit))
    as (packet & avg & verdict & Hcycle & _ & Hlen & _).
  exists packet, avg, verdict. split; [exact Hcycle|exact Hlen].
Defined.

(** C9, as stated, fails: the stored permutations of (21474837, 0, 0) have
    non-negative entries, but [21474837 * 100] leaves [int]; the wrapped
    product is negative, the linear index is -204, and the cycle reads
    outside the grid. *)
Lemma protocol_cycle_out_of_bounds :
  let idx := init_tomographic_index 21474837 0 0 in
  wf_grid sample_grid
  /\ Forall non_negative (permutations idx)
  /\ linear_index 21474837 0 0 = -204
  /\ read (red sample_grid) (linear_index 21474837 0 0) = None
  /\ nsigii_protocol_cycle sample_grid idx = None.
Proof.
  intros idx. split; [|split; [|split; [|split]]].
  - by vm_compute.
  - unfold idx, init_tomographic_index, non_negative, CInt.INT_MAX. cbn.
    repeat (apply Forall_cons; split; [lia|]). apply Forall_nil_2.
  - by vm_compute.
  - by vm_compute.
  - by vm_compute.
Qed.

End ProtocolSpec.

(** ** The aggregate risk vector and the verdict *)

Module AggregateSpec.

Import Minimal MinimalDefs ProtocolSpec.

(** A loop over the indices of an array is a fold over the array. *)
Lemma fold_left_indices {A B} (f : B -> A -> B) (l2 : list A) : forall (l1 : list A) acc,
  fold_left (fun acc n => match (l1 ++ l2) !! n with Some x => f acc x | None => acc end)
            (seq (length l1) (length l2)) acc
  = fold_left f l2 acc.
Proof.
  induction l2 as [|x l2 IH]; intros l1 acc; [done|].
  cbn [length seq fold_left].
  rewrite list_lookup_middle by done.
  specialize (IH (l1 ++ [x]) (f acc x)).
  rewrite <- app_assoc, length_app in IH. cbn in IH.
  by rewrite Nat.add_1_r in IH.
Qed.

Lemma risk_step_fold cells acc :
  fold_left (risk_step cells) (seq 0 (length cells)) acc = fold_left risk_add cells acc.
Proof.
  rewrite <- (fold_left_indices risk_add cells [] acc). cbn [length app].
  assert (Hstep : forall acc n,
    risk_step cells acc n
    = match cells !! n with Some r => risk_add acc r | None => acc end).
  { intros [avg count] n. unfold risk_step, risk_add.
    destruct (cells !! n) as [r|]; [|reflexivity]. by destruct (active r). }
  generalize (seq 0 (length cells)). intros ns. revert acc.
  induction ns as [|n ns IH]; intros acc; [reflexivity|].
  cbn [fold_left]. rewrite Hstep. apply IH.
Qed.

Lemma risk_add_fold cells : forall avg count,
  fold_left risk_add cells (avg, count)
  = (fold_left gv_add (active_vectors cells) avg,
     count + Z.of_nat (length (active_vectors cells))).
Proof.
  unfold active_vectors.
  induction cells as [|r cells IH]; intros avg count.
  - cbn. f_equal. lia.
  - cbn [fold_left]. unfold risk_add at 2. rewrite filter_cons.
    destruct (active r) eqn:Hr.
    + destruct (decide (true = true)) as [_|]; [|done].
      cbn [fst snd]. rewrite IH. cbn. f_equal. lia.
    + destruct (decide (false = true)) as [|_]; [done|]. apply IH.
Qed.

(** The threshold [0.1f] is the binary32 value 13421773 / 2^27. *)
Lemma threshold_value : F32.to_Q (F32.dec 1 1) = Some (13421773 # 134217728).
Proof. by vm_compute. Qed.

Lemma aggregate_risk_spec grid :
  length (red grid) = Z.to_nat ACTIVE_SIZE ->
  aggregate_risk grid
  = match active_vectors (red grid) with
    | [] => gv_zero
    | _ => gv_mean (active_vectors (red grid))
    end.
Proof.
  intros Hlen. unfold aggregate_risk. rewrite <- Hlen.
  rewrite risk_step_fold, risk_add_fold.
  fold (gv_sum (active_vectors (red grid))).
  destruct (active_vectors (red grid)) as [|v vs] eqn:Hvs; [done|].
  rewrite <- Hvs.
  destruct (Z.ltb_spec 0 (0 + Z.of_nat (length (active_vectors (red grid)))))
    as [_|Hle]; [|rewrite Hvs in Hle; cbn in Hle; lia].
  by rewrite Z.add_0_l.
Qed.

(** C7.  The risk vector a protocol cycle reports is the component-wise
    mean (sum in slot order, divided by the number of cells, in [float]
    arithmetic) of the risk vectors of all the active cells of the red
    channel of the whole grid, whatever the index sampled; it is the zero
    vector when no red cell is active.  The verdict is balanced exactly
    when the reported attack risk compares strictly below [0.1f]. *)
Theorem protocol_cycle_aggregate (grid : TomographicGrid) (idx : TomographicIndex)
    (packet : NsigiiPacket) (avg : GovernanceVector) (verdict : bool) :
  length (red grid) = Z.to_nat ACTIVE_SIZE ->
  nsigii_protocol_cycle grid idx = Some (packet, avg, verdict) ->
  (active_vectors (red grid) <> [] -> avg = gv_mean (active_vectors (red grid)))
  /\ (active_vectors (red grid) = [] -> avg = gv_zero)
  /\ (verdict = true <-> F32.ltb (attack_risk avg) (F32.dec 1 1) = true).
Proof.
  intros Hlen Hcycle. unfold nsigii_protocol_cycle in Hcycle.
  destruct (encode grid idx) as [[bytes len]|]; [|discriminate].
  pose proof (aggregate_risk_spec grid Hlen) as Hspec.
  assert (Hbal : balanced (aggregate_risk grid) = true
                 <-> F32.ltb (attack_risk (aggregate_risk grid)) (F32.dec 1 1) = true)
    by reflexivity.
  revert Hcycle Hspec Hbal.
  generalize (aggregate_risk grid). intros a.
  generalize (balanced a). intros v.
  generalize (packet_entropy bytes len). intros e.
  intros [= _ <- <-] -> Hbal.
  split; [|split].
  - intros Hne. destruct (active_vectors (red grid)); [by destruct Hne|reflexivity].
  - intros ->. reflexivity.
  - exact Hbal.
Qed.

(** The sample grid has active red cells, and its cycle at the origin
    reports their mean and a balanced game. *)
Lemma protocol_cycle_aggregate_witness :
  length (red sample_grid) = Z.to_nat ACTIVE_SIZE
  /\ exists packet avg verdict,
       nsigii_protocol_cycle sample_grid (init_tomographic_index 0 0 0)
       = Some (packet, avg, verdict)
       /\ avg = gv_mean (active_vectors (red sample_grid))
       /\ (verdict = true <-> F32.ltb (attack_risk avg) (F32.dec 1 1) = true).
Proof.
  split; [by vm_compute|].
  destruct (nsigii_protocol_cycle sample_grid (init_tomographic_index 0 0 0))
    as [[[packet avg] verdict]|] eqn:Hcycle; [|by vm_compute in Hcycle].
  exists packet, avg, verdict. split; [reflexivity|].
  destruct (protocol_cycle_aggregate sample_grid (init_tomographic_index 0 0 0)
              packet avg verdict ltac:(by vm_compute) Hcycle)
    as (Hmean & _ & Hverdict).
  split; [|exact Hverdict].
  apply Hmean. by vm_compute.
Defined.

End AggregateSpec.

(** ** The sparse grid of nsigii_dimensional.c *)

Module GridSpec.

Import F64 Dimensional DimensionalDefs.

Lemma frame_flags (a b : option SparseNode) :
  node_frame <$> a = node_frame <$> b ->
  active <$> a = active <$> b /\ channel <$> a = channel <$> b.
Proof.
  unfold node_frame.
  destruct a as [x|], b as [y|]; cbn; try discriminate; [|done].
  intros [= Ha Hc _ _]. by rewrite Ha, Hc.
Qed.

Section WithLibC.
Context {libc : LibC}.

(** The fuel [fourier_square] gives its loop is enough: more fuel does
    not change the sum, so the loop has run to its exit test. *)
Lemma fourier_loop_fuel fuel extra : forall n harmonics x result,
  harmonics - n < 2 * Z.of_nat fuel ->
  fourier_loop (fuel + extra) n harmonics x result
  = fourier_loop fuel n harmonics x result.
Proof.
  induction fuel as [|fuel IH]; intros n harmonics x result Hfuel.
  - cbn [Nat.add fourier_loop]. destruct extra as [|extra]; [reflexivity|].
    cbn [fourier_loop]. destruct (Z.leb_spec n harmonics); [lia|reflexivity].
  - cbn [Nat.add fourier_loop].
    destruct (Z.leb_spec n harmonics); [|reflexivity]. apply IH. lia.
Qed.

Lemma fourier_square_fuel extra x harmonics :
  fourier_square x harmonics
  = mul (div (of_Z 4) M_PI)
        (fourier_loop (Z.to_nat harmonics + extra) 1 harmonics x zero).
Proof. unfold fourier_square. rewrite fourier_loop_fuel; [reflexivity|lia]. Qed.

Lemma cycle_cell_frame cycle n row stats ch c :
  node_frame (fst (cycle_cell cycle n (row, stats) ch) c) = node_frame (row c).
Proof.
  unfold cycle_cell. destruct (active (row ch)) eqn:Hact; [|reflexivity].
  draw_rand. cbn [fst].
  destruct ch, c; unfold node_frame, set_cell; cbn [active channel idx polarity];
    rewrite ?Hact; reflexivity.
Qed.

Lemma cycle_cells_frame cycle n chs : forall row stats c,
  node_frame (fst (fold_left (cycle_cell cycle n) chs (row, stats)) c)
  = node_frame (row c).
Proof.
  induction chs as [|ch chs IH]; intros row stats c; [reflexivity|].
  cbn [fold_left].
  destruct (cycle_cell cycle n (row, stats) ch) as [row1 stats1] eqn:Hcell.
  rewrite IH. rewrite <- (cycle_cell_frame cycle n row stats ch c).
  by rewrite Hcell.
Qed.

Lemma cycle_row_frame cycle grid stats m p c :
  node_frame <$> cell (fst (cycle_row cycle (grid, stats) m)) p c
  = node_frame <$> cell grid p c.
Proof.
  unfold cycle_row. destruct (grid !! m) as [row|] eqn:Hrow; [|reflexivity].
  destruct (fold_left (cycle_cell cycle m) channels (row, stats))
    as [row' stats'] eqn:Hfold.
  cbn [fst]. unfold cell.
  destruct (decide (p = m)) as [->|Hne].
  - rewrite list_lookup_insert_eq by (by eapply lookup_lt_Some).
    rewrite Hrow. cbn. f_equal.
    rewrite <- (cycle_cells_frame cycle m channels row stats c).
    by rewrite Hfold.
  - by rewrite list_lookup_insert_ne.
Qed.

Lemma cycle_rows_frame cycle ns : forall grid stats p c,
  node_frame <$> cell (fst (fold_left (cycle_row cycle) ns (grid, stats))) p c
  = node_frame <$> cell grid p c.
Proof.
  induction ns as [|m ns IH]; intros grid stats p c; [reflexivity|].
  cbn [fold_left].
  destruct (cycle_row cycle (grid, stats) m) as [grid1 stats1] eqn:Hrow.
  rewrite IH. rewrite <- (cycle_row_frame cycle grid stats m p c).
  by rewrite Hrow.
Qed.

Lemma verification_cycle_length (grid : Grid) cycle gen :
  length (fst (nsigii_verification_cycle grid cycle gen)) = length grid.
Proof.
  unfold nsigii_verification_cycle.
  generalize (seq 0 (Z.to_nat ACTIVE_SIZE)). intros ns.
  generalize ({| active_count := fun _ => 0; total_entropy := zero; gen_of := gen |}).
  revert grid. induction ns as [|m ns IH]; intros grid stats; [reflexivity|].
  cbn [fold_left].
  destruct (cycle_row cycle (grid, stats) m) as [grid1 stats1] eqn:Hrow.
  rewrite IH. unfold cycle_row in Hrow.
  destruct (grid !! m) as [row|]; [|by injection Hrow as <- _].
  destruct (fold_left (cycle_cell cycle m) channels (row, stats)).
  injection Hrow as <- _. apply length_insert.
Qed.

Lemma verification_cycle_frame (grid : Grid) cycle gen n ch :
  node_frame <$> cell (fst (nsigii_verification_cycle grid cycle gen)) n ch
  = node_frame <$> cell grid n ch.
Proof. apply cycle_rows_frame. Qed.

(** C6.  A verification cycle leaves the active flag and the channel tag
    (and the stored index and the polarity) of every cell of every channel
    as they were; it rewrites only value, derivative trace and entropy.
    It holds for every grid, initialised or not, and every generator. *)
Theorem verification_cycle_keeps_flags (grid : Grid) (cycle : Z) (gen : rng)
    (n : nat) (ch : ColorChannel) :
  let grid' := fst (nsigii_verification_cycle grid cycle gen) in
  length grid' = length grid
  /\ active <$> cell grid' n ch = active <$> cell grid n ch
  /\ channel <$> cell grid' n ch = channel <$> cell grid n ch
  /\ node_frame <$> cell grid' n ch = node_frame <$> cell grid n ch.
Proof.
  intros grid'.
  assert (Hframe : node_frame <$> cell grid' n ch = node_frame <$> cell grid n ch)
    by apply verification_cycle_frame.
  split; [|split; [|split]]; [| | |exact Hframe].
  - apply verification_cycle_length.
  - exact (proj1 (frame_flags _ _ Hframe)).
  - exact (proj2 (frame_flags _ _ Hframe)).
Qed.

End WithLibC.

End GridSpec.

(** ** Initialisation of the sparse grid and the active counts *)

Module SparsitySpec.

Import F64 Dimensional DimensionalDefs GridSpec.

Lemma fold_left_invariant {A B} (P : B -> Prop) (f : B -> A -> B) (l : list A) :
  (forall st x, P st -> P (f st x)) -> forall st, P st -> P (fold_left f l st).
Proof.
  intros Hstep. induction l as [|x l IH]; intros st Hst; [exact Hst|].
  cbn. apply IH, Hstep, Hst.
Qed.

Lemma fold_left_project {A B C} (proj : B -> C) (f : B -> A -> B) (f' : C -> A -> C)
    (l : list A) :
  (forall st x, proj (f st x) = f' (proj st) x) ->
  forall st, proj (fold_left f l st) = fold_left f' l (proj st).
Proof.
  intros Hstep. induction l as [|x l IH]; intros st; [reflexivity|].
  cbn. by rewrite IH, Hstep.
Qed.

Lemma count_all {A} (P : A -> Prop) `{!forall x, Decision (P x)} (l : list A) :
  Forall P l -> length (filter P l) = length l.
Proof.
  induction 1 as [|x l Hx _ IH]; [reflexivity|].
  rewrite filter_cons. destruct (decide (P x)); [|done]. cbn. by rewrite IH.
Qed.

Lemma count_none {A} (P : A -> Prop) `{!forall x, Decision (P x)} (l : list A) :
  Forall (fun x => ~ P x) l -> length (filter P l) = 0%nat.
Proof.
  induction 1 as [|x l Hx _ IH]; [reflexivity|].
  rewrite filter_cons. by destruct (decide (P x)).
Qed.

Section WithLibC.
Context {libc : LibC}.

Lemma init_row_written i j k x_red x_green x_blue old :
  written_row (init_row i j k x_red x_green x_blue old).
Proof. repeat split. Qed.

(** [linear_idx] does not depend on the grid or on the generator. *)
Lemma init_body_idx i j k st :
  snd (fst (init_body i j k st)) = next_idx i j k (snd (fst st)).
Proof.
  destruct st as [[grid n] gen]. unfold init_body, next_idx. cbn [fst snd].
  destruct ((Z.rem (i + j + k) SPARSE_FACTOR =? 0) && (n <? ACTIVE_SIZE));
    [|reflexivity].
  by draw_rand.
Qed.

Lemma init_loops_idx st : snd (fst (init_loops st)) = idx_loops (snd (fst st)).
Proof.
  unfold init_loops, idx_loops.
  apply (fold_left_project (fun st : InitState => snd (fst st))). intros st1 i.
  apply (fold_left_project (fun st : InitState => snd (fst st))). intros st2 j.
  apply (fold_left_project (fun st : InitState => snd (fst st))). intros st3 k.
  apply init_body_idx.
Qed.

(** The loops stop at 249: that many triples pass the sparsity test, one
    less than the capacity. *)
Lemma idx_loops_249 : idx_loops 0 = 249.
Proof. by vm_compute. Qed.

Lemma init_body_inv mem i j k st :
  length mem = Z.to_nat ACTIVE_SIZE ->
  init_inv mem st -> init_inv mem (init_body i j k st).
Proof.
  intros Hmem. destruct st as [[grid n] gen].
  intros (Hlen & Hn & Hdone & Hrest). unfold init_body.
  assert (Hkeep : init_inv mem (grid, n, gen))
    by exact (conj Hlen (conj Hn (conj Hdone Hrest))).
  destruct (Z.rem (i + j + k) SPARSE_FACTOR =? 0); cbn [andb]; [|exact Hkeep].
  destruct (Z.ltb_spec n ACTIVE_SIZE) as [Hlt|]; [|exact Hkeep].
  destruct (rand gen) as [x1 g1], (rand g1) as [x2 g2], (rand g2) as [x3 g3].
  unfold init_inv. split; [|split; [|split]].
  - by rewrite length_alter.
  - lia.
  - intros p Hp. destruct (decide (p = Z.to_nat n)) as [->|Hne].
    + destruct (lookup_lt_is_Some_2 grid (Z.to_nat n)) as [row Hrow]; [lia|].
      exists (init_row i j k x1 x2 x3 row). split; [|apply init_row_written].
      by rewrite list_lookup_alter_eq, Hrow.
    + rewrite list_lookup_alter_ne by done. apply Hdone. lia.
  - intros p Hp. rewrite list_lookup_alter_ne by lia. apply Hrest. lia.
Qed.

Lemma init_loops_inv mem st :
  length mem = Z.to_nat ACTIVE_SIZE ->
  init_inv mem st -> init_inv mem (init_loops st).
Proof.
  intros Hmem. unfold init_loops.
  apply fold_left_invariant. intros st1 i.
  apply fold_left_invariant. intros st2 j.
  apply fold_left_invariant. intros st3 k.
  by apply init_body_inv.
Qed.

(** What [init_sparse_grid] leaves: rows 0..248 written, row 249 as the
    memory held it. *)
Lemma init_sparse_grid_rows mem gen :
  length mem = Z.to_nat ACTIVE_SIZE ->
  let grid := fst (init_sparse_grid mem gen) in
  length grid = Z.to_nat ACTIVE_SIZE
  /\ (forall p, (p < 249)%nat -> exists row, grid !! p = Some row /\ written_row row)
  /\ (forall p, (249 <= p)%nat -> grid !! p = mem !! p).
Proof.
  intros Hmem. unfold init_sparse_grid.
  assert (Hstart : init_inv mem (mem, 0, gen)).
  { split; [reflexivity|]. split; [by vm_compute|].
    split; [intros p Hp; cbn in Hp; lia | reflexivity]. }
  pose proof (init_loops_inv mem (mem, 0, gen) Hmem Hstart) as Hinv.
  pose proof (init_loops_idx (mem, 0, gen)) as Hidx.
  destruct (init_loops (mem, 0, gen)) as [[grid n] gen'].
  cbn [fst snd] in *. rewrite idx_loops_249 in Hidx. subst n.
  destruct Hinv as (Hlen & _ & Hdone & Hrest).
  split; [congruence|]. split; [exact Hdone|exact Hrest].
Qed.

(** The active count of a channel is a function of the active flags. *)
Lemma count_active_flags ch (grid : Grid) :
  count_active ch grid
  = length (filter (fun b : bool => b = true) ((fun row : Row => active (row ch)) <$> grid)).
Proof.
  unfold count_active. induction grid as [|row grid IH]; [reflexivity|].
  rewrite fmap_cons, !filter_cons.
  destruct (decide (active (row ch) = true)); cbn; by rewrite IH.
Qed.

Lemma count_active_ext ch (grid grid' : Grid) :
  (forall n, active <$> cell grid' n ch = active <$> cell grid n ch) ->
  count_active ch grid' = count_active ch grid.
Proof.
  intros Hsame. rewrite !count_active_flags. f_equal. f_equal.
  apply list_eq. intros n. rewrite !list_lookup_fmap.
  specialize (Hsame n). unfold cell in Hsame.
  by destruct (grid' !! n), (grid !! n).
Qed.

Lemma count_active_app ch (g1 g2 : Grid) :
  count_active ch (g1 ++ g2) = (count_active ch g1 + count_active ch g2)%nat.
Proof. unfold count_active. by rewrite filter_app, length_app. Qed.

(** After initialisation a channel that [written_row] covers has 249
    active cells in rows 0..248, plus whatever row 249 of the memory
    held. *)
Lemma init_sparse_grid_count mem gen ch :
  length mem = Z.to_nat ACTIVE_SIZE ->
  count_active ch (fst (init_sparse_grid mem gen))
  = (249 + count_active ch (drop 249 mem))%nat.
Proof.
  intros Hmem.
  destruct (init_sparse_grid_rows mem gen Hmem) as (Hlen & Hdone & Hrest).
  set (grid := fst (init_sparse_grid mem gen)) in *.
  rewrite <- (take_drop 249 grid) at 1. rewrite count_active_app. f_equal.
  - unfold count_active. rewrite count_all.
    + rewrite length_take, Hlen. by vm_compute.
    + apply Forall_lookup. intros p row Hp.
      apply lookup_take_Some in Hp as [Hp Hlt].
      destruct (Hdone p Hlt) as (row' & Hrow' & Hw). simplify_eq.
      destruct Hw as (? & ? & ? & ? & _). by destruct ch.
  - f_equal. apply list_eq. intros p. rewrite !lookup_drop. apply Hrest. lia.
Qed.

Lemma cycle_cell_count cycle n row stats c ch :
  active_count (snd (cycle_cell cycle n (row, stats) c)) ch
  = active_count stats ch + hit row ch c.
Proof.
  unfold cycle_cell, hit. destruct (active (row c)) eqn:Hact.
  - draw_rand. cbn [snd active_count].
    destruct c, ch; cbn [bump]; lia.
  - cbn [snd]. destruct ch, c; lia.
Qed.

Lemma hit_frame (row row' : Row) ch c :
  (forall c, node_frame (row' c) = node_frame (row c)) -> hit row' ch c = hit row ch c.
Proof.
  intros Hframe. unfold hit. specialize (Hframe c). unfold node_frame in Hframe.
  injection Hframe as -> _ _ _. reflexivity.
Qed.

Lemma cycle_cells_count cycle n chs ch : forall row stats,
  active_count (snd (fold_left (cycle_cell cycle n) chs (row, stats))) ch
  = active_count stats ch + fold_right Z.add 0 (hit row ch <$> chs).
Proof.
  induction chs as [|c chs IH]; intros row stats; [cbn; lia|].
  cbn [fold_left fmap list_fmap fold_right].
  pose proof (cycle_cell_count cycle n row stats c ch) as Hc.
  pose proof (fun c' => cycle_cell_frame cycle n row stats c c') as Hf.
  destruct (cycle_cell cycle n (row, stats) c) as [row1 stats1].
  cbn [fst snd] in *. rewrite IH, Hc.
  assert (Hhits : hit row1 ch <$> chs = hit row ch <$> chs).
  { clear IH. induction chs as [|c' chs IH']; [reflexivity|].
    cbn. by rewrite IH', (hit_frame row row1 ch c' Hf). }
  rewrite Hhits. lia.
Qed.

Lemma cycle_row_count cycle grid stats m ch :
  active_count (snd (cycle_row cycle (grid, stats) m)) ch
  = active_count stats ch + row_hit grid ch m.
Proof.
  unfold cycle_row, row_hit, cell.
  destruct (grid !! m) as [row|]; [|cbn; lia].
  pose proof (cycle_cells_count cycle m channels ch row stats) as Hc.
  destruct (fold_left (cycle_cell cycle m) channels (row, stats)) as [row' stats'].
  cbn [snd] in *. rewrite Hc. f_equal.
  unfold channels, hit. cbn. destruct ch, (active (row _)); reflexivity.
Qed.

Lemma row_hit_ext (grid grid' : Grid) ch n :
  node_frame <$> cell grid' n ch = node_frame <$> cell grid n ch ->
  row_hit grid' ch n = row_hit grid ch n.
Proof.
  intros Hframe. unfold row_hit. by destruct (frame_flags _ _ Hframe) as [-> _].
Qed.

Lemma cycle_rows_count cycle ch ns : forall grid stats,
  active_count (snd (fold_left (cycle_row cycle) ns (grid, stats))) ch
  = active_count stats ch + fold_right Z.add 0 (row_hit grid ch <$> ns).
Proof.
  induction ns as [|m ns IH]; intros grid stats; [cbn; lia|].
  cbn [fold_left fmap list_fmap fold_right].
  pose proof (cycle_row_count cycle grid stats m ch) as Hc.
  pose proof (fun p c => cycle_row_frame cycle grid stats m p c) as Hf.
  destruct (cycle_row cycle (grid, stats) m) as [grid1 stats1].
  cbn [fst snd] in *. rewrite IH, Hc.
  assert (Hhits : row_hit grid1 ch <$> ns = row_hit grid ch <$> ns).
  { clear IH. induction ns as [|p ns IH']; [reflexivity|].
    cbn. by rewrite IH', (row_hit_ext grid grid1 ch p (Hf p ch)). }
  rewrite Hhits. lia.
Qed.

(** Summing the rows by index counts the active cells of the grid. *)
Lemma row_hits_count ch (g2 : Grid) : forall g1 : Grid,
  fold_right Z.add 0 (row_hit (g1 ++ g2) ch <$> seq (length g1) (length g2))
  = Z.of_nat (count_active ch g2).
Proof.
  induction g2 as [|row g2 IH]; intros g1; [reflexivity|].
  cbn [length seq fmap list_fmap fold_right].
  specialize (IH (g1 ++ [row])).
  rewrite <- app_assoc, length_app, Nat.add_1_r in IH. cbn [app] in IH.
  rewrite IH. unfold row_hit at 1, cell.
  rewrite list_lookup_middle by done.
  cbv [fmap option_fmap option_map].
  unfold count_active. rewrite filter_cons.
  destruct (decide (active (row ch) = true)) as [Hact|Hact].
  - rewrite Hact. cbn [length]. lia.
  - destruct (active (row ch)); [done|]. lia.
Qed.

(** The counter a cycle prints for a channel is the number of active
    cells of that channel in the grid. *)
Lemma verification_cycle_counter (grid : Grid) cycle gen ch :
  length grid = Z.to_nat ACTIVE_SIZE ->
  active_count (snd (nsigii_verification_cycle grid cycle gen)) ch
  = Z.of_nat (count_active ch grid).
Proof.
  intros Hlen. unfold nsigii_verification_cycle.
  rewrite cycle_rows_count. cbn [active_count]. rewrite <- Hlen.
  pose proof (row_hits_count ch grid []) as Hsum.
  cbn [app length] in Hsum. rewrite Hsum. lia.
Qed.

Lemma verification_cycle_count (grid : Grid) cycle gen ch :
  count_active ch (fst (nsigii_verification_cycle grid cycle gen))
  = count_active ch grid.
Proof.
  apply count_active_ext. intros n.
  exact (proj1 (frame_flags _ _ (verification_cycle_frame grid cycle gen n ch))).
Qed.

Lemma triples_kept : length (filter (fun t => kept t = true) triples) = 249%nat.
Proof. by vm_compute. Qed.

Lemma count_active_last (mem : Grid) (last : Row) ch :
  length mem = Z.to_nat ACTIVE_SIZE ->
  mem !! 249%nat = Some last -> active (last ch) = false ->
  count_active ch (drop 249 mem) = 0%nat.
Proof.
  intros Hmem Hlast Hoff.
  rewrite (drop_S _ _ _ Hlast), drop_ge by (rewrite Hmem; by vm_compute).
  unfold count_active. rewrite filter_cons.
  destruct (decide (active (last ch) = true)); [congruence|reflexivity].
Qed.

(** C3, as the code has it.  The sparsity test keeps 249 of the 1000
    triples, one less than the capacity 250, so initialisation writes rows
    0..248 and never row 249.  When row 249 of the memory the grid
    occupies is inactive, the RED and the GREEN channel each have exactly
    249 active cells after initialisation and after each of the three
    cycles 0, 1, 2, and 249 is also the counter each cycle reports. *)
Theorem sparse_grid_active_counts (mem : Grid) (gen : rng) (last : Row) :
  length mem = Z.to_nat ACTIVE_SIZE ->
  mem !! 249%nat = Some last ->
  active (last RED) = false ->
  active (last GREEN) = false ->
  length (filter (fun t => kept t = true) triples) = 249%nat
  /\ count_active RED (fst (run_cycles mem gen)) = 249%nat
  /\ count_active GREEN (fst (run_cycles mem gen)) = 249%nat
  /\ length (snd (run_cycles mem gen)) = 3%nat
  /\ Forall (fun r : Grid * CycleStats =>
               count_active RED (fst r) = 249%nat
               /\ count_active GREEN (fst r) = 249%nat
               /\ active_count (snd r) RED = 249
               /\ active_count (snd r) GREEN = 249)
            (snd (run_cycles mem gen)).
Proof.
  intros Hmem Hlast Hred Hgreen. split; [exact triples_kept|].
  unfold run_cycles.
  pose proof (init_sparse_grid_count mem gen RED Hmem) as Hr0.
  pose proof (init_sparse_grid_count mem gen GREEN Hmem) as Hg0.
  destruct (init_sparse_grid_rows mem gen Hmem) as (Hlen0 & _ & _).
  rewrite (count_active_last mem last RED Hmem Hlast Hred) in Hr0.
  rewrite (count_active_last mem last GREEN Hmem Hlast Hgreen) in Hg0.
  destruct (init_sparse_grid mem gen) as [g0 gen0]. cbn [fst snd] in *.
  set (r0 := nsigii_verification_cycle g0 0 gen0).
  set (r1 := nsigii_verification_cycle (fst r0) 1 (gen_of (snd r0))).
  set (r2 := nsigii_verification_cycle (fst r1) 2 (gen_of (snd r1))).
  assert (Hlen1 : length (fst r0) = Z.to_nat ACTIVE_SIZE)
    by (unfold r0; by rewrite verification_cycle_length).
  assert (Hlen2 : length (fst r1) = Z.to_nat ACTIVE_SIZE)
    by (unfold r1; by rewrite verification_cycle_length).
  assert (Hc0 : forall ch, count_active ch (fst r0) = count_active ch g0)
    by (intros ch; apply verification_cycle_count).
  assert (Hc1 : forall ch, count_active ch (fst r1) = count_active ch g0)
    by (intros ch; unfold r1; by rewrite verification_cycle_count).
  assert (Hc2 : forall ch, count_active ch (fst r2) = count_active ch g0)
    by (intros ch; unfold r2; by rewrite verification_cycle_count).
  assert (Hn0 : forall ch, active_count (snd r0) ch = Z.of_nat (count_active ch g0))
    by (intros ch; unfold r0; by rewrite verification_cycle_counter).
  assert (Hn1 : forall ch, active_count (snd r1) ch = Z.of_nat (count_active ch g0))
    by (intros ch; unfold r1; rewrite verification_cycle_counter by done;
        by rewrite Hc0).
  assert (Hn2 : forall ch, active_count (snd r2) ch = Z.of_nat (count_active ch g0))
    by (intros ch; unfold r2; rewrite verification_cycle_counter by done;
        by rewrite Hc1).
  split; [lia|]. split; [lia|]. split; [reflexivity|].
  repeat (apply Forall_cons; split;
          [rewrite ?Hc0, ?Hc1, ?Hc2, ?Hn0, ?Hn1, ?Hn2, ?Hr0, ?Hg0; repeat split; lia|]).
  apply Forall_nil_2.
Qed.

End WithLibC.

(** C3, as stated, fails: in zeroed memory, with [rand()] returning 1, 2,
    3, ..., initialisation leaves 249 active RED cells and 249 active
    GREEN cells, not 250 (and by the theorem above the cycles keep those
    numbers). *)
Lemma sparse_grid_counts_not_250 :
  let grid := fst (@init_sparse_grid counting_libc blank_rows 0%nat) in
  length blank_rows = 250%nat
  /\ count_active RED grid = 249%nat
  /\ count_active GREEN grid = 249%nat
  /\ count_active RED grid <> 250%nat
  /\ count_active GREEN grid <> 250%nat.
Proof. vm_compute. repeat split; discriminate. Qed.

(** A run that meets the hypotheses: zeroed memory. *)
Lemma sparse_grid_active_counts_witness :
  length blank_rows = Z.to_nat ACTIVE_SIZE
  /\ count_active RED (fst (@run_cycles counting_libc blank_rows 0%nat)) = 249%nat.
Proof.
  split; [reflexivity|].
  exact (proj1 (proj2 (@sparse_grid_active_counts counting_libc blank_rows 0%nat
                         (fun _ => blank_cell) eq_refl eq_refl eq_refl eq_refl))).
Defined.

End SparsitySpec.

(** ** The derived channel after initialisation *)

Module DerivedSpec.

Import Minimal MinimalDefs CombinerSpec ProtocolSpec.

Section WithLibC.
Context {libc : LibC}.

(** The loop of [init_sparse_grid] keeps the four arrays at their length,
    does not touch [cyan], and stores bytes in [red] and [green]. *)
Lemma init_body_fold mem gen m :
  let st := fold_left init_body (seq 0 m) (mem, gen) in
  length (red (fst st)) = length (red mem)
  /\ length (green (fst st)) = length (green mem)
  /\ cyan (fst st) = cyan mem
  /\ byte_valued (red (fst st)) m
  /\ byte_valued (green (fst st)) m.
Proof.
  induction m as [|m IH].
  - cbn. split; [reflexivity|]. split; [reflexivity|]. split; [reflexivity|].
    split; intros p r Hp; lia.
  - rewrite seq_S, fold_left_app. cbn [fold_left Nat.add] in *.
    destruct (fold_left init_body (seq 0 m) (mem, gen)) as [grid1 gen1].
    cbn [fst] in IH. destruct IH as (Hr & Hg & Hc & Hbr & Hbg).
    unfold init_body.
    draw_rand.
    cbn [fst red green cyan]. rewrite !length_insert.
    split; [exact Hr|]. split; [exact Hg|]. split; [exact Hc|].
    split; intros p r Hp Hlook.
    + destruct (decide (p = m)) as [->|Hne].
      * apply list_lookup_insert_Some in Hlook as [(_ & <- & _)|(? & _)]; [|done].
        apply CIntFacts.u8_range.
      * rewrite list_lookup_insert_ne in Hlook by done. apply (Hbr p r); [lia|done].
    + destruct (decide (p = m)) as [->|Hne].
      * apply list_lookup_insert_Some in Hlook as [(_ & <- & _)|(? & _)]; [|done].
        apply CIntFacts.u8_range.
      * rewrite list_lookup_insert_ne in Hlook by done. apply (Hbg p r); [lia|done].
Qed.

Lemma init_sparse_grid_consensus mem gen p r g :
  wf_grid mem ->
  let grid := fst (init_sparse_grid mem gen) in
  red grid !! p = Some r -> green grid !! p = Some g ->
  active r = true -> active g = true ->
  cyan grid !! p = Some (combined r g) /\ 0 <= value r < 256 /\ 0 <= value g < 256.
Proof.
  intros (Hlr & Hlg & _ & Hlc). unfold init_sparse_grid.
  pose proof (init_body_fold
                {| red := red mem; green := green mem; blue := blue mem;
                   cyan := cyan mem; active_count := 0 |}
                gen (Z.to_nat ACTIVE_SIZE)) as Hfold.
  destruct (fold_left init_body _ _) as [grid1 gen1].
  cbn [fst red green cyan] in *.
  destruct Hfold as (Hr & Hg & Hc & Hbr & Hbg).
  intros Hred Hgreen Har Hag.
  assert (Hp : (p < Z.to_nat ACTIVE_SIZE)%nat)
    by (rewrite <- Hlr, <- Hr; by eapply lookup_lt_Some).
  split; [|split; [by eapply Hbr|by eapply Hbg]].
  apply combine_channels_consensus; try done. by rewrite Hc, Hlc.
Qed.

End WithLibC.

Lemma truncated_mean a b :
  0 <= a < 256 -> 0 <= b < 256 ->
  CInt.u8 ((a + b) `quot` 2) = (a + b) `quot` 2
  /\ 0 <= a + b - 2 * ((a + b) `quot` 2) <= 1.
Proof.
  intros Ha Hb. rewrite Z.quot_div_nonneg by lia.
  pose proof (Z.div_mod (a + b) 2 ltac:(lia)) as Hdm.
  pose proof (Z.mod_pos_bound (a + b) 2 ltac:(lia)) as Hm.
  split; [apply CIntFacts.u8_id|]; lia.
Qed.

(** C4, as stated, fails on the minimal engine: with [rand()] returning
    1, 2, 3, ... slot 0 is initialised to an active red 1 and an active
    green 2, and the cyan cell combined from them is an active 1, which is
    1/2 away from the mean 3/2, not within 1e-9 of it. *)
Lemma derived_value_not_within_epsilon :
  (fun c => (active c, value c)) <$> red sample_grid !! 0%nat = Some (true, 1)
  /\ (fun c => (active c, value c)) <$> green sample_grid !! 0%nat = Some (true, 2)
  /\ (fun c => (active c, value c)) <$> cyan sample_grid !! 0%nat = Some (true, 1)
  /\ ~ within_epsilon 1 1 2.
Proof.
  split; [by vm_compute|]. split; [by vm_compute|]. split; [by vm_compute|].
  unfold within_epsilon. intros H. apply Qle_bool_iff in H. by vm_compute in H.
Qed.

End DerivedSpec.

(** ** The six stored permutations *)

Module IndexFacts.

Import MoreDefs.

Ltac find_elem :=
  repeat first [apply list_elem_of_here | apply list_elem_of_further].

Lemma three_orderings (a b c x y z : Z) :
  [x; y; z] ≡ₚ [a; b; c]
  <-> (x, y, z) ∈ [(a, b, c); (b, a, c); (a, c, b); (b, c, a); (c, a, b); (c, b, a)].
Proof.
  split.
  - intros H. symmetry in H.
    assert (Ha : a ∈ [x; y; z]) by (rewrite <- H; find_elem).
    assert (Hcases : (a = x /\ [b; c] ≡ₚ [y; z]) \/ (a = y /\ [b; c] ≡ₚ [x; z])
                     \/ (a = z /\ [b; c] ≡ₚ [x; y])).
    { apply elem_of_cons in Ha as [->|Ha]; [left|right].
      - split; [reflexivity|]. by apply Permutation_cons_inv in H.
      - apply elem_of_cons in Ha as [->|Ha]; [left|right].
        + split; [reflexivity|]. apply (Permutation_cons_inv (a := y)).
          rewrite H. apply perm_swap.
        + apply list_elem_of_singleton in Ha as ->.
          split; [reflexivity|]. apply (Permutation_cons_inv (a := z)).
          rewrite H. symmetry. apply (Permutation_cons_append [x; y] z). }
    destruct Hcases as [[-> Hp]|[[-> Hp]|[-> Hp]]];
      apply Permutation_length_2_inv in Hp as [Hp|Hp];
      injection Hp as -> ->; find_elem.
  - intros H.
    repeat (apply elem_of_cons in H as [H|H]; [injection H as -> -> ->|]);
      [| | | | | |by apply elem_of_nil in H].
    + reflexivity.
    + apply perm_swap.
    + apply perm_skip, perm_swap.
    + symmetry. apply (Permutation_cons_append [b; c] a).
    + apply (Permutation_cons_append [a; b] c).
    + symmetry. apply (Permutation_rev [a; b; c]).
Qed.

(** X1.  [init_tomographic_index] stores the triple and all of its
    orderings: the six stored entries are exactly the triples whose three
    entries are a rearrangement of (i, j, k), and when i, j and k are
    pairwise different no ordering is stored twice.  Both engines. *)
Theorem init_tomographic_index_complete (i j k : Z) :
  let idx := Minimal.init_tomographic_index i j k in
  let idx' := Dimensional.init_tomographic_index i j k in
  (Minimal.i idx, Minimal.j idx, Minimal.k idx) = (i, j, k)
  /\ Minimal.permutations idx = Dimensional.permutations idx'
  /\ length (Minimal.permutations idx) = 6%nat
  /\ (forall t, t ∈ Minimal.permutations idx <-> entries t ≡ₚ [i; j; k])
  /\ (i <> j -> i <> k -> j <> k -> NoDup (Minimal.permutations idx)).
Proof.
  intros idx idx'. split; [reflexivity|]. split; [reflexivity|].
  split; [reflexivity|]. split.
  - intros [[x y] z]. symmetry. apply three_orderings.
  - intros Hij Hik Hjk. cbn.
    repeat (apply NoDup_cons; split;
            [rewrite ?elem_of_cons, elem_of_nil; intros H;
             repeat (destruct H as [H|H]; [injection H as ?; congruence|]);
             exact H|]).
    apply NoDup_nil_2.
Qed.

(** Distinct coordinates: the orderings of (1, 2, 3). *)
Lemma init_tomographic_index_complete_witness :
  NoDup (Minimal.permutations (Minimal.init_tomographic_index 1 2 3)).
Proof.
  apply (proj2 (proj2 (proj2 (proj2 (init_tomographic_index_complete 1 2 3)))));
    discriminate.
Defined.

End IndexFacts.

(** ** Navigation: inverses, periods, frames *)

Module NavigationFacts.

Import Minimal MinimalDefs MoreDefs.

Lemma small_in_int z : -100 <= z <= 100 -> CInt.in_int z.
Proof. unfold CInt.in_int, CInt.INT_MIN, CInt.INT_MAX. lia. Qed.

(** The three moves of a coordinate in 0..9. *)
Lemma move_up c : 0 <= c < 10 -> Z.rem (CInt.wrap (c + 1)) 10 = (c + 1) mod 10.
Proof.
  intros Hc. rewrite CIntFacts.wrap_id by (apply small_in_int; lia).
  apply Z.rem_mod_nonneg; lia.
Qed.

Lemma move_down c :
  0 <= c < 10 -> Z.rem (CInt.wrap (CInt.wrap (c - 1) + 10)) 10 = (c + 9) mod 10.
Proof.
  intros Hc. rewrite (CIntFacts.wrap_id (c - 1)) by (apply small_in_int; lia).
  rewrite CIntFacts.wrap_id by (apply small_in_int; lia).
  rewrite Z.rem_mod_nonneg by lia. f_equal. lia.
Qed.

Lemma up_down c : 0 <= c < 10 -> (((c + 1) mod 10) + 9) mod 10 = c.
Proof.
  intros Hc. assert (Hcases : c < 9 \/ c = 9) by lia.
  destruct Hcases as [Hlt| ->]; [|reflexivity].
  rewrite (Z.mod_small (c + 1)) by lia.
  replace (c + 1 + 9) with (c + 1 * 10) by lia.
  rewrite Z.mod_add by lia. apply Z.mod_small. lia.
Qed.

Lemma down_up c : 0 <= c < 10 -> (((c + 9) mod 10) + 1) mod 10 = c.
Proof.
  intros Hc. assert (Hcases : c = 0 \/ 0 < c) by lia.
  destruct Hcases as [->|Hlt]; [reflexivity|].
  replace (c + 9) with (c - 1 + 1 * 10) by lia.
  rewrite Z.mod_add by lia. rewrite (Z.mod_small (c - 1)) by lia.
  replace (c - 1 + 1) with c by lia. apply Z.mod_small. lia.
Qed.

Lemma digit_cases c : 0 <= c < 10 ->
  c = 0 \/ c = 1 \/ c = 2 \/ c = 3 \/ c = 4 \/ c = 5 \/ c = 6 \/ c = 7 \/ c = 8 \/ c = 9.
Proof. lia. Qed.

(** X2.  On an index with coordinates in 0..9: Up and Down undo each
    other, and so do Left and Right; ten moves of one kind come back to
    the index they started from; and since there is no event that moves k
    forward, nine Back events are the one step forward in k. *)
Theorem navigation_round_trips (grid : TomographicGrid) (idx : TomographicIndex) :
  in_range idx ->
  handle_trident_event EVENT_DOWN grid (handle_trident_event EVENT_UP grid idx) = idx
  /\ handle_trident_event EVENT_UP grid (handle_trident_event EVENT_DOWN grid idx) = idx
  /\ handle_trident_event EVENT_LEFT grid (handle_trident_event EVENT_RIGHT grid idx) = idx
  /\ handle_trident_event EVENT_RIGHT grid (handle_trident_event EVENT_LEFT grid idx) = idx
  /\ (forall ev, In ev [EVENT_UP; EVENT_DOWN; EVENT_LEFT; EVENT_RIGHT; EVENT_BACK] ->
        repeat_event 10 ev grid idx = idx)
  /\ k (repeat_event 9 EVENT_BACK grid idx) = (k idx + 1) mod 10.
Proof.
  destruct idx as [ci cj ck perms]. unfold in_range. cbn [i j k].
  intros (Hi & Hj & Hk).
  split; [|split; [|split; [|split; [|split]]]].
  - cbn. rewrite move_up by lia. rewrite move_down by (apply Z.mod_pos_bound; lia).
    by rewrite up_down.
  - cbn. rewrite move_down by lia. rewrite move_up by (apply Z.mod_pos_bound; lia).
    by rewrite down_up.
  - cbn. rewrite move_up by lia. rewrite move_down by (apply Z.mod_pos_bound; lia).
    by rewrite up_down.
  - cbn. rewrite move_down by lia. rewrite move_up by (apply Z.mod_pos_bound; lia).
    by rewrite down_up.
  - intros ev Hev. cbn in Hev.
    destruct Hev as [<-|[<-|[<-|[<-|[<-|[]]]]]].
    + destruct (digit_cases ci Hi) as [->|[->|[->|[->|[->|[->|[->|[->|[->| ->]]]]]]]]];
        reflexivity.
    + destruct (digit_cases ci Hi) as [->|[->|[->|[->|[->|[->|[->|[->|[->| ->]]]]]]]]];
        reflexivity.
    + destruct (digit_cases cj Hj) as [->|[->|[->|[->|[->|[->|[->|[->|[->| ->]]]]]]]]];
        reflexivity.
    + destruct (digit_cases cj Hj) as [->|[->|[->|[->|[->|[->|[->|[->|[->| ->]]]]]]]]];
        reflexivity.
    + destruct (digit_cases ck Hk) as [->|[->|[->|[->|[->|[->|[->|[->|[->| ->]]]]]]]]];
        reflexivity.
  - destruct (digit_cases ck Hk) as [->|[->|[->|[->|[->|[->|[->|[->|[->| ->]]]]]]]]];
      reflexivity.
Qed.

Lemma navigation_round_trips_witness :
  handle_trident_event EVENT_DOWN blank_grid
    (handle_trident_event EVENT_UP blank_grid (init_tomographic_index 9 0 0))
  = init_tomographic_index 9 0 0.
Proof.
  apply (navigation_round_trips blank_grid (init_tomographic_index 9 0 0)).
  unfold in_range. cbn. lia.
Defined.

Lemma rem_10_bound z : -10 < Z.rem z 10 < 10.
Proof.
  destruct (Z.le_gt_cases 0 z) as [Hz|Hz].
  - pose proof (Z.rem_bound_pos z 10 Hz ltac:(lia)). lia.
  - pose proof (Z.rem_bound_pos_neg z 10 ltac:(lia) ltac:(lia)). lia.
Qed.

(** X3.  Whatever the index holds (any [int] values, in range or not), an
    event writes at most one coordinate and never the stored
    permutations; the coordinate it writes ends strictly between -10 and
    10; Start zeroes the triple; Enter and Stop change nothing.  The wrap
    is the C remainder, not a modulo: Down on a coordinate at or below -11
    leaves a coordinate in -9..0, not in 0..9. *)
Theorem navigation_frame (grid : TomographicGrid) (idx : TomographicIndex)
    (ev : TridentEvent) :
  let idx' := handle_trident_event ev grid idx in
  permutations idx' = permutations idx
  /\ (-10 < i idx' < 10 \/ i idx' = i idx)
  /\ (-10 < j idx' < 10 \/ j idx' = j idx)
  /\ (-10 < k idx' < 10 \/ k idx' = k idx)
  /\ (In ev [EVENT_UP; EVENT_DOWN] -> j idx' = j idx /\ k idx' = k idx)
  /\ (In ev [EVENT_LEFT; EVENT_RIGHT] -> i idx' = i idx /\ k idx' = k idx)
  /\ (ev = EVENT_BACK -> i idx' = i idx /\ j idx' = j idx)
  /\ (ev = EVENT_START -> (i idx', j idx', k idx') = (0, 0, 0))
  /\ (In ev [EVENT_ENTER; EVENT_STOP] -> idx' = idx)
  /\ (ev = EVENT_DOWN -> CInt.INT_MIN < i idx <= -11 -> -9 <= i idx' <= 0).
Proof.
  intros idx'. subst idx'.
  split; [by destruct ev|].
  split; [destruct ev; cbn; first [by right | left; first [apply rem_10_bound | lia]]|].
  split; [destruct ev; cbn; first [by right | left; first [apply rem_10_bound | lia]]|].
  split; [destruct ev; cbn; first [by right | left; first [apply rem_10_bound | lia]]|].
  split; [intros [<-|[<-|[]]]; by split|].
  split; [intros [<-|[<-|[]]]; by split|].
  split; [by intros ->|].
  split; [by intros ->|].
  split; [intros [<-|[<-|[]]]; reflexivity|].
  intros -> Hi. cbn. unfold CInt.INT_MIN in Hi.
  assert (Hin : forall z, - 2 ^ 31 <= z <= 2 ^ 31 - 1 -> CInt.in_int z)
    by (unfold CInt.in_int, CInt.INT_MIN, CInt.INT_MAX; lia).
  rewrite (CIntFacts.wrap_id (i idx - 1)) by (apply Hin; lia).
  rewrite CIntFacts.wrap_id by (apply Hin; lia).
  pose proof (Z.rem_bound_pos_neg (i idx - 1 + 10) 10 ltac:(lia) ltac:(lia)). lia.
Qed.

(** Down at -15 leaves -6. *)
Lemma navigation_frame_witness :
  -9 <= i (handle_trident_event EVENT_DOWN blank_grid
             {| i := -15; j := 0; k := 0; permutations := [] |}) <= 0.
Proof.
  apply (navigation_frame blank_grid {| i := -15; j := 0; k := 0; permutations := [] |}
           EVENT_DOWN); [reflexivity|].
  unfold CInt.INT_MIN. cbn. lia.
Defined.

End NavigationFacts.

(** ** Initialisation of the grid of nsigii_minimal.c *)

Module MinimalInitFacts.

Import Minimal MinimalDefs MinimalMoreDefs CombinerSpec.

Lemma filter_flags {A} (f : A -> bool) (l : list A) :
  length (filter (fun x => f x = true) l)
  = length (filter (fun b : bool => b = true) (f <$> l)).
Proof.
  induction l as [|x l IH]; [reflexivity|].
  rewrite fmap_cons, !filter_cons.
  destruct (decide (f x = true)); cbn; by rewrite IH.
Qed.

Lemma draws_S {libc : LibC} n gen : draws (S n) gen = snd (rand (draws n gen)).
Proof. reflexivity. Qed.

Section WithLibC.
Context {libc : LibC}.

(** Invariant of the loop of [init_sparse_grid] after [m] iterations. *)
Lemma init_loop_cells mem gen m :
  (m <= length (red mem))%nat -> (m <= length (green mem))%nat ->
  (m <= length (blue mem))%nat ->
  let st := fold_left init_body (seq 0 m) (mem, gen) in
  length (red (fst st)) = length (red mem)
  /\ length (green (fst st)) = length (green mem)
  /\ length (blue (fst st)) = length (blue mem)
  /\ cyan (fst st) = cyan mem
  /\ snd st = draws (6 * m) gen
  /\ active_count (fst st)
     = active_count mem
       + Z.of_nat (length (filter (fun b : bool => b = true) (marked <$> seq 0 m)))
  /\ (forall p, (p < m)%nat ->
        exists r g b,
          red (fst st) !! p = Some r /\ green (fst st) !! p = Some g
          /\ blue (fst st) !! p = Some b
          /\ initialised_cell RED_CHANNEL 1 p (vector r) r
          /\ initialised_cell GREEN_CHANNEL (-1) p (vector r) g
          /\ initialised_cell BLUE_CHANNEL 0 p (vector r) b)
  /\ (forall p, (m <= p)%nat ->
        red (fst st) !! p = red mem !! p /\ green (fst st) !! p = green mem !! p
        /\ blue (fst st) !! p = blue mem !! p).
Proof.
  induction m as [|m IH]; intros Hr Hg Hb.
  - cbn. split; [reflexivity|]. split; [reflexivity|]. split; [reflexivity|].
    split; [reflexivity|]. split; [reflexivity|]. split; [lia|].
    split; [intros p Hp; lia|done].
  - specialize (IH ltac:(lia) ltac:(lia) ltac:(lia)).
    rewrite seq_S, fold_left_app. cbn [fold_left Nat.add] in *.
    destruct (fold_left init_body (seq 0 m) (mem, gen)) as [grid1 gen1].
    cbn [fst snd] in IH.
    destruct IH as (Hlr & Hlg & Hlb & Hc & Hgen & Hcount & Hdone & Hrest).
    replace (6 * S m)%nat with (S (S (S (S (S (S (6 * m)))))))%nat by lia.
    rewrite !draws_S, <- Hgen. unfold init_body.
    destruct (rand gen1) as [x1 g1]. cbn [snd].
    destruct (rand g1) as [x2 g2]. cbn [snd].
    destruct (rand g2) as [x3 g3]. cbn [snd].
    destruct (rand g3) as [x4 g4]. cbn [snd].
    destruct (rand g4) as [x5 g5]. cbn [snd].
    destruct (rand g5) as [x6 g6].
    cbn [fst snd red green blue cyan active_count active]. rewrite !length_insert.
    split; [exact Hlr|]. split; [exact Hlg|]. split; [exact Hlb|]. split; [exact Hc|].
    split; [reflexivity|]. split; [|split].
    + rewrite fmap_app, filter_app, length_app, Hcount. cbn [fmap list_fmap].
      rewrite filter_cons, filter_nil. fold (marked m).
      destruct (marked m);
        (destruct (decide (_ = true)) as [?|?]; [|try done]; try done);
        cbn [length]; lia.
    + intros p Hp. destruct (decide (p = m)) as [->|Hne].
      * rewrite !list_lookup_insert_eq by lia. do 3 eexists.
        split; [reflexivity|]. split; [reflexivity|]. split; [reflexivity|].
        unfold initialised_cell, marked. cbn [active channel polarity value vector].
        repeat split; try apply CIntFacts.u8_range.
      * rewrite !list_lookup_insert_ne by done. apply Hdone. lia.
    + intros p Hp. rewrite !list_lookup_insert_ne by lia. apply Hrest. lia.
Qed.

(** The grid [init_sparse_grid] returns, in terms of the arrays its loop
    leaves. *)
Lemma init_sparse_grid_unfold mem gen :
  wf_grid mem ->
  exists reds greens blues,
    fst (init_sparse_grid mem gen)
    = {| red := reds; green := greens; blue := blues;
         cyan := combine_channels (cyan mem) reds greens (Z.to_nat ACTIVE_SIZE);
         active_count := 64 |}
    /\ snd (init_sparse_grid mem gen) = draws 1536 gen
    /\ length reds = Z.to_nat ACTIVE_SIZE
    /\ length greens = Z.to_nat ACTIVE_SIZE
    /\ length blues = Z.to_nat ACTIVE_SIZE
    /\ (forall p, (p < 256)%nat ->
          exists r g b,
            reds !! p = Some r /\ greens !! p = Some g /\ blues !! p = Some b
            /\ initialised_cell RED_CHANNEL 1 p (vector r) r
            /\ initialised_cell GREEN_CHANNEL (-1) p (vector r) g
            /\ initialised_cell BLUE_CHANNEL 0 p (vector r) b).
Proof.
  intros (Hlr & Hlg & Hlb & Hlc). unfold init_sparse_grid.
  pose proof (init_loop_cells
                {| red := red mem; green := green mem; blue := blue mem;
                   cyan := cyan mem; active_count := 0 |}
                gen (Z.to_nat ACTIVE_SIZE)) as Hloop.
  cbn [red green blue cyan active_count] in Hloop.
  specialize (Hloop ltac:(lia) ltac:(lia) ltac:(lia)).
  destruct (fold_left init_body _ _) as [grid1 gen1].
  cbn [fst snd red green blue cyan active_count] in *.
  destruct Hloop as (Hr & Hg & Hb & Hc & Hgen & Hcount & Hdone & _).
  assert (H64 : length (filter (fun b : bool => b = true)
                          (marked <$> seq 0 (Z.to_nat ACTIVE_SIZE))) = 64%nat)
    by (by vm_compute).
  exists (red grid1), (green grid1), (blue grid1).
  rewrite Hc, Hcount, H64.
  split; [reflexivity|]. split; [exact Hgen|].
  split; [congruence|]. split; [congruence|]. split; [congruence|exact Hdone].
Qed.

(** X4.  Whatever memory the grid occupies and whatever [rand()]
    returns, [init_sparse_grid] leaves four arrays of ACTIVE_SIZE = 256
    cells in which, at every slot, the red, green and blue cells are
    active exactly when the slot is a multiple of 4, carry their channel
    tag and the polarity +1, -1, 0 of their channel, hold a byte, and
    share one risk vector; the counter [active_count] is 64 and is the
    number of active red cells; and the generator has been called exactly
    6 * 256 = 1536 times. *)
Theorem init_sparse_grid_cells (mem : TomographicGrid) (gen : rng) :
  wf_grid mem ->
  let grid := fst (init_sparse_grid mem gen) in
  wf_grid grid
  /\ active_count grid = 64
  /\ length (filter (fun c => active c = true) (red grid)) = 64%nat
  /\ snd (init_sparse_grid mem gen) = draws 1536 gen
  /\ (forall p, (p < 256)%nat ->
        exists r g b,
          red grid !! p = Some r /\ green grid !! p = Some g /\ blue grid !! p = Some b
          /\ initialised_cell RED_CHANNEL 1 p (vector r) r
          /\ initialised_cell GREEN_CHANNEL (-1) p (vector r) g
          /\ initialised_cell BLUE_CHANNEL 0 p (vector r) b).
Proof.
  intros Hwf grid. subst grid.
  destruct (init_sparse_grid_unfold mem gen Hwf)
    as (reds & greens & blues & -> & Hgen & Hr & Hg & Hb & Hdone).
  cbn [red green blue cyan active_count].
  assert (Hflags : active <$> reds = marked <$> seq 0 (Z.to_nat ACTIVE_SIZE)).
  { apply list_eq. intros p. rewrite !list_lookup_fmap.
    destruct (decide (p < Z.to_nat ACTIVE_SIZE)%nat) as [Hp|Hp].
    - destruct (Hdone p Hp) as (r & g & b & Hrp & _ & _ & (Hact & _) & _).
      rewrite Hrp, lookup_seq_lt by done. cbn. by rewrite Hact.
    - rewrite lookup_seq_ge by lia.
      rewrite (lookup_ge_None_2 reds) by lia. reflexivity. }
  split; [|split; [|split; [|split]]].
  - destruct Hwf as (_ & _ & _ & Hlc). unfold wf_grid. cbn [red green blue cyan].
    rewrite combine_channels_length. repeat split; congruence.
  - reflexivity.
  - rewrite (filter_flags active), Hflags. by vm_compute.
  - exact Hgen.
  - exact Hdone.
Qed.

(** X5.  After [init_sparse_grid] the cyan array is combined on the
    multiples of 4 and is the memory it was elsewhere: on a multiple of 4
    the cyan cell is active, tagged cyan, of polarity 0 (the halved sum of
    +1 and -1), and its byte is the truncated mean of the red and the
    green byte; on every other slot the cyan cell is what the memory held
    before the call, whatever that was. *)
Theorem init_sparse_grid_cyan (mem : TomographicGrid) (gen : rng) (p : nat) :
  wf_grid mem ->
  (p < 256)%nat ->
  let grid := fst (init_sparse_grid mem gen) in
  if marked p
  then exists r g c,
         red grid !! p = Some r /\ green grid !! p = Some g /\ cyan grid !! p = Some c
         /\ active c = true /\ channel c = CYAN_CHANNEL /\ polarity c = 0
         /\ value c = (value r + value g) `quot` 2
         /\ c = combined r g
  else cyan grid !! p = cyan mem !! p.
Proof.
  intros Hwf Hp grid. subst grid.
  destruct (init_sparse_grid_unfold mem gen Hwf)
    as (reds & greens & blues & -> & _ & Hlr & _ & _ & Hdone).
  cbn [red green blue cyan].
  destruct (Hdone p Hp) as (r & g & b & Hr & Hg & _ & Hcr & Hcg & _).
  destruct Hcr as (Har & _ & Hpr & Hvr & _). destruct Hcg as (Hag & _ & Hpg & Hvg & _).
  destruct (marked p) eqn:Hm.
  - exists r, g, (combined r g).
    split; [exact Hr|]. split; [exact Hg|]. split.
    + apply combine_channels_consensus; try done.
      destruct Hwf as (_ & _ & _ & ->). exact Hp.
    + split; [reflexivity|]. split; [reflexivity|].
      cbn [polarity value combined]. rewrite Hpr, Hpg.
      destruct (DerivedSpec.truncated_mean _ _ Hvr Hvg) as [-> _].
      split; [by vm_compute|]. split; reflexivity.
  - apply (combine_channels_no_consensus _ _ _ _ _ r g Hr Hg). by rewrite Har.
Qed.

End WithLibC.

(** Zeroed memory is well formed. *)
Lemma init_sparse_grid_cells_witness :
  wf_grid blank_grid
  /\ active_count (fst (@init_sparse_grid counting_libc blank_grid 0%nat)) = 64.
Proof.
  assert (Hwf : wf_grid blank_grid) by (by vm_compute).
  split; [exact Hwf|].
  exact (proj1 (proj2 (@init_sparse_grid_cells counting_libc blank_grid 0%nat Hwf))).
Defined.

(** Slot 4 of a grid built in zeroed memory. *)
Lemma init_sparse_grid_cyan_witness :
  exists c, cyan (fst (@init_sparse_grid counting_libc blank_grid 0%nat)) !! 4%nat = Some c
            /\ polarity c = 0.
Proof.
  assert (Hwf : wf_grid blank_grid) by (by vm_compute).
  destruct (@init_sparse_grid_cyan counting_libc blank_grid 0%nat 4%nat Hwf ltac:(lia))
    as (r & g & c & _ & _ & Hc & _ & _ & Hpol & _).
  exists c. split; [exact Hc|exact Hpol].
Defined.

End MinimalInitFacts.

(** ** The combiner, the linear index and the packet *)

Module PacketFacts.

Import Minimal MinimalDefs MinimalMoreDefs CombinerSpec ProtocolSpec.

Lemma small_in_int_wide z : 0 <= z <= 2000 -> CInt.in_int z.
Proof. unfold CInt.in_int, CInt.INT_MIN, CInt.INT_MAX. lia. Qed.

(** X6.  [combine_channels] keeps the length of the cyan array, leaves
    the slots from [n] on as they were, and combining a second time with
    the same red and green arrays changes nothing more. *)
Theorem combine_channels_idempotent (cyan red green : list SparseNode) (n : nat) :
  let once := combine_channels cyan red green n in
  length once = length cyan
  /\ (forall p, (n <= p)%nat -> once !! p = cyan !! p)
  /\ combine_channels once red green n = once.
Proof.
  intros once. subst once. split; [apply combine_channels_length|]. split.
  - intros p Hp. rewrite combine_channels_lookup.
    destruct (decide (p < n)%nat); [lia|reflexivity].
  - apply list_eq. intros p. rewrite combine_channels_lookup.
    destruct (decide (p < n)%nat) as [Hp|Hp]; [|reflexivity].
    unfold combine_step at 1.
    destruct (red !! p) as [r|] eqn:Hr; [|reflexivity].
    destruct (green !! p) as [g|] eqn:Hg; [|reflexivity].
    destruct (active r && active g) eqn:Hact; [|reflexivity].
    rewrite (combine_channels_lookup cyan red green n p).
    destruct (decide (p < n)%nat); [|lia].
    unfold combine_step. rewrite Hr, Hg, Hact.
    destruct (decide (p < length cyan)%nat).
    + rewrite !list_lookup_insert_eq; [reflexivity|lia|].
      rewrite combine_channels_length. lia.
    + rewrite !list_insert_ge; [|lia|rewrite combine_channels_length; lia].
      rewrite combine_channels_lookup. destruct (decide (p < n)%nat); [|lia].
      unfold combine_step. rewrite Hr, Hg, Hact. by rewrite list_insert_ge by lia.
Qed.

Lemma linear_index_value (a b c : Z) :
  0 <= a < 10 -> 0 <= b < 10 -> 0 <= c < 10 ->
  linear_index a b c = (100 * a + 10 * b + c) mod 256.
Proof.
  intros Ha Hb Hc. unfold linear_index.
  rewrite (CIntFacts.wrap_id (a * 100)) by (apply small_in_int_wide; lia).
  rewrite (CIntFacts.wrap_id (b * 10)) by (apply small_in_int_wide; lia).
  rewrite (CIntFacts.wrap_id (a * 100 + b * 10)) by (apply small_in_int_wide; lia).
  rewrite (CIntFacts.wrap_id (a * 100 + b * 10 + c)) by (apply small_in_int_wide; lia).
  change ACTIVE_SIZE with 256. rewrite Z.rem_mod_nonneg by lia. f_equal. lia.
Qed.

Lemma linear_index_mod4 (a b c : Z) :
  0 <= a < 10 -> 0 <= b < 10 -> 0 <= c < 10 ->
  linear_index a b c mod 4 = (2 * b + c) mod 4.
Proof.
  intros Ha Hb Hc. rewrite linear_index_value by done.
  rewrite Z.mod_mod_divide by (exists 64; lia).
  replace (100 * a + 10 * b + c) with (2 * b + c + (25 * a + 2 * b) * 4) by lia.
  apply Z.mod_add. lia.
Qed.

(** X7.  For coordinates in 0..9 the linear index is
    [(100 i + 10 j + k) mod 256], a slot of the grid; its remainder modulo
    4 is that of [2 j + k], so it does not depend on [i]; and the index is
    not injective: (2,5,6) lands on the slot of (0,0,0). *)
Theorem linear_index_digits (a b c : Z) :
  0 <= a < 10 -> 0 <= b < 10 -> 0 <= c < 10 ->
  linear_index a b c = (100 * a + 10 * b + c) mod 256
  /\ 0 <= linear_index a b c < ACTIVE_SIZE
  /\ linear_index a b c mod 4 = (2 * b + c) mod 4
  /\ linear_index 2 5 6 = linear_index 0 0 0.
Proof.
  intros Ha Hb Hc.
  pose proof (linear_index_value a b c Ha Hb Hc) as Hlin.
  split; [exact Hlin|]. split; [|split; [|by vm_compute]].
  - rewrite Hlin. change ACTIVE_SIZE with 256. apply Z.mod_pos_bound. lia.
  - by apply linear_index_mod4.
Qed.

Lemma linear_index_digits_witness : linear_index 1 1 0 = 110.
Proof.
  rewrite (proj1 (linear_index_digits 1 1 0 ltac:(lia) ltac:(lia) ltac:(lia))).
  reflexivity.
Defined.

End PacketFacts.

(** ** What a protocol cycle samples *)

Module SamplingFacts.

Import Minimal MinimalDefs MinimalMoreDefs CombinerSpec ProtocolSpec.

Lemma digits_fit a b c :
  0 <= a < 10 -> 0 <= b < 10 -> 0 <= c < 10 -> fits_int (a, b, c).
Proof. unfold fits_int, CInt.INT_MAX. lia. Qed.

Section WithLibC.
Context {libc : LibC}.

(** X8.  In a freshly initialised grid the cells a protocol cycle samples
    for coordinates in 0..9 exist, the red and the green one are active
    together, and they are active exactly when [2 j + k] is a multiple of
    4, whatever [i] is. *)
Theorem sampled_slot_active (mem : TomographicGrid) (gen : rng) (a b c : Z) :
  wf_grid mem ->
  0 <= a < 10 -> 0 <= b < 10 -> 0 <= c < 10 ->
  let grid := fst (init_sparse_grid mem gen) in
  exists r g,
    read (red grid) (linear_index a b c) = Some r
    /\ read (green grid) (linear_index a b c) = Some g
    /\ active r = ((2 * b + c) mod 4 =? 0)
    /\ active g = active r.
Proof.
  intros Hwf Ha Hb Hc grid. subst grid.
  destruct (MinimalInitFacts.init_sparse_grid_unfold mem gen Hwf)
    as (reds & greens & blues & -> & _ & _ & _ & _ & Hdone).
  cbn [red green].
  pose proof (linear_index_in_bounds a b c (digits_fit a b c Ha Hb Hc)) as Hlin.
  change ACTIVE_SIZE with 256 in Hlin.
  assert (Hmod : linear_index a b c mod 4 = (2 * b + c) mod 4).
  { apply PacketFacts.linear_index_mod4; done. }
  destruct (Hdone (Z.to_nat (linear_index a b c)) ltac:(lia))
    as (r & g & _ & Hr & Hg & _ & (Har & _) & (Hag & _) & _).
  exists r, g. unfold read.
  destruct (Z.ltb_spec (linear_index a b c) 0); [lia|].
  split; [exact Hr|]. split; [exact Hg|]. split; [|congruence].
  rewrite Har. unfold marked. rewrite Z2Nat.id by lia.
  change SPARSE_FACTOR with 4. by rewrite Hmod.
Qed.

End WithLibC.

(** The slot of (1,1,0) in a grid built in zeroed memory: 2*1 + 0 is not
    a multiple of 4, the cells are inactive. *)
Lemma sampled_slot_active_witness :
  exists r, read (red sample_grid) (linear_index 1 1 0) = Some r /\ active r = false.
Proof.
  destruct (@sampled_slot_active counting_libc blank_grid 0%nat 1 1 0
              ltac:(by vm_compute) ltac:(lia) ltac:(lia) ltac:(lia))
    as (r & g & Hr & _ & Har & _).
  exists r. split; [exact Hr|exact Har].
Defined.

Lemma slot_bytes_length grid t : (length (slot_bytes grid t) <= 2)%nat.
Proof.
  destruct t as [[a b] c]. unfold slot_bytes.
  destruct (read (red grid) _) as [r|]; [|cbn; lia].
  destruct (read (green grid) _) as [g|]; [|cbn; lia].
  destruct (active r), (active g); cbn; lia.
Qed.

(** One iteration of the encoding loop appends the bytes of its slot. *)
Lemma encode_step_bytes grid idx bytes p t :
  wf_grid grid -> fits_int t ->
  permutations idx !! p = Some t ->
  Z.of_nat (length bytes) + 2 <= PACKET_CAPACITY ->
  encode_step grid idx (Some (bytes, Z.of_nat (length bytes))) p
  = Some (bytes ++ slot_bytes grid t,
          Z.of_nat (length (bytes ++ slot_bytes grid t))).
Proof.
  intros (Hred & Hgreen & _) Hfit Hperm Hroom. destruct t as [[a b] c].
  pose proof (linear_index_in_bounds a b c Hfit) as Hlin.
  destruct (read_in_bounds (red grid) (linear_index a b c)) as [r Hr];
    [rewrite Hred, Z2Nat.id by done; exact Hlin|].
  destruct (read_in_bounds (green grid) (linear_index a b c)) as [g Hg];
    [rewrite Hgreen, Z2Nat.id by done; exact Hlin|].
  rewrite (encode_step_eq _ _ _ _ _ _ _ _ _ Hperm Hr Hg).
  unfold slot_bytes. rewrite Hr, Hg.
  destruct (active r), (active g).
  - rewrite push_ok by lia.
    rewrite push_ok by (rewrite length_app, Nat2Z.inj_add; cbn [length]; lia).
    by rewrite <- app_assoc.
  - rewrite push_ok by lia. by rewrite app_nil_r.
  - rewrite push_ok by lia. reflexivity.
  - by rewrite !app_nil_r.
Qed.

Lemma encode_fold_bytes grid idx ps : forall ts bytes,
  wf_grid grid ->
  Forall2 (fun p t => permutations idx !! p = Some t /\ fits_int t) ps ts ->
  Z.of_nat (length bytes) + 2 * Z.of_nat (length ps) <= PACKET_CAPACITY ->
  fold_left (encode_step grid idx) ps (Some (bytes, Z.of_nat (length bytes)))
  = Some (bytes ++ concat (slot_bytes grid <$> ts),
          Z.of_nat (length (bytes ++ concat (slot_bytes grid <$> ts)))).
Proof.
  induction ps as [|p ps IH]; intros ts bytes Hwf Hall Hroom.
  - apply Forall2_nil_inv_l in Hall as ->. cbn. by rewrite app_nil_r.
  - apply Forall2_cons_inv_l in Hall as (t & ts' & [Hperm Hfit] & Hall & ->).
    cbn [length] in Hroom. cbn [fold_left].
    rewrite (encode_step_bytes grid idx bytes p t Hwf Hfit Hperm) by lia.
    rewrite IH with (ts := ts'); [|done|done|].
    + cbn [fmap list_fmap concat]. by rewrite <- app_assoc.
    + pose proof (slot_bytes_length grid t). rewrite length_app. lia.
Qed.

(** X9.  For a well-formed grid and an index whose six stored
    permutations fit [int], the packet of a protocol cycle holds, for the
    six permutations in their stored order, the red byte of the sampled
    slot if its red cell is active and then the green byte if its green
    cell is active, and nothing else; [length] counts those bytes; and
    when no sampled cell is active the packet is empty and its entropy is
    +0, with the risk vector and the verdict still reported. *)
Theorem protocol_cycle_packet (grid : TomographicGrid) (idx : TomographicIndex) :
  wf_grid grid ->
  length (permutations idx) = 6%nat ->
  Forall fits_int (permutations idx) ->
  exists packet avg verdict,
    nsigii_protocol_cycle grid idx = Some (packet, avg, verdict)
    /\ data packet = concat (slot_bytes grid <$> permutations idx)
    /\ plength packet = Z.of_nat (length (data packet))
    /\ (Forall (fun t => slot_bytes grid t = []) (permutations idx) ->
          data packet = [] /\ plength packet = 0 /\ pentropy packet = F32.zero).
Proof.
  intros Hwf Hsix Hfit.
  destruct (permutations idx) as [|t0 [|t1 [|t2 [|t3 [|t4 [|t5 [|t6 rest]]]]]]] eqn:Hperms;
    try discriminate Hsix.
  assert (Hall : Forall2 (fun p t => permutations idx !! p = Some t /\ fits_int t)
                   (seq 0 6) [t0; t1; t2; t3; t4; t5]).
  { rewrite Hperms. rewrite Forall_lookup in Hfit. cbn [seq].
    constructor; [split; [reflexivity|exact (Hfit 0%nat _ eq_refl)]|].
    constructor; [split; [reflexivity|exact (Hfit 1%nat _ eq_refl)]|].
    constructor; [split; [reflexivity|exact (Hfit 2%nat _ eq_refl)]|].
    constructor; [split; [reflexivity|exact (Hfit 3%nat _ eq_refl)]|].
    constructor; [split; [reflexivity|exact (Hfit 4%nat _ eq_refl)]|].
    constructor; [split; [reflexivity|exact (Hfit 5%nat _ eq_refl)]|].
    constructor. }
  pose proof (encode_fold_bytes grid idx (seq 0 6) _ [] Hwf Hall) as Henc.
  rewrite length_seq in Henc. cbn [length app] in Henc.
  change (Z.of_nat 0) with 0 in Henc.
  specialize (Henc ltac:(unfold PACKET_CAPACITY; lia)).
  unfold nsigii_protocol_cycle, encode. rewrite Henc.
  do 3 eexists. split; [reflexivity|]. cbn [data plength pentropy].
  split; [reflexivity|]. split; [reflexivity|].
  intros Hnone.
  assert (Hempty : concat (slot_bytes grid <$> [t0; t1; t2; t3; t4; t5]) = []).
  { clear -Hnone. induction Hnone as [|t ts Ht _ IH]; [reflexivity|].
    cbn [fmap list_fmap concat]. by rewrite Ht, IH. }
  rewrite Hempty. by vm_compute.
Qed.

(** The sample grid at the origin: all six permutations sample slot 0,
    where red holds 1 and green holds 2. *)
Lemma protocol_cycle_packet_witness :
  exists packet avg verdict,
    nsigii_protocol_cycle sample_grid (init_tomographic_index 0 0 0)
    = Some (packet, avg, verdict)
    /\ data packet = [1; 2; 1; 2; 1; 2; 1; 2; 1; 2; 1; 2].
Proof.
  assert (Hfit : Forall fits_int (permutations (init_tomographic_index 0 0 0))).
  { unfold init_tomographic_index, fits_int, CInt.INT_MAX. cbn.
    repeat (apply Forall_cons; split; [lia|]). apply Forall_nil_2. }
  destruct (protocol_cycle_packet sample_grid (init_tomographic_index 0 0 0)
              ltac:(by vm_compute) eq_refl Hfit)
    as (packet & avg & verdict & Hcycle & Hdata & _).
  exists packet, avg, verdict. split; [exact Hcycle|].
  rewrite Hdata. by vm_compute.
Defined.

End SamplingFacts.

(** ** The observer *)

Module ObserverFacts.

Import Minimal MinimalDefs MinimalMoreDefs MinimalMain MinimalDecide Convert ProtocolSpec.

Lemma read_lookup {A} (cells : list A) z x :
  read cells z = Some x -> 0 <= z /\ cells !! Z.to_nat z = Some x.
Proof.
  unfold read. destruct (Z.ltb_spec z 0); [discriminate|]. by split.
Qed.

Lemma to_uint8_byte x z : to_uint8 x = Some z -> 0 <= z < 256.
Proof.
  unfold to_uint8. destruct (truncate x) as [t|]; [|discriminate].
  destruct (Z.leb_spec 0 t), (Z.leb_spec t 255); cbn; intros [= <-]; lia.
Qed.

Lemma active_insert_value (cells : list SparseNode) n node v :
  cells !! n = Some node ->
  active <$> <[n := set_value node v]> cells = active <$> cells.
Proof.
  intros Hn. rewrite list_fmap_insert. apply list_insert_id.
  by rewrite list_lookup_fmap, Hn.
Qed.

Lemma channel_cells_set grid ch cells ch' :
  channel_cells (set_channel_cells grid ch cells) ch'
  = if decide (ch' = ch) then cells else channel_cells grid ch'.
Proof.
  destruct ch, ch'; cbn; try reflexivity;
    destruct (decide _) as [?|?]; try reflexivity; congruence.
Qed.

Section WithSinf.
Context {libm : LibM32}.

(** What one call of the observer does to a grid, when it returns. *)
Lemma observer_consume_result grid idx t ch grid' t' :
  observer_consume grid idx t ch = Some (grid', t') ->
  exists node,
    read (channel_cells grid ch) (linear_index (i idx) (j idx) (k idx)) = Some node
    /\ ((active node = false /\ grid' = grid /\ t' = t)
        \/ (active node = true /\ t' = F32.add t (F32.dec 1 1)
            /\ exists v, 0 <= v < 256
               /\ grid' = set_channel_cells grid ch
                            (<[Z.to_nat (linear_index (i idx) (j idx) (k idx))
                               := set_value node v]> (channel_cells grid ch)))).
Proof.
  unfold observer_consume.
  destruct (read (channel_cells grid ch) _) as [node|] eqn:Hread; [|discriminate].
  destruct (active node) eqn:Hact.
  - destruct (to_uint8 _) as [byte|] eqn:Hbyte; [|discriminate].
    intros [= <- <-]. exists node. split; [reflexivity|].
    right. split; [exact Hact|]. split; [reflexivity|].
    exists (CInt.u8 (Z.rem byte 256)). split; [apply CIntFacts.u8_range|reflexivity].
  - intros [= <- <-]. exists node. split; [reflexivity|]. by left.
Qed.

(** X10.  [observer_consume] is defined on every well-formed grid at an
    index with coordinates in 0..9 up to the cast of the wave: its slot is
    inside the arrays.  On an inactive cell it returns having changed
    nothing, time included.  When it returns it has kept the grid well
    formed, the counter, the active flag of every cell and every cell of
    the three other channels; in its own channel it has changed at most
    the value of the one cell at the linear index of the current triple,
    to a byte, keeping the tag, polarity and risk vector of the cell. *)
Theorem observer_consume_frame (grid : TomographicGrid) (idx : TomographicIndex)
    (t : F32.float) (ch : DataChannel) :
  wf_grid grid -> in_range idx ->
  let slot := linear_index (i idx) (j idx) (k idx) in
  (exists node, read (channel_cells grid ch) slot = Some node
     /\ (active node = false -> observer_consume grid idx t ch = Some (grid, t)))
  /\ (forall grid' t',
        observer_consume grid idx t ch = Some (grid', t') ->
        wf_grid grid'
        /\ same_active grid grid'
        /\ active_count grid' = active_count grid
        /\ (forall ch', ch' = ch \/ channel_cells grid' ch' = channel_cells grid ch')
        /\ (forall p, p <> Z.to_nat slot ->
              channel_cells grid' ch !! p = channel_cells grid ch !! p)
        /\ (exists node node',
              channel_cells grid ch !! Z.to_nat slot = Some node
              /\ channel_cells grid' ch !! Z.to_nat slot = Some node'
              /\ (active node', channel node', polarity node', vector node')
                 = (active node, channel node, polarity node, vector node)
              /\ (value node' = value node \/ 0 <= value node' < 256))).
Proof.
  intros Hwf Hrange slot.
  destruct Hrange as (Hi & Hj & Hk).
  pose proof (linear_index_in_bounds _ _ _
                (SamplingFacts.digits_fit _ _ _ Hi Hj Hk)) as Hslot.
  fold slot in Hslot. split.
  - destruct (read_in_bounds (channel_cells grid ch) slot) as [node Hnode].
    { destruct Hwf as (Hr & Hg & Hb & Hc).
      destruct ch; cbn [channel_cells]; rewrite ?Hr, ?Hg, ?Hb, ?Hc, Z2Nat.id;
        done. }
    exists node. split; [exact Hnode|]. intros Hoff.
    unfold observer_consume. fold slot. by rewrite Hnode, Hoff.
  - intros grid' t' Hres.
    destruct (observer_consume_result _ _ _ _ _ _ Hres) as (node & Hread & Hcases).
    fold slot in Hread, Hcases.
    apply read_lookup in Hread as [_ Hlook].
    destruct Hcases as [(_ & -> & _)|(Hon & _ & v & Hv & ->)].
    + split; [exact Hwf|]. split; [done|]. split; [reflexivity|].
      split; [by right|]. split; [done|].
      exists node, node. split; [exact Hlook|]. split; [exact Hlook|].
      split; [reflexivity|by left].
    + destruct Hwf as (Hr & Hg & Hb & Hc).
      split; [|split; [|split; [|split; [|split]]]].
      * unfold wf_grid.
        destruct ch; cbn [set_channel_cells channel_cells red green blue cyan];
          rewrite ?length_insert; done.
      * unfold same_active.
        destruct ch; cbn [set_channel_cells channel_cells red green blue cyan] in *;
          rewrite ?(active_insert_value _ _ _ _ Hlook); done.
      * by destruct ch.
      * intros ch'. rewrite channel_cells_set.
        destruct (decide (ch' = ch)); [by left|by right].
      * intros p Hp. rewrite channel_cells_set.
        destruct (decide (ch = ch)); [|done].
        by rewrite list_lookup_insert_ne.
      * exists node, (set_value node v). split; [exact Hlook|].
        rewrite channel_cells_set. destruct (decide (ch = ch)); [|done].
        split; [apply list_lookup_insert_eq; by eapply lookup_lt_Some|].
        split; [reflexivity|by right].
Qed.

End WithSinf.

(** The red cell of slot 0 of the sample grid is active, and the observer
    returns on it with the identity for [sinf]. *)
Lemma observer_consume_frame_witness :
  exists grid' t',
    @observer_consume identity_libm sample_grid (init_tomographic_index 0 0 0)
      F32.zero RED_CHANNEL = Some (grid', t')
    /\ wf_grid grid'.
Proof.
  assert (Hwf : wf_grid sample_grid) by (by vm_compute).
  assert (Hrange : in_range (init_tomographic_index 0 0 0))
    by (unfold in_range; cbn; lia).
  destruct (@observer_consume identity_libm sample_grid (init_tomographic_index 0 0 0)
              F32.zero RED_CHANNEL) as [[grid' t']|] eqn:Hres;
    [|by vm_compute in Hres].
  exists grid', t'. split; [reflexivity|].
  exact (proj1 (proj2 (@observer_consume_frame identity_libm sample_grid
                         (init_tomographic_index 0 0 0) F32.zero RED_CHANNEL
                         Hwf Hrange) grid' t' Hres)).
Defined.

End ObserverFacts.

(** ** The event loop of main *)

Module MainFacts.

Import Minimal MinimalDefs MinimalMoreDefs MinimalMain MinimalDecide MainDefs Convert
       ProtocolSpec.

Lemma same_active_refl grid : same_active grid grid.
Proof. by repeat split. Qed.

Lemma same_active_trans g1 g2 g3 :
  same_active g1 g2 -> same_active g2 g3 -> same_active g1 g3.
Proof.
  intros (H1 & H2 & H3 & H4) (K1 & K2 & K3 & K4).
  repeat split; congruence.
Qed.

Lemma origin_active_same g g' : same_active g g' -> origin_active g -> origin_active g'.
Proof.
  intros (Hr & Hg & _ & _) [Hred Hgreen]. unfold origin_active.
  rewrite <- !list_lookup_fmap in *. by rewrite Hr, Hg.
Qed.

(** The packet of a cycle whose six stored permutations are all (0,0,0):
    the bytes of slot 0 of the grid the cycle runs on. *)
Lemma origin_cycle grid idx :
  wf_grid grid -> origin_active grid ->
  permutations idx = replicate 6 (0, 0, 0) ->
  exists packet avg verdict,
    nsigii_protocol_cycle grid idx = Some (packet, avg, verdict)
    /\ origin_packet grid packet.
Proof.
  intros Hwf [Hred Hgreen] Hperms.
  assert (Hfit : fits_int (0, 0, 0)) by (unfold fits_int, CInt.INT_MAX; lia).
  assert (Hall : Forall2 (fun p t => permutations idx !! p = Some t /\ fits_int t)
                   (seq 0 6) (replicate 6 (0, 0, 0))).
  { rewrite Hperms. cbn [seq replicate].
    repeat (constructor; [split; [reflexivity|exact Hfit]|]). constructor. }
  pose proof (SamplingFacts.encode_fold_bytes grid idx (seq 0 6) _ [] Hwf Hall) as Henc.
  rewrite length_seq in Henc. cbn [length app] in Henc.
  change (Z.of_nat 0) with 0 in Henc.
  specialize (Henc ltac:(unfold PACKET_CAPACITY; lia)).
  unfold nsigii_protocol_cycle, encode. rewrite Henc.
  do 3 eexists. split; [reflexivity|]. unfold origin_packet.
  cbn [data plength pentropy].
  destruct (red grid !! 0%nat) as [r|] eqn:Hr; [|discriminate Hred].
  destruct (green grid !! 0%nat) as [g|] eqn:Hg; [|discriminate Hgreen].
  cbn in Hred, Hgreen. injection Hred as Har. injection Hgreen as Hag.
  assert (Hslot : slot_bytes grid (0, 0, 0) = [value r; value g]).
  { assert (Hrr : read (red grid) (linear_index 0 0 0) = Some r) by exact Hr.
    assert (Hrg : read (green grid) (linear_index 0 0 0) = Some g) by exact Hg.
    unfold slot_bytes. by rewrite Hrr, Hrg, Har, Hag. }
  exists r, g. split; [reflexivity|]. split; [reflexivity|].
  cbn [replicate fmap list_fmap concat].
  rewrite Hslot. split; [reflexivity|]. split; reflexivity.
Qed.

Section WithSinf.
Context {libm : LibM32}.

(** A call of the observer that returns keeps the shape of the grid. *)
Lemma observer_consume_keeps grid idx t ch grid' t' :
  wf_grid grid ->
  observer_consume grid idx t ch = Some (grid', t') ->
  wf_grid grid' /\ same_active grid grid' /\ active_count grid' = active_count grid.
Proof.
  intros Hwf Hres.
  destruct (ObserverFacts.observer_consume_result _ _ _ _ _ _ Hres)
    as (node & Hread & Hcases).
  apply ObserverFacts.read_lookup in Hread as [_ Hlook].
  destruct Hcases as [(_ & -> & _)|(_ & _ & v & _ & ->)].
  - split; [exact Hwf|]. split; [apply same_active_refl|reflexivity].
  - destruct Hwf as (Hr & Hg & Hb & Hc). split; [|split].
    + unfold wf_grid.
      destruct ch; cbn [set_channel_cells channel_cells red green blue cyan];
        rewrite ?length_insert; done.
    + unfold same_active.
      destruct ch; cbn [set_channel_cells channel_cells red green blue cyan] in *;
        rewrite ?(ObserverFacts.active_insert_value _ _ _ _ Hlook); done.
    + by destruct ch.
Qed.

Lemma consume_all_keeps grid idx t grid' t' :
  wf_grid grid ->
  consume_all grid idx t = Some (grid', t') ->
  wf_grid grid' /\ same_active grid grid' /\ active_count grid' = active_count grid.
Proof.
  intros Hwf. unfold consume_all.
  destruct (observer_consume grid idx t RED_CHANNEL) as [[g1 t1]|] eqn:H1;
    [|discriminate].
  destruct (observer_consume g1 idx t1 GREEN_CHANNEL) as [[g2 t2]|] eqn:H2;
    [|discriminate].
  destruct (observer_consume g2 idx t2 BLUE_CHANNEL) as [[g3 t3]|] eqn:H3;
    [|discriminate].
  intros H4.
  destruct (observer_consume_keeps _ _ _ _ _ _ Hwf H1) as (W1 & S1 & C1).
  destruct (observer_consume_keeps _ _ _ _ _ _ W1 H2) as (W2 & S2 & C2).
  destruct (observer_consume_keeps _ _ _ _ _ _ W2 H3) as (W3 & S3 & C3).
  destruct (observer_consume_keeps _ _ _ _ _ _ W3 H4) as (W4 & S4 & C4).
  split; [exact W4|]. split; [|congruence].
  eauto using same_active_trans.
Qed.

(** One iteration of the loop keeps the invariant, relative to the grid
    [g0] the loop started from.  It appends nothing to the packets unless
    the event is Enter; then it appends one packet, the bytes of slot 0 of
    the grid as the iteration found it. *)
Lemma main_step_keeps g0 st ev st' :
  loop_invariant g0 st ->
  main_step (Some st) ev = Some st' ->
  loop_invariant g0 st'
  /\ (ev <> EVENT_ENTER -> m_packets st' = m_packets st)
  /\ (ev = EVENT_ENTER ->
      exists packet,
        m_packets st' = m_packets st ++ [packet]
        /\ origin_packet (m_grid st) packet).
Proof.
  intros (Hwf & Hrange & Hperms & Hsame & Horigin & Hcount) Hstep.
  assert (Hrange' : in_range (handle_trident_event ev (m_grid st) (m_idx st)))
    by (by apply NavigationSpec.handle_trident_event_in_range).
  assert (Hperms' : permutations (handle_trident_event ev (m_grid st) (m_idx st))
                    = replicate 6 (0, 0, 0))
    by (by rewrite NavigationSpec.handle_trident_event_permutations).
  unfold main_step in Hstep.
  destruct (decide (ev = EVENT_ENTER)) as [->|Hne].
  - destruct (origin_cycle (m_grid st)
                (handle_trident_event EVENT_ENTER (m_grid st) (m_idx st)) Hwf
                (origin_active_same _ _ Hsame Horigin) Hperms')
      as (packet & avg & verdict & Hcycle & Hpacket).
    rewrite Hcycle in Hstep.
    destruct (consume_all _ _ _) as [[grid t]|] eqn:Hconsume; [|discriminate].
    injection Hstep as <-. cbn [m_grid m_idx m_time m_packets].
    destruct (consume_all_keeps _ _ _ _ _ Hwf Hconsume) as (W & S & C).
    split; [|split; [done|intros _; by exists packet]].
    unfold loop_invariant. cbn [m_grid m_idx m_time m_packets].
    split; [exact W|]. split; [exact Hrange'|]. split; [exact Hperms'|].
    split; [by eapply same_active_trans|]. split; [exact Horigin|congruence].
  - assert (Hst' : st' = {| m_grid := m_grid st;
                            m_idx := handle_trident_event ev (m_grid st) (m_idx st);
                            m_time := m_time st; m_packets := m_packets st |})
      by (destruct ev; congruence).
    rewrite Hst'. cbn [m_grid m_idx m_time m_packets].
    split; [|split; [done|done]].
    unfold loop_invariant. cbn [m_grid m_idx m_time m_packets].
    exact (conj Hwf (conj Hrange' (conj Hperms' (conj Hsame (conj Horigin Hcount))))).
Qed.

Lemma main_step_none events : fold_left main_step events None = None.
Proof. induction events as [|ev events IH]; [reflexivity|exact IH]. Qed.

Lemma enters_cons ev events :
  enters (ev :: events) = (enters [ev] + enters events)%nat.
Proof.
  unfold enters. change (ev :: events) with ([ev] ++ events).
  by rewrite filter_app, length_app.
Qed.

Lemma enters_one ev : enters [ev] = if decide (ev = EVENT_ENTER) then 1%nat else 0%nat.
Proof.
  unfold enters. rewrite filter_cons, filter_nil.
  by destruct (decide (ev = EVENT_ENTER)).
Qed.

(** The loop keeps the invariant and only appends packets, one for each
    Enter event. *)
Lemma main_fold_keeps g0 events : forall st st',
  loop_invariant g0 st ->
  fold_left main_step events (Some st) = Some st' ->
  loop_invariant g0 st'
  /\ exists more, m_packets st' = m_packets st ++ more
                  /\ length more = enters events.
Proof.
  induction events as [|ev events IH]; intros st st' Hinv Hfold.
  - injection Hfold as <-. split; [exact Hinv|].
    exists []. by rewrite app_nil_r.
  - cbn [fold_left] in Hfold.
    destruct (main_step (Some st) ev) as [st1|] eqn:Hstep;
      [|by rewrite main_step_none in Hfold].
    destruct (main_step_keeps g0 st ev st1 Hinv Hstep) as (Hinv1 & Hsame & Henter).
    destruct (IH st1 st' Hinv1 Hfold) as (Hinv' & more & Hmore & Hlen).
    split; [exact Hinv'|]. rewrite enters_cons, enters_one.
    destruct (decide (ev = EVENT_ENTER)) as [Hev|Hev].
    + destruct (Henter Hev) as (packet & Hp & _).
      exists (packet :: more). rewrite Hmore, Hp, <- app_assoc.
      split; [reflexivity|]. cbn [length]. lia.
    + exists more. rewrite Hmore, (Hsame Hev). split; [reflexivity|]. lia.
Qed.

(** A run over [pre], an Enter and [post] passes through the state after
    [pre]; the packet of that Enter, number [enters pre] of the run, holds
    the bytes of slot 0 of the grid of that state. *)
Lemma main_fold_enter g0 pre post : forall st st',
  loop_invariant g0 st ->
  fold_left main_step (pre ++ EVENT_ENTER :: post) (Some st) = Some st' ->
  exists before packet,
    fold_left main_step pre (Some st) = Some before
    /\ m_packets st' !! (length (m_packets st) + enters pre)%nat = Some packet
    /\ origin_packet (m_grid before) packet.
Proof.
  intros st st' Hinv Hfold. rewrite fold_left_app in Hfold. cbn [fold_left] in Hfold.
  destruct (fold_left main_step pre (Some st)) as [before|] eqn:Hpre;
    [|by rewrite main_step_none in Hfold].
  destruct (main_step (Some before) EVENT_ENTER) as [mid|] eqn:Hmid;
    [|by rewrite main_step_none in Hfold].
  destruct (main_fold_keeps g0 pre st before Hinv Hpre) as (Hinv1 & m1 & Hm1 & Hl1).
  destruct (main_step_keeps g0 before EVENT_ENTER mid Hinv1 Hmid)
    as (Hinv2 & _ & Henter).
  destruct (Henter eq_refl) as (packet & Hp & Hpacket).
  destruct (main_fold_keeps g0 post mid st' Hinv2 Hfold) as (_ & m2 & Hm2 & _).
  exists before, packet. split; [reflexivity|]. split; [|exact Hpacket].
  rewrite Hm2, Hp, Hm1, <- !app_assoc. cbn [app].
  rewrite app_assoc, <- Hl1, <- length_app. apply list_lookup_middle. reflexivity.
Qed.

End WithSinf.

End MainFacts.

(** ** Runs of the event loop *)

Module MainRun.

Import Minimal MinimalDefs MinimalMoreDefs MinimalMain MinimalDecide MainDefs Convert
       ProtocolSpec MainFacts.

Section WithLibs.
Context {libc : LibC} {libm : LibM32}.

Lemma init_origin_active mem gen :
  wf_grid mem -> origin_active (fst (init_sparse_grid mem gen)).
Proof.
  intros Hwf.
  destruct (MinimalInitFacts.init_sparse_grid_unfold mem gen Hwf)
    as (reds & greens & blues & -> & _ & _ & _ & _ & Hdone).
  destruct (Hdone 0%nat ltac:(lia))
    as (r & g & _ & Hr & Hg & _ & (Har & _) & (Hag & _) & _).
  unfold origin_active. cbn [red green].
  rewrite Hr, Hg. cbn. by rewrite Har, Hag.
Qed.

Lemma init_wf mem gen :
  wf_grid mem ->
  wf_grid (fst (init_sparse_grid mem gen))
  /\ active_count (fst (init_sparse_grid mem gen)) = 64.
Proof.
  intros Hwf.
  destruct (MinimalInitFacts.init_sparse_grid_unfold mem gen Hwf)
    as (reds & greens & blues & -> & _ & Hr & Hg & Hb & _).
  destruct Hwf as (_ & _ & _ & Hc). split; [|reflexivity].
  unfold wf_grid. cbn [red green blue cyan].
  rewrite CombinerSpec.combine_channels_length. by repeat split.
Qed.

(** The loop of [main] starts in a state that meets its invariant. *)
Lemma main_start mem gen :
  wf_grid mem ->
  loop_invariant (fst (init_sparse_grid mem gen))
    {| m_grid := fst (init_sparse_grid mem gen);
       m_idx := init_tomographic_index 0 0 0;
       m_time := F32.zero; m_packets := [] |}.
Proof.
  intros Hwf. destruct (init_wf mem gen Hwf) as [Hwf0 _].
  unfold loop_invariant. cbn [m_grid m_idx m_time m_packets].
  split; [exact Hwf0|]. split; [unfold in_range; cbn; lia|].
  split; [reflexivity|]. split; [apply same_active_refl|].
  split; [by apply init_origin_active|reflexivity].
Qed.

(** X11.  Whatever the events, when the loop of [main] runs to its end:
    the grid is still well formed with the cells active that
    initialisation made active and the counter 64; the index has its
    coordinates in 0..9 and still stores the permutations of (0,0,0); there
    is one packet for each Enter event; and the packet of each Enter,
    wherever the index had moved, holds twelve bytes, the red and the
    green byte of slot 0 six times over, as slot 0 of the grid held them
    when that Enter arrived, with their mean as entropy. *)
Theorem main_loop_invariants (events : list TridentEvent) (mem : TomographicGrid)
    (gen : rng) (st : MainState) :
  wf_grid mem ->
  main_loop events mem gen = Some st ->
  wf_grid (m_grid st)
  /\ same_active (fst (init_sparse_grid mem gen)) (m_grid st)
  /\ active_count (m_grid st) = 64
  /\ in_range (m_idx st)
  /\ permutations (m_idx st) = replicate 6 (0, 0, 0)
  /\ length (m_packets st) = enters events
  /\ (forall pre post, events = pre ++ EVENT_ENTER :: post ->
      exists before packet,
        main_loop pre mem gen = Some before
        /\ m_packets st !! enters pre = Some packet
        /\ origin_packet (m_grid before) packet).
Proof.
  intros Hwf Hrun. unfold main_loop in *.
  pose proof (main_start mem gen Hwf) as Hstart.
  destruct (init_wf mem gen Hwf) as [_ Hcount0].
  revert Hrun Hstart Hcount0.
  generalize (fst (init_sparse_grid mem gen)). intros g0 Hrun Hstart Hcount0.
  destruct (main_fold_keeps g0 events _ st Hstart Hrun)
    as ((W & R & P & S & _ & C) & more & Hmore & Hlen).
  cbn [m_packets app] in Hmore.
  split; [exact W|]. split; [exact S|]. split; [congruence|]. split; [exact R|].
  split; [exact P|]. split; [by rewrite Hmore|].
  intros pre post ->.
  exact (main_fold_enter g0 pre post _ st Hstart Hrun).
Qed.

Lemma observer_noop grid idx t ch node :
  read (channel_cells grid ch) (linear_index (i idx) (j idx) (k idx)) = Some node ->
  active node = false ->
  observer_consume grid idx t ch = Some (grid, t).
Proof. intros Hread Hoff. unfold observer_consume. by rewrite Hread, Hoff. Qed.

(** The eight events of [main] on a grid whose four cells of slot 110 are
    inactive. *)
Lemma main_events_run grid :
  wf_grid grid -> origin_active grid ->
  (forall ch, exists node,
      channel_cells grid ch !! 110%nat = Some node /\ active node = false) ->
  exists packet,
    origin_packet grid packet
    /\ fold_left main_step main_events
         (Some {| m_grid := grid; m_idx := init_tomographic_index 0 0 0;
                  m_time := F32.zero; m_packets := [] |})
       = Some {| m_grid := grid;
                 m_idx := {| i := 0; j := 0; k := 9;
                             permutations := replicate 6 (0, 0, 0) |};
                 m_time := F32.zero; m_packets := [packet] |}.
Proof.
  intros Hwf Horigin Hoff.
  set (idx3 := {| i := 1; j := 1; k := 0; permutations := replicate 6 (0, 0, 0) |}).
  destruct (origin_cycle grid idx3 Hwf Horigin eq_refl)
    as (packet & avg & verdict & Hcycle & Hpacket).
  exists packet. split; [exact Hpacket|].
  change (fold_left main_step main_events ?s)
    with (fold_left main_step [EVENT_LEFT; EVENT_DOWN; EVENT_BACK; EVENT_STOP]
            (main_step (fold_left main_step [EVENT_START; EVENT_RIGHT; EVENT_UP] s)
               EVENT_ENTER)).
  assert (H3 : fold_left main_step [EVENT_START; EVENT_RIGHT; EVENT_UP]
                 (Some {| m_grid := grid; m_idx := init_tomographic_index 0 0 0;
                          m_time := F32.zero; m_packets := [] |})
               = Some {| m_grid := grid; m_idx := idx3; m_time := F32.zero;
                         m_packets := [] |}) by (by vm_compute).
  rewrite H3.
  assert (Hconsume : consume_all grid idx3 F32.zero = Some (grid, F32.zero)).
  { unfold consume_all.
    assert (Hnoop : forall ch, observer_consume grid idx3 F32.zero ch
                               = Some (grid, F32.zero)).
    { intros ch. destruct (Hoff ch) as (node & Hnode & Hnodeoff).
      apply (observer_noop grid idx3 F32.zero ch node); [|exact Hnodeoff].
      exact Hnode. }
    by rewrite !Hnoop. }
  assert (H4 : main_step (Some {| m_grid := grid; m_idx := idx3; m_time := F32.zero;
                                  m_packets := [] |}) EVENT_ENTER
               = Some {| m_grid := grid; m_idx := idx3; m_time := F32.zero;
                         m_packets := [packet] |}).
  { unfold main_step. cbn [m_grid m_idx m_time m_packets handle_trident_event].
    by rewrite Hcycle, Hconsume. }
  rewrite H4. by vm_compute.
Qed.

(** X12.  The run of [main] itself, for every starting memory whose cyan
    cell of slot 110 is inactive, every [rand()] and every [sinf]: it runs
    to its end; its one protocol cycle, at the triple (1,1,0), packs the
    red and the green byte of slot 0 of the initialised grid, six times
    over, with their mean as entropy; the observer finds the cells of slot
    110 inactive in all four channels, so it changes no value and its time
    stays 0; and the grid at the end is the grid initialisation built,
    with the index at (0,0,9). *)
Theorem main_run (mem : TomographicGrid) (gen : rng) (stale : SparseNode) :
  wf_grid mem ->
  cyan mem !! 110%nat = Some stale -> active stale = false ->
  exists packet,
    origin_packet (fst (init_sparse_grid mem gen)) packet
    /\ main_loop main_events mem gen
       = Some {| m_grid := fst (init_sparse_grid mem gen);
                 m_idx := {| i := 0; j := 0; k := 9;
                             permutations := replicate 6 (0, 0, 0) |};
                 m_time := F32.zero; m_packets := [packet] |}.
Proof.
  intros Hwf Hstale Hoff. unfold main_loop.
  apply main_events_run.
  - exact (proj1 (init_wf mem gen Hwf)).
  - by apply init_origin_active.
  - destruct (MinimalInitFacts.init_sparse_grid_unfold mem gen Hwf)
      as (reds & greens & blues & -> & _ & _ & _ & _ & Hdone).
    destruct (Hdone 110%nat ltac:(lia))
      as (r & g & b & Hr & Hg & Hb & (Har & _) & (Hag & _) & (Hab & _)).
    intros [| | |]; cbn [channel_cells red green blue cyan].
    + by exists r.
    + by exists g.
    + by exists b.
    + exists stale. split; [|exact Hoff].
      rewrite (CombinerSpec.combine_channels_no_consensus _ _ _ _ _ r g Hr Hg);
        [exact Hstale|by rewrite Har].
Qed.

(** The first three events of [main] move the index to (1,1,0) and touch
    nothing else. *)
Lemma main_loop_three mem gen :
  main_loop [EVENT_START; EVENT_RIGHT; EVENT_UP] mem gen
  = Some {| m_grid := fst (init_sparse_grid mem gen);
            m_idx := {| i := 1; j := 1; k := 0;
                        permutations := replicate 6 (0, 0, 0) |};
            m_time := F32.zero; m_packets := [] |}.
Proof.
  unfold main_loop. generalize (fst (init_sparse_grid mem gen)). intros g0.
  by vm_compute.
Qed.

End WithLibs.

Lemma blank_grid_wf : wf_grid blank_grid.
Proof. by vm_compute. Qed.

(** Slot 0 of the grid built in zeroed memory with [rand()] returning 1,
    2, 3, ...: the red byte 1 and the green byte 2. *)
Lemma sample_origin :
  (value <$> red sample_grid !! 0%nat, value <$> green sample_grid !! 0%nat)
  = (Some 1, Some 2).
Proof. by vm_compute. Qed.

Lemma sample_packet packet :
  origin_packet sample_grid packet ->
  data packet = [1; 2; 1; 2; 1; 2; 1; 2; 1; 2; 1; 2].
Proof.
  intros (r & g & Hr & Hg & Hdata & _).
  pose proof sample_origin as Hsample.
  rewrite Hr, Hg in Hsample. injection Hsample as Hvr Hvg.
  by rewrite Hdata, Hvr, Hvg.
Qed.

Lemma main_loop_three_grid {libc : LibC} {libm : LibM32} mem gen before :
  main_loop [EVENT_START; EVENT_RIGHT; EVENT_UP] mem gen = Some before ->
  m_grid before = fst (init_sparse_grid mem gen).
Proof.
  rewrite main_loop_three. intros H. apply (inj Some) in H. subst before. reflexivity.
Qed.

(** The event list of [main] in zeroed memory with the stand-in
    libraries: one Enter after three events, and its packet is the bytes
    1 and 2 of slot 0. *)
Lemma main_loop_invariants_witness :
  exists st packet,
    @main_loop identity_libm counting_libc main_events blank_grid 0%nat = Some st
    /\ m_packets st !! 0%nat = Some packet
    /\ data packet = [1; 2; 1; 2; 1; 2; 1; 2; 1; 2; 1; 2].
Proof.
  destruct (@main_loop identity_libm counting_libc main_events blank_grid 0%nat)
    as [st|] eqn:Hrun; [|by vm_compute in Hrun].
  pose proof blank_grid_wf as Hwf.
  pose proof (@main_loop_invariants counting_libc identity_libm main_events blank_grid
                0%nat st Hwf Hrun) as (_ & _ & _ & _ & _ & _ & Hpackets).
  destruct (Hpackets [EVENT_START; EVENT_RIGHT; EVENT_UP]
              [EVENT_LEFT; EVENT_DOWN; EVENT_BACK; EVENT_STOP] eq_refl)
    as (before & packet & Hbefore & Hlook & Hpacket).
  exists st, packet. split; [reflexivity|]. split; [exact Hlook|].
  rewrite (main_loop_three_grid _ _ _ Hbefore) in Hpacket.
  exact (sample_packet packet Hpacket).
Defined.

Lemma main_run_witness :
  exists st packet,
    @main_loop identity_libm counting_libc main_events blank_grid 0%nat = Some st
    /\ k (m_idx st) = 9
    /\ m_packets st = [packet]
    /\ data packet = [1; 2; 1; 2; 1; 2; 1; 2; 1; 2; 1; 2].
Proof.
  destruct (@main_run counting_libc identity_libm blank_grid 0%nat blank_node
              blank_grid_wf eq_refl eq_refl)
    as (packet & Hpacket & Hrun).
  eexists. exists packet. split; [exact Hrun|]. split; [reflexivity|].
  split; [reflexivity|]. exact (sample_packet packet Hpacket).
Defined.

End MainRun.

(** ** What initialisation stores in each row (dimensional engine) *)

Module DimensionalInitFacts.

Import F64 Dimensional DimensionalDefs DimensionalMoreDefs MinimalMoreDefs.

Lemma fold_left_pointwise {A B} (f g : B -> A -> B) (l : list A) :
  (forall st x, f st x = g st x) -> forall st, fold_left f l st = fold_left g l st.
Proof.
  intros Hfg. induction l as [|x l IH]; intros st; [reflexivity|].
  cbn. by rewrite Hfg, IH.
Qed.

Lemma fold_left_bind {A B C} (f : C -> B -> C) (g : A -> list B) (l : list A) :
  forall st,
    fold_left f (l ≫= g) st = fold_left (fun st x => fold_left f (g x) st) l st.
Proof.
  induction l as [|x l IH]; intros st; [reflexivity|].
  rewrite bind_cons, fold_left_app. cbn [fold_left]. apply IH.
Qed.

(** The code's test and the specification's agree on the grid. *)
Lemma selected_kept :
  filter (fun t => selected t = true) triples = kept_triples.
Proof. by vm_compute. Qed.

Lemma kept_triples_length : length kept_triples = 249%nat.
Proof. by vm_compute. Qed.

Section WithLibC.
Context {libc : LibC}.

Lemma draws_add (a b : nat) (gen : rng) :
  draws (a + b) gen = draws a (draws b gen).
Proof. apply Nat.iter_add. Qed.

Lemma nth_rand_add (a b : nat) (gen : rng) :
  nth_rand (a + b) gen = nth_rand a (draws b gen).
Proof. unfold nth_rand. by rewrite draws_add. Qed.

(** The three nested loops visit the triples in lexicographic order. *)
Lemma init_loops_visit (st : InitState) : init_loops st = fold_left visit triples st.
Proof.
  unfold init_loops, triples. rewrite fold_left_bind.
  apply fold_left_pointwise. intros st1 i. rewrite fold_left_bind.
  apply fold_left_pointwise. intros st2 j. rewrite fold_left_bind.
  apply fold_left_pointwise. intros st3 k. reflexivity.
Qed.

Lemma visit_selected (grid : Grid) (n : nat) (gen : rng) (i j k : Z) :
  selected (i, j, k) = true -> (Z.of_nat n < ACTIVE_SIZE) ->
  visit (grid, Z.of_nat n, gen) (i, j, k)
  = (alter (init_row i j k (nth_rand 0 gen) (nth_rand 1 gen) (nth_rand 2 gen)) n grid,
     Z.of_nat (S n), draws 3 gen).
Proof.
  intros Hsel Hn. unfold visit, init_body. unfold selected in Hsel. rewrite Hsel.
  destruct (Z.ltb_spec (Z.of_nat n) ACTIVE_SIZE) as [_|]; [|lia]. cbn [andb].
  unfold nth_rand, draws. cbn [Nat.iter nat_rect].
  destruct (rand gen) as [x1 g1]. cbn [fst snd].
  destruct (rand g1) as [x2 g2]. cbn [fst snd].
  destruct (rand g2) as [x3 g3]. cbn [fst snd].
  rewrite Nat2Z.id. replace (Z.of_nat (S n)) with (Z.of_nat n + 1) by lia.
  reflexivity.
Qed.

Lemma visit_skipped (st : InitState) (t : Z * Z * Z) :
  selected t = false -> visit st t = st.
Proof.
  destruct t as [[i j] k], st as [[grid n] gen]. unfold visit, init_body, selected.
  by intros ->.
Qed.

(** Visiting a list of triples from row [n] on: the kept ones fill the
    rows [n], [n+1], ... in order, three calls of [rand()] each. *)
Lemma visit_all (l : list (Z * Z * Z)) : forall (grid : Grid) (n : nat) (gen : rng),
  let ks := filter (fun t => selected t = true) l in
  (n + length ks <= Z.to_nat ACTIVE_SIZE)%nat ->
  exists grid',
    fold_left visit l (grid, Z.of_nat n, gen)
    = (grid', Z.of_nat (n + length ks), draws (3 * length ks) gen)
    /\ length grid' = length grid
    /\ (forall p, (p < n)%nat \/ (n + length ks <= p)%nat -> grid' !! p = grid !! p)
    /\ (forall q i j k old,
          ks !! q = Some (i, j, k) -> grid !! (n + q)%nat = Some old ->
          grid' !! (n + q)%nat
          = Some (init_row i j k (nth_rand (3 * q) gen) (nth_rand (3 * q + 1) gen)
                    (nth_rand (3 * q + 2) gen) old)).
Proof.
  induction l as [|t l IH]; intros grid n gen ks Hroom.
  - exists grid. subst ks. cbn. rewrite Nat.add_0_r.
    split; [reflexivity|]. split; [reflexivity|]. split; [done|].
    intros q i j k old Hq. by rewrite lookup_nil in Hq.
  - subst ks. rewrite filter_cons in *.
    destruct (decide (selected t = true)) as [Hsel|Hsel].
    + destruct t as [[i j] k]. cbn [length] in Hroom.
      cbn [fold_left]. rewrite visit_selected by (done || (unfold ACTIVE_SIZE in *; lia)).
      set (grid1 := alter _ n grid).
      destruct (IH grid1 (S n) (draws 3 gen)) as (grid' & Hrun & Hlen & Hout & Hin);
        [lia|].
      exists grid'. split; [|split; [|split]].
      * rewrite Hrun. f_equal; [f_equal; cbn [length]; f_equal; lia|].
        rewrite <- draws_add. f_equal. cbn [length]. lia.
      * rewrite Hlen. apply length_alter.
      * intros p Hp. cbn [length] in Hp. rewrite Hout by lia.
        unfold grid1. apply list_lookup_alter_ne. lia.
      * intros q i' j' k' old Hq Hold. destruct q as [|q].
        -- cbn in Hq. injection Hq as <- <- <-.
           rewrite Nat.add_0_r in *. rewrite Hout by lia.
           unfold grid1. by rewrite list_lookup_alter_eq, Hold.
        -- cbn in Hq. replace (n + S q)%nat with (S n + q)%nat in * by lia.
           rewrite (Hin q i' j' k' old Hq).
           ++ replace (3 * S q)%nat with (3 * q + 3)%nat by lia.
              replace (3 * q + 3 + 1)%nat with (3 * q + 1 + 3)%nat by lia.
              replace (3 * q + 3 + 2)%nat with (3 * q + 2 + 3)%nat by lia.
              by rewrite !nth_rand_add.
           ++ unfold grid1. rewrite list_lookup_alter_ne by lia. exact Hold.
    + cbn [fold_left]. rewrite visit_skipped by (by destruct (selected t)).
      apply IH. exact Hroom.
Qed.

(** Row [p] of the initialised grid is the body of the loop at the kept
    triple number [p], on the values of the calls [3p], [3p+1], [3p+2] of
    [rand()]; the generator has been called 747 times. *)
Lemma init_sparse_grid_row (mem : Grid) (gen : rng) (p : nat) (i j k : Z) (old : Row) :
  kept_triples !! p = Some (i, j, k) ->
  mem !! p = Some old ->
  fst (init_sparse_grid mem gen) !! p
  = Some (init_row i j k (nth_rand (3 * p) gen) (nth_rand (3 * p + 1) gen)
            (nth_rand (3 * p + 2) gen) old)
  /\ snd (init_sparse_grid mem gen) = draws 747 gen.
Proof.
  intros Hp Hold. unfold init_sparse_grid. rewrite init_loops_visit.
  destruct (visit_all triples mem 0 gen) as (grid' & Hrun & _ & _ & Hin).
  { rewrite selected_kept, kept_triples_length. change (Z.to_nat ACTIVE_SIZE) with 250%nat. lia. }
  change (Z.of_nat 0) with 0 in Hrun. rewrite Hrun.
  rewrite selected_kept in Hin. cbn [fst snd]. split.
  - exact (Hin p i j k old Hp Hold).
  - rewrite selected_kept, kept_triples_length. reflexivity.
Qed.

Lemma kept_triples_lookup_lt (p : nat) (t : Z * Z * Z) :
  kept_triples !! p = Some t -> (p < 249)%nat.
Proof. intros Hp. apply lookup_lt_Some in Hp. by rewrite kept_triples_length in Hp. Qed.

(** The index stored in the RED cell of row [p] is that of the kept triple
    number [p]. *)
Lemma init_sparse_grid_red_idx (mem : Grid) (gen : rng) (p : nat) (i j k : Z) :
  length mem = Z.to_nat ACTIVE_SIZE ->
  kept_triples !! p = Some (i, j, k) ->
  option_map idx (cell (fst (init_sparse_grid mem gen)) p RED)
  = Some (init_tomographic_index i j k).
Proof.
  intros Hmem Hp. pose proof (kept_triples_lookup_lt p _ Hp) as Hlt.
  destruct (lookup_lt_is_Some_2 mem p) as [old Hold];
    [rewrite Hmem; change (Z.to_nat ACTIVE_SIZE) with 250%nat; lia|].
  destruct (init_sparse_grid_row mem gen p i j k old Hp Hold) as [Hrow _].
  unfold cell. rewrite Hrow. reflexivity.
Qed.

(** X13.  What [init_sparse_grid] of the dimensional engine stores: the
    sparsity test keeps 249 triples, and row [p] of the grid belongs to
    the kept triple number [p] in the order of the loops, [(i, j, k)].
    In that row the four cells are active and tagged with their channel;
    only the RED cell receives the index of the triple (with its six
    orderings), the indexes of the GREEN, BLUE and CYAN cells are never
    assigned and keep what the memory held; the values are the square wave
    at [i+j+k], [i+j+k+0.5] and [i+j+k+1.0] and their halved sum for
    CYAN; the polarities are 1, -1, 0, 0; the entropies come from the
    calls [3p], [3p+1], [3p+2] of [rand()], CYAN's being the halved sum;
    every cell carries the derivative trace at [(i+j+k) * 0.1], the same
    node in the four channels; and initialisation calls [rand()] 747
    times in all. *)
Theorem init_sparse_grid_row_content (mem : Grid) (gen : rng) (p : nat)
    (i j k : Z) (old : Row) :
  length mem = Z.to_nat ACTIVE_SIZE ->
  kept_triples !! p = Some (i, j, k) ->
  mem !! p = Some old ->
  let s := of_Z (i + j + k) in
  exists row,
    fst (init_sparse_grid mem gen) !! p = Some row
    /\ length kept_triples = 249%nat
    /\ idx (row RED) = init_tomographic_index i j k
    /\ (idx (row GREEN), idx (row BLUE), idx (row CYAN))
       = (idx (old GREEN), idx (old BLUE), idx (old CYAN))
    /\ value (row RED) = fourier_square s HARMONICS
    /\ value (row GREEN) = fourier_square (add s (dec 5 1)) HARMONICS
    /\ value (row BLUE) = fourier_square (add s (of_Z 1)) HARMONICS
    /\ value (row CYAN) = div (add (value (row RED)) (value (row GREEN))) (of_Z 2)
    /\ (polarity (row RED), polarity (row GREEN), polarity (row BLUE), polarity (row CYAN))
       = (of_Z 1, of_Z (-1), zero, zero)
    /\ entropy (row RED) = init_entropy (nth_rand (3 * p) gen)
    /\ entropy (row GREEN) = init_entropy (nth_rand (3 * p + 1) gen)
    /\ entropy (row BLUE) = init_entropy (nth_rand (3 * p + 2) gen)
    /\ entropy (row CYAN) = div (add (entropy (row RED)) (entropy (row GREEN))) (of_Z 2)
    /\ (forall ch, active (row ch) = true /\ channel (row ch) = ch
                   /\ deriv (row ch) = trace_derivative (value (row ch)) (mul s (dec 1 1))
                   /\ deriv (row ch) = deriv (row RED))
    /\ snd (init_sparse_grid mem gen) = draws 747 gen.
Proof.
  intros _ Hp Hold s.
  destruct (init_sparse_grid_row mem gen p i j k old Hp Hold) as [Hrow Hgen].
  eexists. split; [exact Hrow|]. split; [exact kept_triples_length|].
  repeat (split; [reflexivity|]).
  split; [|exact Hgen].
  intros ch. destruct ch; repeat split; reflexivity.
Qed.

End WithLibC.

(** A run that meets the hypotheses: row 125 in zeroed memory belongs to
    the triple (5, 0, 3). *)
Lemma init_sparse_grid_row_content_witness :
  exists row,
    fst (@init_sparse_grid counting_libc blank_rows 0%nat) !! 125%nat = Some row
    /\ idx (row RED) = init_tomographic_index 5 0 3.
Proof.
  destruct (@init_sparse_grid_row_content counting_libc blank_rows 0%nat 125 5 0 3
              (fun _ => blank_cell) eq_refl eq_refl eq_refl)
    as (row & Hrow & _ & Hidx & _).
  exists row. split; [exact Hrow|exact Hidx].
Defined.

End DimensionalInitFacts.

(** ** The permutation check of the dimensional engine *)

Module TomographicFacts.

Import F64 Dimensional DimensionalDefs DimensionalMain DimensionalMoreDefs.
Import MinimalDefs.

Lemma linear_row_in_bounds (a b c : Z) :
  fits_int (a, b, c) -> 0 <= linear_row a b c < ACTIVE_SIZE.
Proof.
  unfold fits_int, linear_row, CInt.INT_MAX. intros (Ha & Hb & Hc & Hsum).
  assert (Hin : forall z, 0 <= z <= 2 ^ 31 - 1 -> CInt.in_int z)
    by (unfold CInt.in_int, CInt.INT_MIN, CInt.INT_MAX; lia).
  rewrite (CIntFacts.wrap_id (a * 100)) by (apply Hin; lia).
  rewrite (CIntFacts.wrap_id (b * 10)) by (apply Hin; lia).
  rewrite (CIntFacts.wrap_id (a * 100 + b * 10)) by (apply Hin; lia).
  rewrite (CIntFacts.wrap_id (a * 100 + b * 10 + c)) by (apply Hin; lia).
  change ACTIVE_SIZE with 250.
  apply Z.rem_bound_pos; lia.
Qed.

Lemma tomographic_sample_fits (grid : Grid) (sample : Row) (p : nat) (t : Z * Z * Z) :
  length grid = Z.to_nat ACTIVE_SIZE ->
  grid !! 125%nat = Some sample ->
  permutations (idx (sample RED)) !! p = Some t ->
  fits_int t ->
  tomographic_sample grid p = sampled grid t /\ is_Some (sampled grid t).
Proof.
  intros Hlen Hsample Hp Hfit. unfold tomographic_sample, sampled, read_at.
  change (Minimal.read grid (ACTIVE_SIZE `quot` 2)) with (grid !! 125%nat).
  rewrite Hsample, Hp. destruct t as [[a b] c].
  pose proof (linear_row_in_bounds a b c Hfit) as Hb.
  unfold Minimal.read. destruct (Z.ltb_spec (linear_row a b c) 0) as [|_]; [lia|].
  destruct (lookup_lt_is_Some_2 grid (Z.to_nat (linear_row a b c))) as [row Hrow];
    [rewrite Hlen; lia|].
  rewrite Hrow. cbn. split; [reflexivity|]. by eexists.
Qed.

Lemma tomographic_verification_sampled (grid : Grid) (sample : Row) :
  length grid = Z.to_nat ACTIVE_SIZE ->
  grid !! 125%nat = Some sample ->
  length (permutations (idx (sample RED))) = 6%nat ->
  Forall fits_int (permutations (idx (sample RED))) ->
  tomographic_verification grid = sampled grid <$> permutations (idx (sample RED))
  /\ Forall is_Some (tomographic_verification grid).
Proof.
  intros Hlen Hsample Hsix Hfit.
  assert (Hall : forall p t, permutations (idx (sample RED)) !! p = Some t ->
                   tomographic_sample grid p = sampled grid t /\ is_Some (sampled grid t)).
  { intros p t Hp. apply (tomographic_sample_fits grid sample p t Hlen Hsample Hp).
    by eapply Forall_lookup_1 in Hfit. }
  assert (Heq : tomographic_verification grid
                = sampled grid <$> permutations (idx (sample RED))).
  { unfold tomographic_verification. apply list_eq. intros p.
    rewrite !list_lookup_fmap.
    destruct (decide (p < 6)%nat) as [Hlt|Hge].
    - rewrite lookup_seq_lt by done. cbn.
      destruct (lookup_lt_is_Some_2 (permutations (idx (sample RED))) p) as [t Ht];
        [lia|].
      rewrite Ht. cbn. f_equal. exact (proj1 (Hall p t Ht)).
    - rewrite lookup_seq_ge by lia.
      by rewrite (lookup_ge_None_2 (permutations (idx (sample RED))) p) by lia. }
  split; [exact Heq|].
  rewrite Heq. apply Forall_fmap, Forall_lookup. intros p t Ht.
  exact (proj2 (Hall p t Ht)).
Qed.

(** X14.  [tomographic_verification] samples the index stored in the RED
    cell of row 125.  On a grid of 250 rows whose sampled index stores six
    permutations with non-negative entries that keep [a*100 + b*10 + c]
    inside [int], each of the six iterations is defined: the row number it
    computes is within 0..249 and it reads the RED value of that row. *)
Theorem tomographic_verification_in_bounds (grid : Grid) (sample : Row) :
  length grid = Z.to_nat ACTIVE_SIZE ->
  grid !! 125%nat = Some sample ->
  length (permutations (idx (sample RED))) = 6%nat ->
  Forall fits_int (permutations (idx (sample RED))) ->
  tomographic_verification grid = sampled grid <$> permutations (idx (sample RED))
  /\ Forall is_Some (tomographic_verification grid)
  /\ Forall (fun t => let '(a, b, c) := t in 0 <= linear_row a b c < ACTIVE_SIZE)
            (permutations (idx (sample RED))).
Proof.
  intros Hlen Hsample Hsix Hfit.
  destruct (tomographic_verification_sampled grid sample Hlen Hsample Hsix Hfit)
    as [Heq Hsome].
  split; [exact Heq|]. split; [exact Hsome|].
  eapply Forall_impl; [exact Hfit|]. intros [[a b] c]. apply linear_row_in_bounds.
Qed.

(** A grid that meets the hypotheses: zeroed memory, where the sampled
    index stores (0, 0, 0) six times. *)
Lemma tomographic_verification_in_bounds_witness :
  Forall is_Some (tomographic_verification blank_rows).
Proof.
  refine (proj1 (proj2 (tomographic_verification_in_bounds blank_rows
                          (fun _ => blank_cell) eq_refl eq_refl eq_refl _))).
  repeat constructor; by vm_compute.
Defined.

Lemma kept_triple_125 : kept_triples !! 125%nat = Some (5, 0, 3).
Proof. by vm_compute. Qed.

Lemma frame_idx (a b : option SparseNode) :
  node_frame <$> a = node_frame <$> b -> option_map idx a = option_map idx b.
Proof.
  unfold node_frame.
  destruct a as [x|], b as [y|]; cbn; try discriminate; [|done].
  intros [= _ _ Hi _]. by rewrite Hi.
Qed.

Section WithLibC.
Context {libc : LibC}.

Lemma pair_step_fst {A B C} (r : A * B) (g : B -> C) :
  fst (let r' := r in (fst r', g (snd r'))) = fst r.
Proof. reflexivity. Qed.

Lemma cycle_step_fst (st : Grid * rng) (cycle : Z) :
  fst (cycle_step st cycle) = fst (nsigii_verification_cycle (fst st) cycle (snd st)).
Proof. exact (pair_step_fst (nsigii_verification_cycle (fst st) cycle (snd st)) gen_of). Qed.

Lemma cycle_step_frame (st : Grid * rng) (cycle : Z) n ch :
  length (fst (cycle_step st cycle)) = length (fst st)
  /\ node_frame <$> cell (fst (cycle_step st cycle)) n ch
     = node_frame <$> cell (fst st) n ch.
Proof.
  rewrite cycle_step_fst. split.
  - apply GridSpec.verification_cycle_length.
  - apply GridSpec.verification_cycle_frame.
Qed.

Lemma cycle_steps_frame (cycles : list Z) n ch : forall st : Grid * rng,
  length (fst (fold_left cycle_step cycles st)) = length (fst st)
  /\ node_frame <$> cell (fst (fold_left cycle_step cycles st)) n ch
     = node_frame <$> cell (fst st) n ch.
Proof.
  induction cycles as [|cycle cycles IH]; intros st; [split; reflexivity|].
  cbn [fold_left].
  destruct (IH (cycle_step st cycle)) as [Hlen Hframe].
  destruct (cycle_step_frame st cycle n ch) as [Hlen1 Hframe1].
  split; [by rewrite Hlen|by rewrite Hframe].
Qed.

Lemma run_cycle_list_frame (cycles : list Z) (grid : Grid) (gen : rng) n ch :
  length (fst (run_cycle_list cycles grid gen)) = length grid
  /\ node_frame <$> cell (fst (run_cycle_list cycles grid gen)) n ch
     = node_frame <$> cell grid n ch.
Proof. apply (cycle_steps_frame cycles n ch (grid, gen)). Qed.

(** X15.  In [main]: after [init_sparse_grid] and any verification cycles
    (the cycles keep the stored indexes), row 125 belongs to the triple
    (5, 0, 3), and [tomographic_verification] prints its six orderings
    with the row numbers 3, 53, 30, 35, 100, 55 and the RED values of
    those rows, all of them rows that initialisation wrote. *)
Theorem tomographic_verification_after_cycles (mem : Grid) (gen : rng)
    (cycles : list Z) :
  length mem = Z.to_nat ACTIVE_SIZE ->
  let g0 := init_sparse_grid mem gen in
  let grid := fst (run_cycle_list cycles (fst g0) (snd g0)) in
  option_map idx (cell grid 125 RED) = Some (init_tomographic_index 5 0 3)
  /\ tomographic_verification grid
     = [ read_at grid (5, 0, 3) 3; read_at grid (0, 5, 3) 53;
         read_at grid (5, 3, 0) 30; read_at grid (0, 3, 5) 35;
         read_at grid (3, 5, 0) 100; read_at grid (3, 0, 5) 55 ]
  /\ Forall is_Some (tomographic_verification grid).
Proof.
  intros Hmem g0 grid.
  pose proof (DimensionalInitFacts.init_sparse_grid_red_idx mem gen 125 5 0 3 Hmem
                kept_triple_125) as Hidx0.
  fold g0 in Hidx0.
  destruct (run_cycle_list_frame cycles (fst g0) (snd g0) 125 RED) as [Hlen Hframe].
  fold grid in Hlen, Hframe.
  assert (Hlen0 : length (fst g0) = Z.to_nat ACTIVE_SIZE).
  { unfold g0. destruct (SparsitySpec.init_sparse_grid_rows mem gen Hmem) as [H _].
    exact H. }
  rewrite Hlen0 in Hlen. clearbody grid. clear Hlen0.
  apply frame_idx in Hframe. rewrite Hidx0 in Hframe. clear Hidx0. clearbody g0.
  split; [exact Hframe|].
  unfold cell in Hframe.
  destruct (grid !! 125%nat) as [sample|] eqn:Hsample; [|discriminate].
  cbn in Hframe. injection Hframe as Hidx.
  assert (Hperm : permutations (idx (sample RED))
                  = [(5, 0, 3); (0, 5, 3); (5, 3, 0); (0, 3, 5); (3, 5, 0); (3, 0, 5)])
    by (by rewrite Hidx).
  destruct (tomographic_verification_sampled grid sample Hlen Hsample)
    as (Heq & Hsome).
  { by rewrite Hperm. }
  { rewrite Hperm. repeat constructor; by vm_compute. }
  split; [|exact Hsome].
  rewrite Heq, Hperm. reflexivity.
Qed.

End WithLibC.

(** The run of [main] in zeroed memory with the stand-in library. *)
Lemma tomographic_verification_after_cycles_witness :
  length blank_rows = Z.to_nat ACTIVE_SIZE
  /\ let g0 := @init_sparse_grid counting_libc blank_rows 0%nat in
     let grid := fst (@run_cycle_list counting_libc [0; 1; 2] (fst g0) (snd g0)) in
     Forall is_Some (tomographic_verification grid).
Proof.
  split; [reflexivity|].
  exact (proj2 (proj2 (@tomographic_verification_after_cycles counting_libc
                         blank_rows 0%nat [0; 1; 2] eq_refl))).
Defined.

End TomographicFacts.

(** ** What a verification cycle stores *)

Module CycleFacts.

Import F64 Dimensional DimensionalDefs DimensionalMain DimensionalMoreDefs.
Import MinimalMoreDefs.

Lemma lit_before_frame (row row' : Row) chs ch :
  (forall c, node_frame (row' c) = node_frame (row c)) ->
  lit_before row' chs ch = lit_before row chs ch.
Proof.
  intros Hframe. induction chs as [|c chs IH]; [reflexivity|].
  cbn [lit_before]. rewrite IH.
  specialize (Hframe c). unfold node_frame in Hframe.
  injection Hframe as -> _ _ _. reflexivity.
Qed.

Lemma channels_all (ch : ColorChannel) : ch ∈ channels /\ NoDup channels.
Proof.
  split.
  - unfold channels. destruct ch; repeat first [apply list_elem_of_here | apply list_elem_of_further].
  - unfold channels. repeat (apply NoDup_cons; split; [|]).
    all: try apply NoDup_nil_2.
    all: intros Hin; repeat (apply elem_of_cons in Hin as [Hin|Hin]; [discriminate|]);
      by apply elem_of_nil in Hin.
Qed.

(** Summing the rows below [n] by index counts the active cells of the
    first [n] rows. *)
Lemma row_hits_take (grid : Grid) ch n :
  (n <= length grid)%nat ->
  fold_right Z.add 0 (row_hit grid ch <$> seq 0 n)
  = Z.of_nat (count_active ch (take n grid)).
Proof.
  intros Hn. pose proof (SparsitySpec.row_hits_count ch (take n grid) []) as Hsum.
  cbn [app length] in Hsum. rewrite length_take, Nat.min_l in Hsum by exact Hn.
  rewrite <- Hsum. f_equal. apply Forall_fmap_ext_1, Forall_seq. intros p Hp.
  unfold row_hit, cell. by rewrite lookup_take_lt by lia.
Qed.

Section WithLibC.
Context {libc : LibC}.

(** One step of the inner loop: the cell of its channel is cycled with the
    generator as the step finds it, the other cells of the row stay, and
    the generator moves by one call when the cell is active. *)
Lemma cycle_cell_content cycle n (row : Row) stats ch :
  cycled cycle n (gen_of stats) (row ch) (fst (cycle_cell cycle n (row, stats) ch) ch)
  /\ (forall c, c <> ch -> fst (cycle_cell cycle n (row, stats) ch) c = row c)
  /\ gen_of (snd (cycle_cell cycle n (row, stats) ch))
     = draws (if active (row ch) then 1 else 0) (gen_of stats).
Proof.
  unfold cycle_cell, cycled. destruct (active (row ch)) eqn:Hact.
  - change (draws 1 (gen_of stats)) with (snd (rand (gen_of stats))).
    destruct (rand (gen_of stats)) as [x gen']. cbn [fst snd gen_of].
    split; [|split; [|reflexivity]].
    + destruct ch; cbn [set_cell]; unfold node_frame;
        cbn [value deriv entropy active channel idx polarity]; rewrite ?Hact;
        repeat split; reflexivity.
    + intros c Hne. by destruct ch, c.
  - cbn [fst snd]. split; [split; reflexivity|]. split; [done|reflexivity].
Qed.

(** The inner loop over a list of channels: a cell is cycled with the
    generator advanced by the active cells of the channels before it. *)
Lemma cycle_cells_content cycle n chs ch : forall (row : Row) stats,
  let row' := fst (fold_left (cycle_cell cycle n) chs (row, stats)) in
  (ch ∉ chs -> row' ch = row ch)
  /\ (ch ∈ chs -> NoDup chs ->
      cycled cycle n (draws (lit_before row chs ch) (gen_of stats)) (row ch) (row' ch)).
Proof.
  induction chs as [|c chs IH]; intros row stats row'.
  - split; [done|]. intros Hin. by apply elem_of_nil in Hin.
  - subst row'. cbn [fold_left].
    destruct (cycle_cell_content cycle n row stats c) as (Hhere & Hothers & Hgen).
    pose proof (fun c' => GridSpec.cycle_cell_frame cycle n row stats c c') as Hframe.
    destruct (cycle_cell cycle n (row, stats) c) as [row1 stats1] eqn:Hcell.
    cbn [fst snd] in Hhere, Hothers, Hgen, Hframe.
    destruct (IH row1 stats1) as [Hout Hin]. split.
    + intros Hnot. apply not_elem_of_cons in Hnot as [Hne Hnot].
      rewrite (Hout Hnot). by apply Hothers.
    + intros Helem Hnodup. apply NoDup_cons in Hnodup as [Hfresh Hnodup].
      cbn [lit_before]. destruct (decide (c = ch)) as [->|Hne].
      * by rewrite (Hout Hfresh).
      * apply elem_of_cons in Helem as [?|Helem]; [done|].
        specialize (Hin Helem Hnodup).
        rewrite (Hothers ch ltac:(done)), Hgen,
          (lit_before_frame row row1 chs ch Hframe) in Hin.
        rewrite <- DimensionalInitFacts.draws_add in Hin.
        by rewrite Nat.add_comm.
Qed.

(** One step of the outer loop: row [m] is cycled, the other rows stay. *)
Lemma cycle_row_content cycle (grid : Grid) stats m :
  (forall row, grid !! m = Some row ->
     exists row', fst (cycle_row cycle (grid, stats) m) !! m = Some row'
                  /\ forall ch, cycled cycle m
                                  (draws (lit_before row channels ch) (gen_of stats))
                                  (row ch) (row' ch))
  /\ (forall n, n <> m -> fst (cycle_row cycle (grid, stats) m) !! n = grid !! n).
Proof.
  unfold cycle_row. destruct (grid !! m) as [row|] eqn:Hrow; cbv beta iota.
  - pose proof (fun ch => cycle_cells_content cycle m channels ch row stats) as Hcells.
    cbv zeta in Hcells.
    match goal with
    | |- context [fold_left ?f ?l ?a] =>
        change (fold_left (cycle_cell cycle m) channels (row, stats))
          with (fold_left f l a) in Hcells;
        destruct (fold_left f l a) as [row' stats']
    end.
    cbn [fst] in *. split.
    + intros ? [= <-]. exists row'. split.
      * apply list_lookup_insert_eq. by eapply lookup_lt_Some.
      * intros ch. destruct (channels_all ch) as [Hin Hnodup].
        exact (proj2 (Hcells ch) Hin Hnodup).
    + intros n Hne. by apply list_lookup_insert_ne.
  - split; [done|]. done.
Qed.

(** Rows that the outer loop does not visit stay. *)
Lemma cycle_rows_untouched cycle ns n : forall (grid : Grid) stats,
  n ∉ ns -> fst (fold_left (cycle_row cycle) ns (grid, stats)) !! n = grid !! n.
Proof.
  induction ns as [|m ns IH]; intros grid stats Hnot; [reflexivity|].
  cbn [fold_left]. apply not_elem_of_cons in Hnot as [Hne Hnot].
  destruct (cycle_row_content cycle grid stats m) as [_ Hothers].
  destruct (cycle_row cycle (grid, stats) m) as [grid1 stats1].
  cbn [fst] in Hothers.
  etrans; [exact (IH grid1 stats1 Hnot)|by apply Hothers].
Qed.

(** The generator moves by one call of [rand()] for each cell counted. *)
Lemma cycle_cell_draws cycle n (row : Row) stats ch (gen : rng) :
  (forall c, 0 <= active_count stats c) ->
  gen_of stats = draws (Z.to_nat (counted stats)) gen ->
  let stats' := snd (cycle_cell cycle n (row, stats) ch) in
  (forall c, 0 <= active_count stats' c)
  /\ gen_of stats' = draws (Z.to_nat (counted stats')) gen.
Proof.
  intros Hpos Hgen. unfold cycle_cell. destruct (active (row ch)); [|done].
  destruct (rand (gen_of stats)) as [x gen'] eqn:Hrand. cbn [snd]. split.
  - intros c. cbn [active_count]. pose proof (Hpos c). destruct ch, c; cbn [bump]; lia.
  - cbn [gen_of]. unfold counted. cbn [active_count].
    replace (Z.to_nat _) with (S (Z.to_nat (counted stats))).
    + rewrite MinimalInitFacts.draws_S, <- Hgen, Hrand. reflexivity.
    + unfold counted. pose proof (Hpos RED). pose proof (Hpos GREEN).
      pose proof (Hpos BLUE). pose proof (Hpos CYAN).
      destruct ch; cbn [bump]; lia.
Qed.

Lemma cycle_row_draws cycle (grid : Grid) stats m (gen : rng) :
  (forall c, 0 <= active_count stats c) ->
  gen_of stats = draws (Z.to_nat (counted stats)) gen ->
  let stats' := snd (cycle_row cycle (grid, stats) m) in
  (forall c, 0 <= active_count stats' c)
  /\ gen_of stats' = draws (Z.to_nat (counted stats')) gen.
Proof.
  intros Hpos Hgen. unfold cycle_row. destruct (grid !! m) as [row|]; [|done].
  assert (Hfold : forall chs row stats,
            (forall c, 0 <= active_count stats c) ->
            gen_of stats = draws (Z.to_nat (counted stats)) gen ->
            let stats' := snd (fold_left (cycle_cell cycle m) chs (row, stats)) in
            (forall c, 0 <= active_count stats' c)
            /\ gen_of stats' = draws (Z.to_nat (counted stats')) gen).
  { clear. induction chs as [|c chs IH]; intros row stats Hpos Hgen; [done|].
    cbn [fold_left].
    destruct (cycle_cell_draws cycle m row stats c gen Hpos Hgen) as [Hpos1 Hgen1].
    destruct (cycle_cell cycle m (row, stats) c) as [row1 stats1].
    by apply IH. }
  specialize (Hfold channels row stats Hpos Hgen).
  by destruct (fold_left (cycle_cell cycle m) channels (row, stats)).
Qed.

Lemma cycle_rows_draws cycle (gen : rng) ns : forall (grid : Grid) stats,
  (forall c, 0 <= active_count stats c) ->
  gen_of stats = draws (Z.to_nat (counted stats)) gen ->
  gen_of (snd (fold_left (cycle_row cycle) ns (grid, stats)))
  = draws (Z.to_nat (counted (snd (fold_left (cycle_row cycle) ns (grid, stats))))) gen.
Proof.
  induction ns as [|m ns IH]; intros grid stats Hpos Hgen; [exact Hgen|].
  cbn [fold_left].
  pose proof (cycle_row_draws cycle grid stats m gen Hpos Hgen) as Hstep.
  destruct (cycle_row cycle (grid, stats) m) as [grid1 stats1].
  destruct Hstep as [Hpos1 Hgen1]. by apply IH.
Qed.

(** After the rows below [n] the generator has been called once for each
    active cell of those rows. *)
Lemma cycle_rows_prefix cycle (grid : Grid) (gen : rng) n :
  (n <= length grid)%nat ->
  gen_of (snd (fold_left (cycle_row cycle) (seq 0 n)
                 (grid, {| active_count := fun _ => 0; total_entropy := zero;
                           gen_of := gen |})))
  = draws (count_all_active (take n grid)) gen.
Proof.
  intros Hn. rewrite (cycle_rows_draws cycle gen);
    [|intros c; cbn; lia|reflexivity].
  f_equal. unfold counted, count_all_active.
  rewrite !SparsitySpec.cycle_rows_count. cbn [active_count].
  rewrite !(row_hits_take grid _ n Hn). lia.
Qed.

(** Row [n] after a cycle: each of its cells is cycled with the generator
    advanced by the active cells the loops visit before it. *)
Lemma verification_cycle_cycled (grid : Grid) (cycle : Z) (gen : rng)
    (n : nat) (row : Row) :
  length grid = Z.to_nat ACTIVE_SIZE ->
  grid !! n = Some row ->
  exists row',
    fst (nsigii_verification_cycle grid cycle gen) !! n = Some row'
    /\ forall ch, cycled cycle n (draws (active_before grid n ch) gen)
                    (row ch) (row' ch).
Proof.
  intros Hlen Hrow.
  assert (Hn : (n < Z.to_nat ACTIVE_SIZE)%nat)
    by (rewrite <- Hlen; by eapply lookup_lt_Some).
  set (start := {| active_count := fun _ => 0; total_entropy := zero; gen_of := gen |}).
  unfold nsigii_verification_cycle. fold start.
  assert (Hsplit : seq 0 (Z.to_nat ACTIVE_SIZE)
                   = seq 0 n ++ n :: seq (S n) (Z.to_nat ACTIVE_SIZE - S n)).
  { replace (Z.to_nat ACTIVE_SIZE)
      with (n + S (Z.to_nat ACTIVE_SIZE - S n))%nat at 1 by lia.
    by rewrite seq_app. }
  rewrite Hsplit, fold_left_app. cbn [fold_left].
  pose proof (cycle_rows_untouched cycle (seq 0 n) n grid start
                ltac:(rewrite elem_of_seq; lia)) as Hsame.
  pose proof (cycle_rows_prefix cycle grid gen n ltac:(lia)) as Hgen.
  fold start in Hgen.
  destruct (fold_left (cycle_row cycle) (seq 0 n) (grid, start)) as [grid1 stats1].
  cbn [fst snd] in Hsame, Hgen.
  destruct (cycle_row_content cycle grid1 stats1 n) as [Hhere _].
  destruct (Hhere row ltac:(by rewrite Hsame)) as (row' & Hrow' & Hcells).
  destruct (cycle_row cycle (grid1, stats1) n) as [grid2 stats2].
  cbn [fst] in Hrow'.
  exists row'. split.
  - etrans; [|exact Hrow'].
    apply cycle_rows_untouched. rewrite elem_of_seq. lia.
  - intros ch. specialize (Hcells ch). rewrite Hgen in Hcells.
    rewrite <- DimensionalInitFacts.draws_add in Hcells.
    unfold active_before. rewrite Hrow, Nat.add_comm. exact Hcells.
Qed.

(** X16.  What [nsigii_verification_cycle] stores, on any grid of 250
    rows: in every row it keeps flag, tag, index and polarity of the four
    cells, leaves the idle cells exactly as they were, and gives every
    active cell the wave value of the row,
    [fourier_square(cycle * 0.1 + n * 0.01, HARMONICS + cycle % 5)], the
    derivative trace at that phase and the entropy [0.5 + fabs(value) *
    0.3 + noise] whose noise comes from the value that [rand()] returns at
    the call numbered by the active cells the two loops have visited
    before this one (rows in order, RED, GREEN, BLUE, CYAN within a row);
    so after a cycle the active cells of a row hold one and the same value
    and trace, whatever their channel.  The cycle calls [rand()] once per
    active cell of the grid. *)
Theorem verification_cycle_content (grid : Grid) (cycle : Z) (gen : rng)
    (n : nat) (row : Row) :
  length grid = Z.to_nat ACTIVE_SIZE ->
  grid !! n = Some row ->
  let r := nsigii_verification_cycle grid cycle gen in
  exists row',
    fst r !! n = Some row'
    /\ (forall ch, node_frame (row' ch) = node_frame (row ch))
    /\ (forall ch, active (row ch) = false -> row' ch = row ch)
    /\ (forall ch, active (row ch) = true ->
          value (row' ch) = wave cycle n
          /\ deriv (row' ch) = trace_derivative (wave cycle n) (phase cycle n)
          /\ entropy (row' ch)
             = cycle_entropy (wave cycle n) (nth_rand (active_before grid n ch) gen))
    /\ (forall ch1 ch2, active (row ch1) = true -> active (row ch2) = true ->
          value (row' ch1) = value (row' ch2) /\ deriv (row' ch1) = deriv (row' ch2))
    /\ gen_of (snd r) = draws (count_all_active grid) gen.
Proof.
  intros Hlen Hrow r.
  destruct (verification_cycle_cycled grid cycle gen n row Hlen Hrow)
    as (row' & Hrow' & Hcycled).
  exists row'. split; [exact Hrow'|].
  assert (Hon : forall ch, active (row ch) = true ->
            value (row' ch) = wave cycle n
            /\ deriv (row' ch) = trace_derivative (wave cycle n) (phase cycle n)
            /\ entropy (row' ch)
               = cycle_entropy (wave cycle n) (nth_rand (active_before grid n ch) gen)).
  { intros ch Hact. destruct (Hcycled ch) as [_ Hc]. by rewrite Hact in Hc. }
  split; [intros ch; exact (proj1 (Hcycled ch))|].
  split; [intros ch Hoff; destruct (Hcycled ch) as [_ Hc]; by rewrite Hoff in Hc|].
  split; [exact Hon|]. split.
  - intros ch1 ch2 H1 H2.
    destruct (Hon ch1 H1) as (-> & -> & _), (Hon ch2 H2) as (-> & -> & _). done.
  - subst r. unfold nsigii_verification_cycle.
    pose proof (cycle_rows_prefix cycle grid gen (Z.to_nat ACTIVE_SIZE) ltac:(lia)) as Hgen.
    rewrite Hgen. by rewrite <- Hlen, firstn_all.
Qed.

End WithLibC.

(** A grid that meets the hypotheses and has every cell active: in row 7
    the GREEN cell is cell number 29 of the two loops (28 cells of the
    rows 0..6 and the RED cell of row 7 come before it), so with [rand()]
    returning 1, 2, 3, ... its noise comes from the value 30. *)
Lemma verification_cycle_content_witness :
  length lit_rows = Z.to_nat ACTIVE_SIZE
  /\ exists row',
       fst (@nsigii_verification_cycle counting_libc lit_rows 1 0%nat) !! 7%nat
       = Some row'
       /\ value (row' GREEN) = @wave counting_libc 1 7
       /\ entropy (row' GREEN)
          = @cycle_entropy counting_libc (@wave counting_libc 1 7) 30
       /\ gen_of (snd (@nsigii_verification_cycle counting_libc lit_rows 1 0%nat))
          = 1000%nat.
Proof.
  split; [reflexivity|].
  destruct (@verification_cycle_content counting_libc lit_rows 1 0%nat 7
              (fun _ => lit_cell) eq_refl eq_refl)
    as (row' & Hrow' & _ & _ & Hon & _ & Hgen).
  destruct (Hon GREEN eq_refl) as (Hvalue & _ & Hentropy).
  exists row'. split; [exact Hrow'|]. split; [exact Hvalue|].
  split; [exact Hentropy|exact Hgen].
Defined.

End CycleFacts.

(** ** The derived channel at every point after initialisation *)

Module DerivedInvariant.

Import DerivedDefs.

(** *** Minimal engine *)

Section MinimalEngine.

Import Minimal MinimalDefs MinimalMoreDefs MinimalMain MainDefs.

Context {libc : LibC} {libm : LibM32}.

(** The flags initialisation leaves at a slot, and the cyan cell of a
    marked slot. *)
Lemma init_flags mem gen p r g c :
  wf_grid mem -> idle_cyan mem ->
  let grid := fst (init_sparse_grid mem gen) in
  red grid !! p = Some r -> green grid !! p = Some g -> cyan grid !! p = Some c ->
  active r = marked p /\ active g = marked p /\ active c = marked p
  /\ (marked p = true ->
      c = combined r g /\ 0 <= value r < 256 /\ 0 <= value g < 256).
Proof.
  intros Hwf Hidle grid. subst grid.
  destruct (MinimalInitFacts.init_sparse_grid_unfold mem gen Hwf)
    as (reds & greens & blues & -> & _ & Hlr & _ & _ & Hdone).
  cbn [red green blue cyan]. intros Hr Hg Hc.
  assert (Hp : (p < 256)%nat)
    by (apply lookup_lt_Some in Hr; rewrite Hlr in Hr; exact Hr).
  destruct (Hdone p Hp) as (r' & g' & b & Hr' & Hg' & _ & Hcr & Hcg & _).
  assert (r' = r) by congruence. assert (g' = g) by congruence. subst r' g'.
  destruct Hcr as (Har & _ & _ & Hvr & _). destruct Hcg as (Hag & _ & _ & Hvg & _).
  split; [exact Har|]. split; [exact Hag|].
  destruct (marked p) eqn:Hm.
  - assert (Hcomb : combine_channels (cyan mem) reds greens (Z.to_nat ACTIVE_SIZE) !! p
                    = Some (combined r g)).
    { apply CombinerSpec.combine_channels_consensus; try done.
      destruct Hwf as (_ & _ & _ & ->). exact Hp. }
    rewrite Hcomb in Hc. apply (inj Some) in Hc. subst c.
    split; [reflexivity|]. intros _.
    split; [reflexivity|]. split; [exact Hvr|exact Hvg].
  - rewrite (CombinerSpec.combine_channels_no_consensus _ _ _ _ _ r g Hr Hg) in Hc
      by (by rewrite Har).
    split; [exact (Hidle p c Hc Hm)|discriminate].
Qed.

Lemma init_derived_flags mem gen :
  wf_grid mem -> idle_cyan mem -> derived_flags (fst (init_sparse_grid mem gen)).
Proof.
  intros Hwf Hidle p r g c Hr Hg Hc.
  destruct (init_flags mem gen p r g c Hwf Hidle Hr Hg Hc) as (-> & -> & -> & _).
  by destruct (marked p).
Qed.

Lemma same_flag (l l' : list SparseNode) p x' :
  active <$> l' = active <$> l -> l' !! p = Some x' ->
  exists x, l !! p = Some x /\ active x = active x'.
Proof.
  intros Hsame Hx'.
  assert (Hl : (active <$> l) !! p = Some (active x'))
    by (by rewrite <- Hsame, list_lookup_fmap, Hx').
  rewrite list_lookup_fmap in Hl.
  destruct (l !! p) as [x|]; [|discriminate]. exists x. split; [reflexivity|].
  cbn in Hl. congruence.
Qed.

(** Grids with the same cells active meet the invariant together. *)
Lemma derived_flags_same g g' :
  same_active g g' -> derived_flags g -> derived_flags g'.
Proof.
  intros (Hr & Hg & _ & Hc) Hflags p r' g1' c' Hr' Hg' Hc'.
  destruct (same_flag _ _ p r' Hr Hr') as (r & Hlr & <-).
  destruct (same_flag _ _ p g1' Hg Hg') as (g1 & Hlg & <-).
  destruct (same_flag _ _ p c' Hc Hc') as (c & Hlc & <-).
  exact (Hflags p r g1 c Hlr Hlg Hlc).
Qed.

Lemma main_loop_derived_flags mem gen events st :
  wf_grid mem -> idle_cyan mem ->
  main_loop events mem gen = Some st -> derived_flags (m_grid st).
Proof.
  intros Hwf Hidle Hrun. unfold main_loop in Hrun.
  destruct (MainFacts.main_fold_keeps _ events _ st (MainRun.main_start mem gen Hwf) Hrun)
    as ((_ & _ & _ & Hsame & _) & _).
  apply (derived_flags_same _ _ Hsame). by apply init_derived_flags.
Qed.

End MinimalEngine.

(** *** Dimensional engine *)

Section DimensionalEngine.

Import F64 Dimensional DimensionalDefs DimensionalMain DimensionalMoreDefs.

Context {libc : LibC}.

Lemma row_flags_frame (row row' : Row) :
  (forall ch, active (row' ch) = active (row ch)) -> row_flags row -> row_flags row'.
Proof. unfold row_flags. intros Hsame Hrow. by rewrite !Hsame. Qed.

Lemma init_row_flags mem gen last p row :
  length mem = Z.to_nat ACTIVE_SIZE ->
  mem !! 249%nat = Some last -> row_flags last ->
  fst (init_sparse_grid mem gen) !! p = Some row -> row_flags row.
Proof.
  intros Hmem Hlast Hflags Hrow.
  destruct (SparsitySpec.init_sparse_grid_rows mem gen Hmem) as (Hlen & Hdone & Hrest).
  destruct (decide (p < 249)%nat) as [Hp|Hp].
  - destruct (Hdone p Hp) as (row' & Hrow' & Hr & Hg & _ & Hc & _).
    assert (row' = row) by congruence. subst row'.
    unfold row_flags. by rewrite Hr, Hg, Hc.
  - assert (p = 249%nat) as ->.
    { apply lookup_lt_Some in Hrow. rewrite Hlen in Hrow.
      change (Z.to_nat ACTIVE_SIZE) with 250%nat in Hrow. lia. }
    rewrite Hrest in Hrow by lia. congruence.
Qed.

(** The active flag of a cell after a list of cycles is the one it had. *)
Lemma cell_lookup (grid : Grid) p (row : Row) ch :
  grid !! p = Some row -> cell grid p ch = Some (row ch).
Proof. intros Hrow. exact (f_equal (option_map (fun r : Row => r ch)) Hrow). Qed.

Lemma run_cycle_list_active cycles (grid : Grid) gen p (row' : Row) :
  fst (run_cycle_list cycles grid gen) !! p = Some row' ->
  exists row, grid !! p = Some row /\ forall ch, active (row' ch) = active (row ch).
Proof.
  intros Hrow'.
  assert (Hp : (p < length grid)%nat).
  { rewrite <- (proj1 (TomographicFacts.run_cycle_list_frame cycles grid gen 0 RED)).
    exact (lookup_lt_Some _ _ _ Hrow'). }
  destruct (lookup_lt_is_Some_2 grid p Hp) as [row Hrow].
  exists row. split; [exact Hrow|]. intros ch.
  pose proof (proj2 (TomographicFacts.run_cycle_list_frame cycles grid gen p ch))
    as Hframe.
  assert (Hnode : Some (node_frame (row' ch)) = Some (node_frame (row ch))).
  { etrans; [symmetry;
             exact (f_equal (option_map node_frame) (cell_lookup _ p row' ch Hrow'))|].
    etrans; [exact Hframe|].
    exact (f_equal (option_map node_frame) (cell_lookup _ p row ch Hrow)). }
  apply (inj Some) in Hnode. unfold node_frame in Hnode.
  by injection Hnode as -> _ _ _.
Qed.

Lemma cycles_row_flags mem gen last cycles p row :
  length mem = Z.to_nat ACTIVE_SIZE ->
  mem !! 249%nat = Some last -> row_flags last ->
  fst (run_cycle_list cycles (fst (init_sparse_grid mem gen))
         (snd (init_sparse_grid mem gen))) !! p = Some row ->
  row_flags row.
Proof.
  intros Hmem Hlast Hflags Hrow.
  destruct (run_cycle_list_active _ _ _ _ _ Hrow) as (row0 & Hrow0 & Hsame).
  apply (row_flags_frame row0 row Hsame).
  exact (init_row_flags mem gen last p row0 Hmem Hlast Hflags Hrow0).
Qed.

(** After a cycle the active cells of a row hold the wave value of the
    row. *)
Lemma last_cycle_values (grid : Grid) gen cycle p (row' : Row) ch :
  length grid = Z.to_nat ACTIVE_SIZE ->
  fst (nsigii_verification_cycle grid cycle gen) !! p = Some row' ->
  active (row' ch) = true -> value (row' ch) = wave cycle p.
Proof.
  intros Hlen Hrow' Hact.
  assert (Hp : (p < length grid)%nat).
  { apply lookup_lt_Some in Hrow'.
    by rewrite GridSpec.verification_cycle_length in Hrow'. }
  destruct (lookup_lt_is_Some_2 grid p Hp) as [row Hrow].
  destruct (CycleFacts.verification_cycle_cycled grid cycle gen p row Hlen Hrow)
    as (row1 & Hrow1 & Hcycled).
  assert (Hsome : Some row1 = Some row')
    by (etrans; [symmetry; exact Hrow1|exact Hrow']).
  apply (inj Some) in Hsome. subst row1.
  destruct (Hcycled ch) as [Hframe Hcell].
  unfold node_frame in Hframe. injection Hframe as Hsame _ _ _.
  rewrite <- Hsame, Hact in Hcell. exact (proj1 Hcell).
Qed.

(** After one cycle or more, an active derived cell of a row that meets
    the invariant holds the value of the primary and of the verification
    cell. *)
Lemma after_cycle_values (grid : Grid) gen cycles cycle p (row : Row) :
  length grid = Z.to_nat ACTIVE_SIZE ->
  fst (run_cycle_list (cycles ++ [cycle]) grid gen) !! p = Some row ->
  row_flags row -> active (row CYAN) = true ->
  value (row CYAN) = value (row RED) /\ value (row CYAN) = value (row GREEN).
Proof.
  intros Hlen Hrow Hrf Hact.
  unfold row_flags in Hrf. rewrite Hact in Hrf.
  symmetry in Hrf. apply andb_true_iff in Hrf as [Hred Hgreen].
  unfold run_cycle_list in Hrow.
  rewrite fold_left_app in Hrow. cbn [fold_left] in Hrow.
  rewrite TomographicFacts.cycle_step_fst in Hrow.
  assert (Hlen1 : length (fst (fold_left cycle_step cycles (grid, gen)))
                  = Z.to_nat ACTIVE_SIZE).
  { rewrite <- Hlen.
    exact (proj1 (TomographicFacts.cycle_steps_frame cycles 0 RED (grid, gen))). }
  rewrite (last_cycle_values _ _ _ _ _ CYAN Hlen1 Hrow Hact),
    (last_cycle_values _ _ _ _ _ RED Hlen1 Hrow Hred),
    (last_cycle_values _ _ _ _ _ GREEN Hlen1 Hrow Hgreen).
  by split.
Qed.

End DimensionalEngine.

(** C4, as the code has it.  At every point after initialisation the
    derived cell of a slot is active exactly when the primary and the
    verification cell of the slot both are: in the minimal engine right
    after [init_sparse_grid] and after any run of the event loop of [main]
    (navigation, protocol cycles, observer reads), in the dimensional
    engine after [init_sparse_grid] and any list of verification cycles.
    The cells initialisation never writes must not contradict it in the
    memory the grid occupies: the cyan cells of the slots that are not
    multiples of 4 are inactive (minimal engine), row 249 has the cyan
    flag the conjunction of its red and green flags (dimensional engine).
    Right after initialisation an active derived cell holds the mean of
    the two values: the double [(RED.value + GREEN.value) / 2.0] in the
    rows 0..248 that the dimensional engine writes, and in the minimal
    engine the integer mean truncated, at most 1/2 below the exact mean.
    After one verification cycle or more an active derived cell holds the
    value of the primary and of the verification cell, the wave value of
    the row. *)
Theorem derived_channel_invariant (libc : LibC) (libm : LibM32) :
  (forall (mem : Minimal.TomographicGrid) (gen : rng),
     Minimal.wf_grid mem -> idle_cyan mem ->
     let g0 := fst (Minimal.init_sparse_grid mem gen) in
     derived_flags g0
     /\ (forall events st,
           MinimalMain.main_loop events mem gen = Some st ->
           derived_flags (MinimalMain.m_grid st))
     /\ (forall p r g c,
           Minimal.red g0 !! p = Some r -> Minimal.green g0 !! p = Some g ->
           Minimal.cyan g0 !! p = Some c -> Minimal.active c = true ->
           Minimal.value c = (Minimal.value r + Minimal.value g) `quot` 2
           /\ 0 <= Minimal.value r + Minimal.value g - 2 * Minimal.value c <= 1))
  /\ (forall (mem : Dimensional.Grid) (gen : rng) (last : Dimensional.Row),
        length mem = Z.to_nat Dimensional.ACTIVE_SIZE ->
        mem !! 249%nat = Some last -> row_flags last ->
        let g0 := Dimensional.init_sparse_grid mem gen in
        (forall cycles p row,
           fst (DimensionalMain.run_cycle_list cycles (fst g0) (snd g0)) !! p = Some row ->
           row_flags row)
        /\ (forall p, (p < 249)%nat ->
              exists row,
                fst g0 !! p = Some row
                /\ Dimensional.active (row Dimensional.CYAN) = true
                /\ Dimensional.value (row Dimensional.CYAN)
                   = F64.div (F64.add (Dimensional.value (row Dimensional.RED))
                                      (Dimensional.value (row Dimensional.GREEN)))
                             (F64.of_Z 2))
        /\ (forall cycles cycle p row,
              fst (DimensionalMain.run_cycle_list (cycles ++ [cycle]) (fst g0) (snd g0))
                !! p = Some row ->
              Dimensional.active (row Dimensional.CYAN) = true ->
              Dimensional.value (row Dimensional.CYAN)
              = Dimensional.value (row Dimensional.RED)
              /\ Dimensional.value (row Dimensional.CYAN)
                 = Dimensional.value (row Dimensional.GREEN))).
Proof.
  split.
  - intros mem gen Hwf Hidle g0. subst g0.
    split; [by apply init_derived_flags|]. split.
    + intros events st Hrun. by eapply main_loop_derived_flags.
    + intros p r g c Hr Hg Hc Hact.
      destruct (init_flags mem gen p r g c Hwf Hidle Hr Hg Hc) as (_ & _ & Hm & Hcomb).
      rewrite Hact in Hm. destruct (Hcomb (eq_sym Hm)) as (-> & Hbr & Hbg).
      destruct (DerivedSpec.truncated_mean _ _ Hbr Hbg) as [Hu8 Hmean].
      cbn [Minimal.value Minimal.combined]. rewrite Hu8.
      split; [reflexivity|exact Hmean].
  - intros mem gen last Hmem Hlast Hflags g0. subst g0. split; [|split].
    + intros cycles p row Hrow.
      exact (cycles_row_flags mem gen last cycles p row Hmem Hlast Hflags Hrow).
    + intros p Hp.
      destruct (SparsitySpec.init_sparse_grid_rows mem gen Hmem) as (_ & Hdone & _).
      destruct (Hdone p Hp) as (row & Hrow & _ & _ & _ & Hcyan & Hval).
      exists row. by repeat split.
    + intros cycles cycle p row Hrow Hact.
      pose proof (cycles_row_flags mem gen last (cycles ++ [cycle]) p row
                    Hmem Hlast Hflags Hrow) as Hrf.
      destruct (SparsitySpec.init_sparse_grid_rows mem gen Hmem) as (Hlen0 & _ & _).
      exact (after_cycle_values _ _ cycles cycle p row Hlen0 Hrow Hrf Hact).
Qed.

(** In the minimal engine the value relation does not outlast the
    observer: in zeroed memory, with [rand()] returning 1, 2, 3, ... and
    [sinf] the identity, one Enter at the origin leaves slot 0 with the
    active red, green and cyan bytes 0, 48 and 145. *)
Lemma derived_value_lost_after_observer :
  option_map
    (fun st =>
       ((fun c => (Minimal.active c, Minimal.value c))
          <$> Minimal.red (MinimalMain.m_grid st) !! 0%nat,
        (fun c => (Minimal.active c, Minimal.value c))
          <$> Minimal.green (MinimalMain.m_grid st) !! 0%nat,
        (fun c => (Minimal.active c, Minimal.value c))
          <$> Minimal.cyan (MinimalMain.m_grid st) !! 0%nat))
    (@MinimalMain.main_loop MinimalMain.identity_libm counting_libc
       [Minimal.EVENT_ENTER] MinimalDefs.blank_grid 0%nat)
  = Some (Some (true, 0), Some (true, 48), Some (true, 145)).
Proof. by vm_compute. Qed.

Lemma blank_idle_cyan : idle_cyan MinimalDefs.blank_grid.
Proof.
  intros p c Hc _.
  change (Minimal.cyan MinimalDefs.blank_grid)
    with (replicate (Z.to_nat Minimal.ACTIVE_SIZE) MinimalDefs.blank_node) in Hc.
  apply lookup_replicate in Hc as [-> _]. reflexivity.
Qed.

(** Memories that meet the hypotheses: zeroed memory for both engines;
    there slot 0 of the minimal grid is combined to the byte 1 and row 0
    of the dimensional grid has its derived cell active. *)
Lemma derived_channel_invariant_witness :
  Minimal.wf_grid MinimalDefs.blank_grid /\ idle_cyan MinimalDefs.blank_grid
  /\ derived_flags MinimalDefs.sample_grid
  /\ (exists row,
        fst (@Dimensional.init_sparse_grid counting_libc DimensionalDefs.blank_rows 0%nat)
          !! 0%nat = Some row
        /\ Dimensional.active (row Dimensional.CYAN) = true).
Proof.
  pose proof MainRun.blank_grid_wf as Hwf. pose proof blank_idle_cyan as Hidle.
  split; [exact Hwf|]. split; [exact Hidle|]. split.
  - exact (proj1 (proj1 (derived_channel_invariant counting_libc MinimalMain.identity_libm)
                    MinimalDefs.blank_grid 0%nat Hwf Hidle)).
  - destruct (proj2 (derived_channel_invariant counting_libc MinimalMain.identity_libm)
                DimensionalDefs.blank_rows 0%nat (fun _ => DimensionalDefs.blank_cell)
                eq_refl eq_refl eq_refl)
      as (_ & Hinit & _).
    destruct (Hinit 0%nat ltac:(lia)) as (row & Hrow & Hcyan & _).
    exists row. split; [exact Hrow|exact Hcyan].
Defined.

End DerivedInvariant.

(** ** The wave synthesis, the derivative tracer and the matrices *)

Module WaveFacts.

Import F64 Dimensional DimensionalDefs DimensionalMain DimensionalMoreDefs.

Section WithLibC.
Context {libc : LibC}.

(** The loop steps by 2 from 1, so an even bound stops it where the odd
    bound below does. *)
Lemma fourier_loop_even fuel : forall a m x result,
  fourier_loop fuel (2 * a + 1) (2 * m) x result
  = fourier_loop fuel (2 * a + 1) (2 * m - 1) x result.
Proof.
  induction fuel as [|fuel IH]; intros a m x result; [reflexivity|].
  cbn [fourier_loop].
  destruct (Z.leb_spec (2 * a + 1) (2 * m)), (Z.leb_spec (2 * a + 1) (2 * m - 1));
    try lia; [|reflexivity].
  replace (2 * a + 1 + 2) with (2 * (a + 1) + 1) by lia. apply IH.
Qed.

Lemma fourier_square_even x m :
  0 < m -> fourier_square x (2 * m) = fourier_square x (2 * m - 1).
Proof.
  intros Hm. rewrite (GridSpec.fourier_square_fuel 1 x (2 * m - 1)).
  unfold fourier_square. f_equal.
  replace (Z.to_nat (2 * m - 1) + 1)%nat with (Z.to_nat (2 * m)) by lia.
  exact (fourier_loop_even (Z.to_nat (2 * m)) 0 m x zero).
Qed.

Lemma fourier_square_none x harmonics :
  harmonics <= 0 -> fourier_square x harmonics = zero.
Proof.
  intros Hh. unfold fourier_square.
  replace (Z.to_nat harmonics) with 0%nat by lia. cbn [fourier_loop].
  by vm_compute.
Qed.

End WithLibC.

Section WithSinf.
Context {libm : LibM32}.

Import MinimalMain.

Lemma fourier_wave_loop_fuel fuel extra : forall n harmonics x result,
  harmonics - n < 2 * Z.of_nat fuel ->
  fourier_wave_loop (fuel + extra) n harmonics x result
  = fourier_wave_loop fuel n harmonics x result.
Proof.
  induction fuel as [|fuel IH]; intros n harmonics x result Hfuel.
  - cbn [Nat.add fourier_wave_loop]. destruct extra as [|extra]; [reflexivity|].
    cbn [fourier_wave_loop]. destruct (Z.leb_spec n harmonics); [lia|reflexivity].
  - cbn [Nat.add fourier_wave_loop].
    destruct (Z.leb_spec n harmonics); [|reflexivity]. apply IH. lia.
Qed.

Lemma fourier_wave_loop_even fuel : forall a m x result,
  fourier_wave_loop fuel (2 * a + 1) (2 * m) x result
  = fourier_wave_loop fuel (2 * a + 1) (2 * m - 1) x result.
Proof.
  induction fuel as [|fuel IH]; intros a m x result; [reflexivity|].
  cbn [fourier_wave_loop].
  destruct (Z.leb_spec (2 * a + 1) (2 * m)), (Z.leb_spec (2 * a + 1) (2 * m - 1));
    try lia; [|reflexivity].
  replace (2 * a + 1 + 2) with (2 * (a + 1) + 1) by lia. apply IH.
Qed.

Lemma fourier_square_wave_even x m :
  0 < m -> fourier_square_wave x (2 * m) = fourier_square_wave x (2 * m - 1).
Proof.
  intros Hm. unfold fourier_square_wave. do 3 f_equal.
  rewrite <- (fourier_wave_loop_fuel (Z.to_nat (2 * m - 1)) 1) by lia.
  replace (Z.to_nat (2 * m - 1) + 1)%nat with (Z.to_nat (2 * m)) by lia.
  exact (fourier_wave_loop_even (Z.to_nat (2 * m)) 0 m x F32.zero).
Qed.

Lemma fourier_square_wave_none x harmonics :
  harmonics <= 0 -> fourier_square_wave x harmonics = F32.zero.
Proof.
  intros Hh. unfold fourier_square_wave.
  replace (Z.to_nat harmonics) with 0%nat by lia. cbn [fourier_wave_loop].
  by vm_compute.
Qed.

End WithSinf.

(** X17.  The two wave synthesisers, [fourier_square] (double) and
    [fourier_square_wave] (float), sum the odd harmonics only: with an even
    positive number of harmonics they return what they return for the odd
    number below, and with no harmonic (a bound of 0 or less) they return
    +0, for every argument and every sine.  So the cycles 0 and 1 of
    [main], which ask for 9 and for 10 harmonics, synthesise with the same
    sum. *)
Theorem fourier_harmonics (libc : LibC) (libm : LibM32) (harmonics : Z) :
  0 < harmonics -> Z.even harmonics = true ->
  (forall x, fourier_square x harmonics = fourier_square x (harmonics - 1))
  /\ (forall x, MinimalMain.fourier_square_wave x harmonics
                = MinimalMain.fourier_square_wave x (harmonics - 1))
  /\ (forall x h, h <= 0 -> fourier_square x h = zero)
  /\ (forall x h, h <= 0 -> MinimalMain.fourier_square_wave x h = F32.zero)
  /\ (forall x, fourier_square x (HARMONICS + Z.rem 1 5)
                = fourier_square x (HARMONICS + Z.rem 0 5)).
Proof.
  intros Hpos Heven.
  apply Z.even_spec in Heven as [m ->].
  split; [intros x; apply fourier_square_even; lia|].
  split; [intros x; apply fourier_square_wave_even; lia|].
  split; [intros x h; apply fourier_square_none|].
  split; [intros x h; apply fourier_square_wave_none|].
  intros x. exact (fourier_square_even x 5 ltac:(lia)).
Qed.

(** Ten harmonics against nine, with the stand-in libraries. *)
Lemma fourier_harmonics_witness :
  @fourier_square counting_libc (of_Z 1) 10 = @fourier_square counting_libc (of_Z 1) 9.
Proof.
  exact (proj1 (fourier_harmonics counting_libc MinimalMain.identity_libm 10
                  eq_refl eq_refl) (of_Z 1)).
Defined.

(** Every integer time from -1000 to 1000, by evaluation. *)
Lemma exact_range : forallb exact_at (seqZ (-1000) 2001) = true.
Proof. by vm_compute. Qed.

(** X18.  At every integer time [t] from -1000 to 1000 the tracer is
    exact: the trace holds, as doubles, the integers [t^3 + 2t^2 + 3t + 4],
    [3t^2 + 4t + 3], [6t + 4], 6 and 0, the value field is the first of
    them, the chain is reported terminated at order 4, and the argument
    [initial] has no influence. *)
Theorem trace_derivative_integer_times (initial : float) (t : Z) :
  -1000 <= t <= 1000 ->
  trace (trace_derivative initial (of_Z t))
  = [of_Z (poly t); of_Z (poly' t); of_Z (poly'' t); of_Z 6; zero]
  /\ dvalue (trace_derivative initial (of_Z t)) = of_Z (poly t)
  /\ order (trace_derivative initial (of_Z t)) = 4
  /\ terminated (trace_derivative initial (of_Z t)) = true
  /\ trace_derivative initial (of_Z t) = trace_derivative zero (of_Z t).
Proof.
  intros Ht.
  assert (Hexact : exact_at t = true).
  { pose proof exact_range as Hall. rewrite forallb_forall in Hall.
    apply Hall, list_elem_of_In, elem_of_seqZ. lia. }
  unfold exact_at in Hexact. apply bool_decide_eq_true in Hexact.
  change (trace_derivative initial (of_Z t)) with (trace_derivative zero (of_Z t)).
  split; [exact Hexact|].
  split; [|split; [reflexivity|split; [reflexivity|reflexivity]]].
  change (dvalue (trace_derivative zero (of_Z t)))
    with (default zero (trace (trace_derivative zero (of_Z t)) !! 0%nat)).
  by rewrite Hexact.
Qed.

Lemma trace_derivative_integer_times_witness :
  trace (trace_derivative (of_Z 1) (of_Z (-3))) = [of_Z (-14); of_Z 18; of_Z (-14); of_Z 6; zero].
Proof.
  exact (proj1 (trace_derivative_integer_times (of_Z 1) (-3) ltac:(lia))).
Defined.

Lemma mul_comm (x y : float) : mul x y = mul y x.
Proof.
  unfold mul, IEEE.mul, SFmul.
  destruct x as [sx|sx| |sx mx ex], y as [sy|sy| |sy my ey];
    rewrite ?(xorb_comm sx sy); try reflexivity.
  by rewrite (Pos.mul_comm mx my), (Z.add_comm ex ey).
Qed.

Lemma same_value_refl (x : float) : same_value x x.
Proof. by destruct x. Qed.

Lemma same_value_eq (x y : float) : x = y -> same_value x y.
Proof. intros <-. apply same_value_refl. Qed.

(** X19.  The 2x2 matrix operations, on all doubles, infinities and NaN
    included: transposing twice gives the matrix back (entries are only
    copied); the determinant of the transpose is the same value as the
    determinant; and the transpose of a product holds, entry by entry, the
    same values as the product of the transposes in reverse order.  The
    same value means the same number, signed zero or infinity bit for bit,
    or a NaN on both sides; the sign and the payload of a NaN result are
    outside the embedding and nothing is claimed about them. *)
Theorem matrix_transpose_laws (a b : Matrix2x2) :
  matrix_transpose (matrix_transpose a) = a
  /\ same_value (matrix_determinant (matrix_transpose a)) (matrix_determinant a)
  /\ same_matrix (matrix_transpose (matrix_multiply a b))
                 (matrix_multiply (matrix_transpose b) (matrix_transpose a)).
Proof.
  split; [by destruct a|]. split.
  - apply same_value_eq.
    unfold matrix_determinant, matrix_transpose. cbn [d00 d01 d10 d11].
    by rewrite (mul_comm (d10 a) (d01 a)).
  - unfold same_matrix, matrix_transpose, matrix_multiply. cbn [d00 d01 d10 d11].
    rewrite (mul_comm (d00 b) (d00 a)), (mul_comm (d10 b) (d01 a)),
      (mul_comm (d00 b) (d10 a)), (mul_comm (d10 b) (d11 a)),
      (mul_comm (d01 b) (d00 a)), (mul_comm (d11 b) (d01 a)),
      (mul_comm (d01 b) (d10 a)), (mul_comm (d11 b) (d11 a)).
    repeat split; apply same_value_refl.
Qed.

End WaveFacts.

(** ** The core: trident consensus, schema, context *)

Module CoreFacts.

Import Ascii Core.
Import (notations) String.

(** X20.  The trident counts the pairs of versions whose bytes are equal.
    Equality is transitive, so the count is 0, 1 or 3 and never 2: the
    threshold [consensus >= 2] of [nsigii_trident_consensus] is met exactly
    when the three versions are byte for byte the same, and two versions
    that agree against a third are no consensus.  A NULL trident (failed
    allocation) is no consensus either. *)
Theorem trident_consensus_unanimous (l r a : list Z) :
  nsigii_trident_init false l r a = None
  /\ nsigii_trident_consensus None = false
  /\ exists t,
       nsigii_trident_init true l r a = Some t
       /\ (local t, remote t, archive t) = (l, r, a)
       /\ (consensus t = 0 \/ consensus t = 1 \/ consensus t = 3)
       /\ (nsigii_trident_consensus (Some t) = true <-> l = r /\ r = a)
       /\ (l = r -> r <> a ->
           consensus t = 1 /\ nsigii_trident_consensus (Some t) = false).
Proof.
  split; [reflexivity|]. split; [reflexivity|].
  eexists. split; [reflexivity|]. cbn [local remote archive consensus].
  split; [reflexivity|]. unfold nsigii_trident_consensus, same_bytes.
  cbn [consensus].
  destruct (decide (l = r)) as [Hlr|Hlr], (decide (l = a)) as [Hla|Hla],
    (decide (r = a)) as [Hra|Hra];
    rewrite ?(bool_decide_eq_true_2 _ Hlr), ?(bool_decide_eq_false_2 _ Hlr),
      ?(bool_decide_eq_true_2 _ Hla), ?(bool_decide_eq_false_2 _ Hla),
      ?(bool_decide_eq_true_2 _ Hra), ?(bool_decide_eq_false_2 _ Hra);
    try congruence; cbn.
  all: split; [lia|]; split; [split; [done|tauto]|]; try tauto.
Qed.

Lemma schema_length (ctx : NSigiiContext) :
  length (schema_text ctx) = (10 + length (operation ctx) + length (service ctx))%nat.
Proof. unfold schema_text. rewrite !length_app. cbn. lia. Qed.

(** X21.  The schema of a created context.  [nsigii_create_context] keeps
    at most the first 63 characters of each name; [nsigii_generate_schema]
    then succeeds exactly when the buffer length exceeds the length of
    [obinexus.<operation>.<service>], that is 10 plus the two (truncated)
    name lengths, and on success the buffer holds that whole text; a
    buffer of 137 bytes is always enough; a NULL context or NULL buffer
    gives [NSIGII_ERROR_NULL_INPUT] and leaves the buffer alone. *)
Theorem generate_schema_of_context (calloc_tree : bool) (op svc buffer : list ascii)
    (len : Z) :
  0 <= len ->
  exists ctx,
    nsigii_create_context true calloc_tree op svc = Some ctx
    /\ operation ctx = take 63 op /\ service ctx = take 63 svc
    /\ (fst (nsigii_generate_schema (Some ctx) (Some buffer) len) = NSIGII_SUCCESS
        <-> 10 + Z.of_nat (length op `min` 63) + Z.of_nat (length svc `min` 63) < len)
    /\ (fst (nsigii_generate_schema (Some ctx) (Some buffer) len) = NSIGII_SUCCESS
        \/ fst (nsigii_generate_schema (Some ctx) (Some buffer) len) = NSIGII_ERROR_INVALID)
    /\ (fst (nsigii_generate_schema (Some ctx) (Some buffer) len) = NSIGII_SUCCESS ->
        snd (nsigii_generate_schema (Some ctx) (Some buffer) len)
        = Some (String.list_ascii_of_string "obinexus." ++ take 63 op
                ++ String.list_ascii_of_string "." ++ take 63 svc))
    /\ (137 <= len ->
        fst (nsigii_generate_schema (Some ctx) (Some buffer) len) = NSIGII_SUCCESS)
    /\ nsigii_generate_schema None (Some buffer) len
       = (NSIGII_ERROR_NULL_INPUT, Some buffer)
    /\ nsigii_generate_schema (Some ctx) None len = (NSIGII_ERROR_NULL_INPUT, None).
Proof.
  intros Hlen. eexists. split; [reflexivity|].
  set (ctx := {| operation := strncpy_63 op |}).
  split; [reflexivity|]. split; [reflexivity|].
  pose proof (schema_length ctx) as Hsize.
  assert (Hop : length (operation ctx) = (length op `min` 63)%nat)
    by (cbn; unfold strncpy_63; rewrite length_take; lia).
  assert (Hsvc : length (service ctx) = (length svc `min` 63)%nat)
    by (cbn; unfold strncpy_63; rewrite length_take; lia).
  assert (Hcode : fst (nsigii_generate_schema (Some ctx) (Some buffer) len)
                  = if Z.of_nat (length (schema_text ctx)) <? len
                    then NSIGII_SUCCESS else NSIGII_ERROR_INVALID).
  { unfold nsigii_generate_schema. cbn [fst].
    destruct (Z.ltb_spec 0 (Z.of_nat (length (schema_text ctx)))); [reflexivity|lia]. }
  rewrite Hcode.
  destruct (Z.ltb_spec (Z.of_nat (length (schema_text ctx))) len) as [Hfit|Hshort].
  - split; [split; [lia|reflexivity]|]. split; [by left|].
    split; [|split; [reflexivity|split; reflexivity]].
    intros _. unfold nsigii_generate_schema. cbn [snd].
    destruct (Z.ltb_spec 0 len); [|lia]. f_equal.
    change (String.list_ascii_of_string "obinexus." ++ take 63 op
            ++ String.list_ascii_of_string "." ++ take 63 svc)
      with (schema_text ctx).
    apply take_ge. lia.
  - split; [split; [discriminate|lia]|]. split; [by right|].
    split; [discriminate|]. split; [|split; reflexivity].
    intros Hbig. lia.
Qed.

(** A call that meets the hypothesis. *)
Lemma generate_schema_of_context_witness :
  exists ctx,
    nsigii_create_context true true (String.list_ascii_of_string "tokenize")
      (String.list_ascii_of_string "lexer") = Some ctx
    /\ nsigii_generate_schema (Some ctx) (Some []) 64
       = (NSIGII_SUCCESS, Some (String.list_ascii_of_string "obinexus.tokenize.lexer")).
Proof.
  destruct (generate_schema_of_context true (String.list_ascii_of_string "tokenize")
              (String.list_ascii_of_string "lexer") [] 64 ltac:(lia))
    as (ctx & Hctx & _).
  exists ctx. split; [exact Hctx|].
  injection Hctx as <-. reflexivity.
Defined.

Lemma aux_call_keeps (ctx : NSigiiContext) (call : AuxCall) :
  exists ctx',
    aux_call (Some ctx) call = (NSIGII_SUCCESS, Some ctx')
    /\ (operation ctx', service ctx', stage ctx', active_colors ctx',
        color_polarity ctx', trident ctx', cisco ctx')
       = (operation ctx, service ctx, stage ctx, active_colors ctx,
          color_polarity ctx, trident ctx, cisco ctx)
    /\ aux ctx' = match call with CallStart _ => AUX_START | CallStop => AUX_STOP end
    /\ noise ctx' = match call with CallStart n => n | CallStop => noise ctx end.
Proof. destruct call; eexists; repeat split. Qed.

Lemma aux_calls_keep (calls : list AuxCall) : forall ctx : NSigiiContext,
  exists ctx',
    aux_calls calls (Some ctx) = Some ctx'
    /\ (operation ctx', service ctx', stage ctx', active_colors ctx',
        color_polarity ctx', trident ctx', cisco ctx')
       = (operation ctx, service ctx, stage ctx, active_colors ctx,
          color_polarity ctx, trident ctx, cisco ctx)
    /\ aux ctx' = match last calls with
                  | Some (CallStart _) => AUX_START
                  | Some CallStop => AUX_STOP
                  | None => aux ctx
                  end.
Proof.
  unfold aux_calls.
  induction calls as [|call calls IH] using rev_ind; intros ctx.
  - exists ctx. by repeat split.
  - destruct (IH ctx) as (ctx1 & Hrun1 & Hkeep1 & _).
    destruct (aux_call_keeps ctx1 call) as (ctx2 & Hcall & Hkeep2 & Haux & _).
    exists ctx2. rewrite fold_left_app, Hrun1. cbn [fold_left].
    rewrite Hcall. cbn [snd]. split; [reflexivity|].
    split; [by rewrite Hkeep2|].
    rewrite last_snoc. rewrite Haux. by destruct call.
Qed.

(** X22.  The AUX interface on a created context: whatever sequence of
    [nsigii_aux_start] and [nsigii_aux_stop] calls is made, every call
    returns [NSIGII_SUCCESS], the context keeps its names, its stage 0,
    its colours, polarities, tree and NULL trident, the RGB consensus
    check stays true, and the instruction in force is that of the last
    call; on a NULL context the calls return [NSIGII_ERROR_NULL_CTX] and
    the check is false. *)
Theorem aux_calls_keep_consensus (calloc_tree : bool) (op svc : list ascii)
    (calls : list AuxCall) :
  exists ctx ctx',
    nsigii_create_context true calloc_tree op svc = Some ctx
    /\ aux_calls calls (Some ctx) = Some ctx'
    /\ (operation ctx', service ctx', stage ctx', active_colors ctx',
        color_polarity ctx', trident ctx', cisco ctx')
       = (operation ctx, service ctx, 0, active_colors ctx,
          color_polarity ctx, None, cisco ctx)
    /\ nsigii_verify_rgb_consensus (Some ctx') = true
    /\ aux ctx' = match last calls with
                  | Some (CallStart _) => AUX_START
                  | Some CallStop => AUX_STOP
                  | None => AUX_NOSIGNAL
                  end
    /\ (forall call, fst (aux_call (Some ctx') call) = NSIGII_SUCCESS)
    /\ (forall call, aux_call None call = (NSIGII_ERROR_NULL_CTX, None))
    /\ nsigii_verify_rgb_consensus None = false.
Proof.
  pose proof (eq_refl : nsigii_create_context true calloc_tree op svc = Some _) as Hctx.
  match type of Hctx with _ = Some ?c => set (ctx := c) in Hctx end.
  destruct (aux_calls_keep calls ctx) as (ctx' & Hrun & Hkeep & Haux).
  exists ctx, ctx'. split; [exact Hctx|]. split; [exact Hrun|].
  split; [exact Hkeep|]. split.
  - injection Hkeep as _ _ _ Hcolors _ _ _.
    unfold nsigii_verify_rgb_consensus. rewrite Hcolors. reflexivity.
  - split; [exact Haux|]. split; [|split; [|reflexivity]].
    + intros call. by destruct call.
    + intros call. by destruct call.
Qed.

End CoreFacts.


(** ** The index initialiser of the core *)

Module CoreIndexFacts.

Import CoreIndex.

Lemma three_entries (row : list Z) :
  length row = 3%nat -> exists a b c, row = [a; b; c].
Proof.
  destruct row as [|a [|b [|c [|]]]]; try discriminate. intros _. by exists a, b, c.
Qed.

(** X23.  The initialiser of the core, [nsigii_init_tomographic_index],
    copies all 18 entries: whatever the index held before the call, it
    ends with the triple and with the six orderings that the initialisers
    of the two engines store, in the same order. *)
Theorem core_index_agrees (idx : TomographicIndex) (a b c : Z) :
  six_by_three (permutations idx) ->
  let idx' := nsigii_init_tomographic_index idx a b c in
  (i idx', j idx', k idx') = (a, b, c)
  /\ six_by_three (permutations idx')
  /\ permutations idx'
     = MoreDefs.entries <$> Minimal.permutations (Minimal.init_tomographic_index a b c)
  /\ permutations idx'
     = MoreDefs.entries
         <$> Dimensional.permutations (Dimensional.init_tomographic_index a b c).
Proof.
  intros [Hsix Hrows] idx'. split; [reflexivity|].
  assert (Hperm : permutations idx'
                  = [ [a; b; c]; [b; a; c]; [a; c; b]; [b; c; a]; [c; a; b]; [c; b; a] ]).
  { subst idx'. unfold nsigii_init_tomographic_index. cbn [permutations].
    destruct (permutations idx) as [|r0 [|r1 [|r2 [|r3 [|r4 [|r5 [|]]]]]]];
      try discriminate.
    repeat match goal with
           | H : Forall _ (_ :: _) |- _ => apply Forall_cons in H as [? H]
           end.
    repeat match goal with
           | H : length ?r = 3%nat |- _ =>
               apply three_entries in H as (? & ? & ? & ->)
           end.
    reflexivity. }
  rewrite Hperm. split; [|split; reflexivity].
  split; [reflexivity|]. by repeat constructor.
Qed.

(** An index that meets the hypothesis: zeroed memory. *)
Lemma core_index_agrees_witness :
  permutations
    (nsigii_init_tomographic_index
       {| i := 0; j := 0; k := 0; permutations := replicate 6 [0; 0; 0] |} 1 2 3)
  = [ [1; 2; 3]; [2; 1; 3]; [1; 3; 2]; [2; 3; 1]; [3; 1; 2]; [3; 2; 1] ].
Proof.
  refine (proj1 (proj2 (proj2 (core_index_agrees
            {| i := 0; j := 0; k := 0; permutations := replicate 6 [0; 0; 0] |}
            1 2 3 _)))).
  split; [reflexivity|]. by repeat constructor.
Defined.

End CoreIndexFacts.
